(** * rex-cli: layered configuration and the incremental-compilation cache

    A shallow embedding of [ConfigurationManager.js], [CacheManager.js] and
    the error classes of [errors.js], with the properties of their
    specification proved (or refuted) against it, and of the parts of
    [CompilationManager.js] and [DeploymentManager.js] that call them.

    Conventions of the embedding.
    - JavaScript values are finite trees of JSON data plus [undefined]
      ([JS.value]); objects are finite maps from property names to values.
      Only own properties are modelled. The source reads data with
      [key in current] and [current[key]], which also see the members of
      [Object.prototype], writes with [current[key] = value], which the
      setter of [__proto__] intercepts, and calls [source.hasOwnProperty]
      on the data itself. The embedding agrees with the source on data and
      paths whose keys are none of the names of [Object.prototype]
      ([Shapes.ordinary], [Shapes.ordinary_path]; [Shapes.own_reads] and
      [Shapes.assignable_path] for the reads and writes that need less),
      and the theorems about merging, reading along a path, writing and
      deleting say where they need it. Cyclic objects are outside the
      embedding.
    - Numbers are carried as integers; the code never computes with them,
      it only tests them for truthiness. Fractions, [NaN] and the
      infinities are outside the embedding.
    - Strings are sequences of bytes. The index properties of a string
      ([JS.string_chars]) are those of JavaScript for ASCII text.
    - [async] methods are run sequentially; the file system is an explicit
      component of the state ([ConfigurationManager.world],
      [CacheManager.disk], [CacheUpdates.store]).
    - A method that mutates [this] is a state transformer; an exception is
      the [Throw] outcome, which carries no state: what the manager looks
      like after an exception is not tracked.
    - Objects are values, not references. [_deepMerge] copies references,
      so the merged configuration can share nested objects with the loaded
      fragments, and [set] then writes through to them; the embedding
      follows the merged configuration, which is what [get], [getAll] and
      [validateRequiredConfig] read. A theorem that follows a [set] by a
      save, which merges the fragments anew, is stated for paths on which
      [set] has written to no object of the fragment that is kept. *)

From Stdlib Require Import ZArith String Ascii List Lia DecimalString.
From stdpp Require Import gmap strings list fin_maps.

Set Warnings "-register-all".
Local Open Scope string_scope.

(* ===================================================================== *)
(** * JavaScript values and the primitive operations the code uses        *)
(* ===================================================================== *)

Module JS.

Inductive value : Type :=
| VUndefined
| VNull
| VBool (b : bool)
| VNum (n : Z)
| VStr (s : string)
| VArr (l : list value)
| VObj (m : gmap string value).

(** A plain object, as a map from own property names to values. *)
Abbreviation obj := (gmap string value).

(** [!!v] in JavaScript: every value but [undefined], [null], [false],
    [0] and the empty string is truthy. *)
Definition truthy (v : value) : bool :=
  match v with
  | VUndefined | VNull => false
  | VBool b => b
  | VNum n => negb (n =? 0)%Z
  | VStr s => negb (String.eqb s "")
  | VArr _ | VObj _ => true
  end.

(** [typeof v === 'object'] (true of [null] and of arrays as well). *)
Definition typeof_object (v : value) : bool :=
  match v with
  | VNull | VArr _ | VObj _ => true
  | _ => false
  end.

(** [v === undefined]. *)
Definition is_undefined (v : value) : bool :=
  match v with VUndefined => true | _ => false end.

(** [v === s] for a string [s]: strict equality never converts. *)
Definition strict_eq_string (v : value) (s : string) : bool :=
  match v with VStr s' => String.eqb s' s | _ => false end.

(** [String(i)] for an array index. *)
Definition index_key (i : nat) : string :=
  NilEmpty.string_of_uint (Nat.to_uint i).

(** The index properties of an array: [("0", l[0]); ("1", l[1]); ...]. *)
Fixpoint array_entries (i : nat) (l : list value) : list (string * value) :=
  match l with
  | [] => []
  | v :: l' => (index_key i, v) :: array_entries (S i) l'
  end.

(** The characters of a string as one-character strings (its index
    properties, for ASCII text). *)
Fixpoint string_chars (s : string) : list value :=
  match s with
  | EmptyString => []
  | String c s' => VStr (String c EmptyString) :: string_chars s'
  end.

(** Own enumerable properties: what the spread [{...v}] copies and what
    [for (key in v)] filtered by [hasOwnProperty] visits. *)
Definition own_enumerable (v : value) : obj :=
  match v with
  | VObj m => m
  | VArr l => list_to_map (array_entries 0 l)
  | VStr s => list_to_map (array_entries 0 (string_chars s))
  | _ => ∅
  end.

(** The own property [key] of [v], [None] when [v] has no such own
    property. Arrays and strings also own [length]. *)
Definition own_property (v : value) (key : string) : option value :=
  match v with
  | VObj m => m !! key
  | VArr l =>
      if String.eqb key "length" then Some (VNum (Z.of_nat (length l)))
      else own_enumerable v !! key
  | VStr s =>
      if String.eqb key "length" then Some (VNum (Z.of_nat (String.length s)))
      else own_enumerable v !! key
  | _ => None
  end.

(** [key in v], for [v] of type object and a [key] that [v] does not
    inherit. *)
Definition has_in (key : string) (v : value) : bool :=
  match own_property v key with Some _ => true | None => false end.

(** [v[key]], for a [key] that [v] does not inherit: a missing property
    reads as [undefined]. *)
Definition get_prop (v : value) (key : string) : value :=
  match own_property v key with Some x => x | None => VUndefined end.

(** [Object.keys(m)]. *)
Definition object_keys (m : obj) : list string := (map_to_list m).*1.

(** [s.split('.')]: never empty; [''.split('.')] is [['']]. *)
Fixpoint split_dot (s : string) : list string :=
  match s with
  | EmptyString => [EmptyString]
  | String c rest =>
      let parts := split_dot rest in
      if Ascii.eqb c "." then EmptyString :: parts
      else match parts with
           | p :: ps => String c p :: ps
           | [] => [String c EmptyString]
           end
  end.

(** [parts.join(sep)]. *)
Fixpoint join (sep : string) (parts : list string) : string :=
  match parts with
  | [] => ""
  | [p] => p
  | p :: ps => p ++ sep ++ join sep ps
  end.

(** [keys.pop()]: the array without its last element, and that element
    ([None] for [undefined], when the array is empty). *)
Definition pop (keys : list string) : list string * option string :=
  (removelast keys, last keys).

(** A property name made of a value that may be [undefined]:
    [current[undefined]] is the property named ['undefined']. *)
Definition property_name (k : option string) : string :=
  match k with Some s => s | None => "undefined" end.

(** What [JSON.stringify] followed by [JSON.parse] keeps of a value:
    [undefined] properties are dropped, [undefined] array elements become
    [null]. *)
Fixpoint json_image (v : value) : value :=
  match v with
  | VArr l =>
      VArr (List.map (fun x => match x with
                               | VUndefined => VNull
                               | _ => json_image x
                               end) l)
  | VObj m =>
      VObj (map_fold (fun key x acc =>
                        match x with
                        | VUndefined => acc
                        | _ => <[key := json_image x]> acc
                        end) ∅ m)
  | _ => v
  end.

End JS.

(* ===================================================================== *)
(** * errors.js                                                           *)
(* ===================================================================== *)

Module Errors.
Import JS.

(** An exception object: the [name] its constructor sets, which tells the
    class, and its [message]. *)
Record error := MkError { name : string; message : string }.

(** [new Error(message)], as the runtime and [fs-extra] raise it. *)
Definition Error (message : string) : error :=
  {| name := "Error"; message := message |}.

(** [class ValidationError]: [super(message)], [this.name =
    'ValidationError']. *)
Definition ValidationError (message : string) : error :=
  {| name := "ValidationError"; message := message |}.

(** [Error.prototype.toString], used when an error object is interpolated
    into a template string. *)
Definition error_to_string (e : error) : string :=
  if String.eqb (name e) "" then message e
  else if String.eqb (message e) "" then name e
  else name e ++ ": " ++ message e.

(** A template-string hole filled with a string that may be [undefined]. *)
Definition interpolate (s : option string) : string :=
  match s with Some x => x | None => "undefined" end.

(** [class FileSystemError]: the constructor takes [(operation, path,
    originalError)]; an argument the caller leaves out is [None]. *)
Definition FileSystemError
    (operation path : option string) (originalError : option error) : error :=
  let errorMessage :=
    match originalError with
    | Some e => if negb (String.eqb (message e) "") then message e
                else error_to_string e
    | None => "Unknown error"
    end in
  {| name := "FileSystemError";
     message := "Failed to " ++ interpolate operation ++ " '"
                ++ interpolate path ++ "': " ++ errorMessage |}.

End Errors.

(* ===================================================================== *)
(** * Methods as state transformers that may throw                        *)
(* ===================================================================== *)

Module Eff.
Import Errors.

Inductive result (A : Type) :=
| Return (a : A)
| Throw (e : error).
Arguments Return {A} a.
Arguments Throw {A} e.

(** A method over a state [S]: it returns a value and the next state, or
    throws. *)
Definition M (S A : Type) : Type := S -> result (A * S).

#[export] Instance M_ret {S} : MRet (M S) := fun A a st => Return (a, st).
#[export] Instance M_bind {S} : MBind (M S) := fun A B f m st =>
  match m st with
  | Return (a, st') => f a st'
  | Throw e => Throw e
  end.

Definition throw {S A} (e : error) : M S A := fun _ => Throw e.

(** [try { body } catch (error) { throw wrap(error) }]. *)
Definition rethrow {S A} (wrap : error -> error) (body : M S A) : M S A :=
  fun st => match body st with
            | Throw e => Throw (wrap e)
            | r => r
            end.

(** A pure computation that may throw, run inside a method. *)
Definition lift {S A} (r : result A) : M S A :=
  fun st => match r with
            | Return a => Return (a, st)
            | Throw e => Throw e
            end.

End Eff.

(* ===================================================================== *)
(** * ConfigurationManager.js                                             *)
(* ===================================================================== *)

Module ConfigurationManager.
Import JS Errors Eff.

(** The three fields of the class; [null] is [VNull], and
    [_mergedConfig], which is [null] or an object, is an [option]. *)
Record manager := MkManager {
  _globalConfig : value;
  _projectConfig : value;
  _mergedConfig : option obj
}.

(** [constructor()]. *)
Definition constructor : manager :=
  {| _globalConfig := VNull; _projectConfig := VNull; _mergedConfig := None |}.

(** What reading a [config.json] does. *)
Inductive json_file :=
| Absent                      (* fs.pathExists resolves to false *)
| Unreadable (cause : error)  (* fs.readJson rejects: unreadable or malformed *)
| Holds (config : value).     (* fs.readJson resolves to config *)

(** The part of the outside world the manager touches. *)
Record world := MkWorld {
  global_config_json : json_file;     (* ~/.rex/config.json *)
  project_config_json : json_file;    (* ./.rex/config.json *)
  global_config_path : string;
  project_config_path : string;
  write_fault : option error;  (* fs.ensureDir or fs.writeJson rejects with it *)
  console_warn : list string   (* lines printed by console.warn, oldest first *)
}.

Record state := MkState { this : manager; env : world }.

Abbreviation M := (Eff.M state).

Definition read_this : M manager := fun st => Return (this st, st).
Definition read_env : M world := fun st => Return (env st, st).
Definition write_this (m : manager) : M unit :=
  fun st => Return (tt, {| this := m; env := env st |}).
Definition write_env (w : world) : M unit :=
  fun st => Return (tt, {| this := this st; env := w |}).

(** [console.warn(line)]. *)
Definition console_warn_line (line : string) : M unit :=
  fun st =>
    let w := env st in
    Return (tt, {| this := this st;
                   env := {| global_config_json := global_config_json w;
                             project_config_json := project_config_json w;
                             global_config_path := global_config_path w;
                             project_config_path := project_config_path w;
                             write_fault := write_fault w;
                             console_warn := console_warn w ++ [line] |} |}).

(** ** Pure helpers *)

(** [_isObject(obj)]: not [null], of type object, not an array. *)
Definition _isObject (v : value) : bool :=
  match v with VObj _ => true | _ => false end.

(** The body of the loop of [_deepMerge] computes the new [result[key]]
    from [target[key]] and [source[key]]: the recursive merge when both are
    objects, else [source[key]]. The recursion of [_deepMerge] is through
    this function. *)
Fixpoint merge_property (target_key source_key : value) {struct source_key}
    : value :=
  match source_key, target_key with
  | VObj source, VObj target =>
      VObj (map_fold
              (fun key sv result =>
                 <[key := merge_property (get_prop (VObj target) key) sv]> result)
              target source)
  | _, _ => source_key
  end.

(** [_deepMerge(target, source)]: start from a shallow copy of [target]
    and overwrite it key by key over the own properties of [source]. The
    test [source.hasOwnProperty(key)] is taken to be that of
    [Object.prototype]: the sources are those without an own property
    [hasOwnProperty] or [__proto__] ([Shapes.ordinary]). *)
Definition _deepMerge (target source : value) : obj :=
  let target := if negb (truthy target) then VObj ∅ else target in
  let source := if negb (truthy source) then VObj ∅ else source in
  map_fold
    (fun key sv result => <[key := merge_property (get_prop target key) sv]> result)
    (own_enumerable target) (own_enumerable source).

(** [_sanitizeCliOptions(cliOptions)], for options without an own
    property [hasOwnProperty] or [__proto__]. *)
Definition _sanitizeCliOptions (cliOptions : value) : obj :=
  map_fold
    (fun key v sanitized =>
       if negb (is_undefined v) then <[key := v]> sanitized else sanitized)
    ∅ (own_enumerable cliOptions).

(** [_mergeConfigurations(globalConfig, projectConfig, cliOptions)]. *)
Definition _mergeConfigurations (globalConfig projectConfig cliOptions : value)
    : obj :=
  _deepMerge (VObj (_deepMerge globalConfig projectConfig))
             (VObj (_sanitizeCliOptions cliOptions)).

(** The loop of [_getNestedValue] over the split key path. *)
Fixpoint get_keys (current : value) (keys : list string) (defaultValue : value)
    : value :=
  match keys with
  | [] => current
  | key :: keys' =>
      if truthy current && typeof_object current && has_in key current
      then get_keys (get_prop current key) keys' defaultValue
      else defaultValue
  end.

(** [_getNestedValue(obj, keyPath, defaultValue)]. *)
Definition _getNestedValue (o : value) (keyPath : string) (defaultValue : value)
    : value :=
  get_keys o (split_dot keyPath) defaultValue.

(** The loop of [_setNestedValue] and its final assignment; the in-place
    update of [current] is returned as the updated object. *)
Fixpoint set_keys (current : obj) (keys : list string) (lastKey : string)
    (v : value) : obj :=
  match keys with
  | [] => <[lastKey := v]> current
  | key :: keys' =>
      let child :=
        if negb (has_in key (VObj current))
           || negb (_isObject (get_prop (VObj current) key))
        then ∅
        else own_enumerable (get_prop (VObj current) key) in
      <[key := VObj (set_keys child keys' lastKey v)]> current
  end.

(** [_setNestedValue(obj, keyPath, value)]. *)
Definition _setNestedValue (o : obj) (keyPath : string) (v : value) : obj :=
  let '(keys, lastKey) := pop (split_dot keyPath) in
  set_keys o keys (property_name lastKey) v.

(** The receiver of a property write or delete in [setUtilityConfig],
    after the guard [if (!x) x = {}]: a falsy [x] has been replaced by a
    fresh object, an object is used as it is. [None]: [x] is truthy and not
    a plain object (an array, a string, a number, [true]); writes and
    deletes on such receivers are outside the embedding. *)
Definition ensured_object (x : value) : option obj :=
  if negb (truthy x) then Some ∅
  else match x with VObj m => Some m | _ => None end.

(** The lines of [setUtilityConfig] between loading and saving: the
    [currentConfig] that is handed to [saveProjectConfig]. *)
Definition utility_update (projectConfig : value) (utilityName key : string)
    (v : value) : option obj :=
  let currentConfig := own_enumerable projectConfig in
  utilities ← ensured_object (get_prop (VObj currentConfig) "utilities");
  entry ← ensured_object (get_prop (VObj utilities) utilityName);
  if is_undefined v then
    let entry := delete key entry in
    let utilities :=
      if (length (object_keys entry) =? 0)%nat
      then delete utilityName utilities
      else <[utilityName := VObj entry]> utilities in
    Some (if (length (object_keys utilities) =? 0)%nat
          then delete "utilities" currentConfig
          else <["utilities" := VObj utilities]> currentConfig)
  else
    Some (<["utilities" :=
              VObj (<[utilityName := VObj (<[key := v]> entry)]> utilities)]>
            currentConfig).

(** ** The methods *)

Definition with_global (g : value) (m : manager) : manager :=
  {| _globalConfig := g; _projectConfig := _projectConfig m;
     _mergedConfig := _mergedConfig m |}.
Definition with_project (p : value) (m : manager) : manager :=
  {| _globalConfig := _globalConfig m; _projectConfig := p;
     _mergedConfig := _mergedConfig m |}.
Definition with_merged (c : option obj) (m : manager) : manager :=
  {| _globalConfig := _globalConfig m; _projectConfig := _projectConfig m;
     _mergedConfig := c |}.
Definition with_global_json (f : json_file) (w : world) : world :=
  {| global_config_json := f; project_config_json := project_config_json w;
     global_config_path := global_config_path w;
     project_config_path := project_config_path w;
     write_fault := write_fault w; console_warn := console_warn w |}.
Definition with_project_json (f : json_file) (w : world) : world :=
  {| global_config_json := global_config_json w; project_config_json := f;
     global_config_path := global_config_path w;
     project_config_path := project_config_path w;
     write_fault := write_fault w; console_warn := console_warn w |}.

Definition not_loaded_message : string :=
  "Configuration not loaded. Call loadConfiguration() first.".

(** [_loadGlobalConfig()]: the whole body is inside [try], and the
    handler warns and returns [{}]. *)
Definition _loadGlobalConfig : M value :=
  w ← read_env;
  match global_config_json w with
  | Absent => mret (VObj ∅)
  | Holds config => mret (if truthy config then config else VObj ∅)
  | Unreadable error =>
      console_warn_line
        ("Warning: Could not load global config: " ++ message error);;
      mret (VObj ∅)
  end.

(** [_loadProjectConfig()]. *)
Definition _loadProjectConfig : M value :=
  w ← read_env;
  match project_config_json w with
  | Absent => mret (VObj ∅)
  | Holds config => mret (if truthy config then config else VObj ∅)
  | Unreadable error =>
      console_warn_line
        ("Warning: Could not load project config: " ++ message error);;
      mret (VObj ∅)
  end.

(** [get(key, defaultValue)]. *)
Definition get (key : string) (defaultValue : value) : M value :=
  m ← read_this;
  match _mergedConfig m with
  | None => throw (ValidationError not_loaded_message)
  | Some merged => mret (_getNestedValue (VObj merged) key defaultValue)
  end.

(** [set(key, value)]. The fields [_globalConfig] and [_projectConfig] are
    returned as they were (see the conventions on sharing). *)
Definition set (key : string) (v : value) : M unit :=
  m ← read_this;
  let merged := match _mergedConfig m with None => ∅ | Some c => c end in
  write_this (with_merged (Some (_setNestedValue merged key v)) m).

(** [getAll()]: a shallow copy of the merged configuration. *)
Definition getAll : M obj :=
  m ← read_this;
  match _mergedConfig m with
  | None => throw (ValidationError not_loaded_message)
  | Some merged => mret merged
  end.

(** [isLoaded()]. *)
Definition isLoaded : M bool :=
  m ← read_this;
  mret (match _mergedConfig m with None => false | Some _ => true end).

(** [reset()]. *)
Definition reset : M unit :=
  write_this {| _globalConfig := VNull; _projectConfig := VNull;
                _mergedConfig := None |}.

(** The loop of [validateRequiredConfig]: [missing] grows by each key
    whose [this.get(key)] is [undefined]. *)
Fixpoint collect_missing (requiredKeys missing : list string)
    : M (list string) :=
  match requiredKeys with
  | [] => mret missing
  | key :: rest =>
      v ← get key VUndefined;
      collect_missing rest (if is_undefined v then missing ++ [key] else missing)
  end.

(** [validateRequiredConfig(requiredKeys)]. *)
Definition validateRequiredConfig (requiredKeys : list string) : M unit :=
  m ← read_this;
  match _mergedConfig m with
  | None => throw (ValidationError not_loaded_message)
  | Some _ =>
      missing ← collect_missing requiredKeys [];
      if (0 <? length missing)%nat
      then throw (ValidationError
                    ("Missing required configuration: " ++ join ", " missing))
      else mret tt
  end.

Section Dispatch.

(** [this._mergeConfigurations] is looked up on the instance at each call;
    the test-suite replaces it by a stub that throws. The methods that call
    it take it as [merge_method]. *)
Variable merge_method : value -> value -> value -> result obj.

(** [loadConfiguration(cliOptions = {})]. The handler calls the
    three-argument constructor of [FileSystemError] with one argument. *)
Definition loadConfiguration (cliOptions : value) : M obj :=
  let cliOptions := if is_undefined cliOptions then VObj ∅ else cliOptions in
  rethrow
    (fun error =>
       FileSystemError
         (Some ("Failed to load configuration: " ++ message error)) None None)
    (g ← _loadGlobalConfig;
     m ← read_this; write_this (with_global g m);;
     p ← _loadProjectConfig;
     m ← read_this; write_this (with_project p m);;
     m ← read_this;
     merged ← lift (merge_method (_globalConfig m) (_projectConfig m) cliOptions);
     write_this (with_merged (Some merged) m);;
     mret merged).

(** [fs.ensureDir] and [fs.writeJson] on the project file. *)
Definition write_project_json (config : obj) : M unit :=
  w ← read_env;
  match write_fault w with
  | Some error => throw error
  | None => write_env (with_project_json (Holds (json_image (VObj config))) w)
  end.

(** [fs.ensureDir] and [fs.writeJson] on the global file. *)
Definition write_global_json (config : obj) : M unit :=
  w ← read_env;
  match write_fault w with
  | Some error => throw error
  | None => write_env (with_global_json (Holds (json_image (VObj config))) w)
  end.

(** [saveProjectConfig(config)]. *)
Definition saveProjectConfig (config : obj) : M unit :=
  w ← read_env;
  rethrow
    (fun error =>
       FileSystemError (Some "save project config")
                       (Some (project_config_path w)) (Some error))
    (write_project_json config;;
     m ← read_this;
     match _mergedConfig m with
     | None => mret tt
     | Some _ =>
         merged ← lift (merge_method (_globalConfig m) (VObj config) (VObj ∅));
         write_this (with_merged (Some merged) (with_project (VObj config) m))
     end).

(** [saveGlobalConfig(config)]. *)
Definition saveGlobalConfig (config : obj) : M unit :=
  w ← read_env;
  rethrow
    (fun error =>
       FileSystemError (Some "save global config")
                       (Some (global_config_path w)) (Some error))
    (write_global_json config;;
     m ← read_this;
     match _mergedConfig m with
     | None => mret tt
     | Some _ =>
         merged ← lift (merge_method (VObj config) (_projectConfig m) (VObj ∅));
         write_this (with_merged (Some merged) (with_global (VObj config) m))
     end).

(** [setUtilityConfig(utilityName, key, value)]; [None] when
    [utility_update] leaves the embedding. *)
Definition setUtilityConfig (utilityName key : string) (v : value)
    : state -> option (result (unit * state)) :=
  fun st =>
    let wrap error :=
      FileSystemError (Some "set utility config")
                      (Some "project config file") (Some error) in
    let ensure_loaded : M unit :=
      m ← read_this;
      match _mergedConfig m with
      | None => loadConfiguration (VObj ∅);; mret tt
      | Some _ => mret tt
      end in
    match rethrow wrap ensure_loaded st with
    | Throw e => Some (Throw e)
    | Return (_, st1) =>
        match utility_update (_projectConfig (this st1)) utilityName key v with
        | None => None
        | Some currentConfig =>
            Some (rethrow wrap (saveProjectConfig currentConfig) st1)
        end
    end.

End Dispatch.

(** The method the class defines for the [_mergeConfigurations] slot, on
    fragments and options of ordinary keys, where it does not throw. *)
Definition own_merge_method (g p c : value) : result obj :=
  Return (_mergeConfigurations g p c).

End ConfigurationManager.

(* ===================================================================== *)
(** * What [fs.readFile(path, 'utf8')] and [crypto] do to file content    *)
(* ===================================================================== *)

(** [fs.readFile(path, 'utf8')] decodes the bytes of the file as UTF-8,
    every ill-formed sequence becoming U+FFFD, and [hash.update(content)]
    encodes the string back into UTF-8. Text is a list of code points. *)
Module Utf8.

Local Open Scope Z_scope.

Definition replacement : Z := 0xFFFD.

(** The decoder between two bytes: the code point under construction,
    how many continuation bytes are needed and seen, and the range the
    next byte must lie in. *)
Record decoder := MkDecoder {
  code_point : Z;
  bytes_needed : nat;
  bytes_seen : nat;
  lower : Z;
  upper : Z
}.

Definition idle : decoder :=
  {| code_point := 0; bytes_needed := 0; bytes_seen := 0;
     lower := 0x80; upper := 0xBF |}.

(** A byte read when no sequence is open. *)
Definition lead_byte (b : Z) : list Z * decoder :=
  if b <=? 0x7F then ([b], idle)
  else if (0xC2 <=? b) && (b <=? 0xDF) then
    ([], {| code_point := Z.land b 0x1F; bytes_needed := 1; bytes_seen := 0;
            lower := 0x80; upper := 0xBF |})
  else if (0xE0 <=? b) && (b <=? 0xEF) then
    ([], {| code_point := Z.land b 0xF; bytes_needed := 2; bytes_seen := 0;
            lower := if b =? 0xE0 then 0xA0 else 0x80;
            upper := if b =? 0xED then 0x9F else 0xBF |})
  else if (0xF0 <=? b) && (b <=? 0xF4) then
    ([], {| code_point := Z.land b 0x7; bytes_needed := 3; bytes_seen := 0;
            lower := if b =? 0xF0 then 0x90 else 0x80;
            upper := if b =? 0xF4 then 0x8F else 0xBF |})
  else ([replacement], idle).

(** One byte: the code points it completes and the next decoder. A byte
    that cannot continue the open sequence closes it with U+FFFD and is
    read again as a lead byte. *)
Definition step (d : decoder) (b : Z) : list Z * decoder :=
  if (bytes_needed d =? 0)%nat then lead_byte b
  else if negb ((lower d <=? b) && (b <=? upper d)) then
    let '(out, d') := lead_byte b in (replacement :: out, d')
  else
    let cp := Z.lor (Z.shiftl (code_point d) 6) (Z.land b 0x3F) in
    if (S (bytes_seen d) =? bytes_needed d)%nat then ([cp], idle)
    else ([], {| code_point := cp; bytes_needed := bytes_needed d;
                 bytes_seen := S (bytes_seen d);
                 lower := 0x80; upper := 0xBF |}).

Fixpoint decode_from (d : decoder) (bytes : list Z) : list Z :=
  match bytes with
  | [] => if (bytes_needed d =? 0)%nat then [] else [replacement]
  | b :: rest => let '(out, d') := step d b in out ++ decode_from d' rest
  end.

Definition byte_value (b : Byte.byte) : Z := Z.of_N (Byte.to_N b).

(** The text of a file. *)
Definition decode (content : list Byte.byte) : list Z :=
  decode_from idle (List.map byte_value content).

Definition encode_code_point (c : Z) : list Z :=
  if c <=? 0x7F then [c]
  else if c <=? 0x7FF then
    [Z.lor 0xC0 (Z.shiftr c 6); Z.lor 0x80 (Z.land c 0x3F)]
  else if c <=? 0xFFFF then
    [Z.lor 0xE0 (Z.shiftr c 12);
     Z.lor 0x80 (Z.land (Z.shiftr c 6) 0x3F);
     Z.lor 0x80 (Z.land c 0x3F)]
  else
    [Z.lor 0xF0 (Z.shiftr c 18);
     Z.lor 0x80 (Z.land (Z.shiftr c 12) 0x3F);
     Z.lor 0x80 (Z.land (Z.shiftr c 6) 0x3F);
     Z.lor 0x80 (Z.land c 0x3F)].

(** The bytes [hash.update] is fed for a string. *)
Definition encode (text : list Z) : list Z :=
  List.flat_map encode_code_point text.

End Utf8.

(** [crypto.createHash('sha256').update(bytes).digest('hex')], after
    FIPS 180-4, on 32-bit words held in [Z]. *)
Module Sha256.

Local Open Scope Z_scope.

Definition add32 (a b : Z) : Z := (a + b) mod 2 ^ 32.
Definition rotr (n x : Z) : Z :=
  Z.lor (Z.shiftr x n) ((Z.shiftl x (32 - n)) mod 2 ^ 32).
Definition Ch (x y z : Z) : Z :=
  Z.lxor (Z.land x y) (Z.land (Z.lxor x 0xFFFFFFFF) z).
Definition Maj (x y z : Z) : Z :=
  Z.lxor (Z.lxor (Z.land x y) (Z.land x z)) (Z.land y z).
Definition Sigma0 (x : Z) : Z := Z.lxor (Z.lxor (rotr 2 x) (rotr 13 x)) (rotr 22 x).
Definition Sigma1 (x : Z) : Z := Z.lxor (Z.lxor (rotr 6 x) (rotr 11 x)) (rotr 25 x).
Definition sigma0 (x : Z) : Z := Z.lxor (Z.lxor (rotr 7 x) (rotr 18 x)) (Z.shiftr x 3).
Definition sigma1 (x : Z) : Z := Z.lxor (Z.lxor (rotr 17 x) (rotr 19 x)) (Z.shiftr x 10).

(** The constants of the standard are defined from the first primes: the
    first 32 bits of the fractional parts of their cube roots (the round
    constants) and of their square roots (the initial hash value). *)
Definition is_prime (n : nat) : bool :=
  forallb (fun d => negb (n mod d =? 0)%nat) (seq 2 (n - 2)).

Definition primes : list Z :=
  List.map Z.of_nat (List.filter is_prime (seq 2 310)).

(** The largest [r] below [2 ^ bits] with [r ^ k <= n], found bit by bit
    from the top. *)
Fixpoint root_floor (k : Z) (bits : nat) (n r : Z) : Z :=
  match bits with
  | O => r
  | S bits' =>
      let candidate := r + 2 ^ Z.of_nat bits' in
      root_floor k bits' n (if candidate ^ k <=? n then candidate else r)
  end.

Definition fraction_bits (k p : Z) : Z :=
  root_floor k 40 (p * 2 ^ (32 * k)) 0 mod 2 ^ 32.

Definition K : list Z :=
  Eval vm_compute in List.map (fraction_bits 3) primes.

(** The eight working variables, and the hash value between blocks. *)
Record words8 := W8 { wa : Z; wb : Z; wc : Z; wd : Z;
                      we : Z; wf : Z; wg : Z; wh : Z }.

Definition word_at (i : nat) (l : list Z) : Z := List.nth i l 0.

Definition H0 : words8 :=
  Eval vm_compute in
    let h := List.map (fraction_bits 2) primes in
    W8 (word_at 0 h) (word_at 1 h) (word_at 2 h) (word_at 3 h)
       (word_at 4 h) (word_at 5 h) (word_at 6 h) (word_at 7 h).

(** Padding: the bit 1, zeros up to 56 modulo 64, the length in bits on
    eight bytes, big-endian. *)
Definition length_bytes (bits : Z) : list Z :=
  List.map (fun i => (Z.shiftr bits (8 * i)) mod 256) [7; 6; 5; 4; 3; 2; 1; 0].

Definition pad (message : list Z) : list Z :=
  let l := Z.of_nat (length message) in
  message ++ [0x80] ++ List.repeat 0 (Z.to_nat ((55 - l) mod 64))
          ++ length_bytes (8 * l).

Fixpoint chunks (size count : nat) (l : list Z) : list (list Z) :=
  match count with
  | O => []
  | S count' => firstn size l :: chunks size count' (skipn size l)
  end.

Definition word_of_bytes (bytes : list Z) : Z :=
  List.fold_left (fun acc b => acc * 256 + b) bytes 0.

Definition block_words (block : list Z) : list Z :=
  List.map word_of_bytes (chunks 4 16 block).

(** The message schedule: [count] more words after those of [w]. *)
Fixpoint extend (count : nat) (w : list Z) : list Z :=
  match count with
  | O => w
  | S count' =>
      let t := length w in
      let back i := List.nth (t - i) w 0 in
      extend count'
        (w ++ [add32 (add32 (sigma1 (back 2%nat)) (back 7%nat))
                     (add32 (sigma0 (back 15%nat)) (back 16%nat))])
  end.

Definition round (s : words8) (kw : Z * Z) : words8 :=
  let '(k, w) := kw in
  let T1 := add32 (add32 (add32 (wh s) (Sigma1 (we s)))
                         (add32 (Ch (we s) (wf s) (wg s)) k)) w in
  let T2 := add32 (Sigma0 (wa s)) (Maj (wa s) (wb s) (wc s)) in
  W8 (add32 T1 T2) (wa s) (wb s) (wc s) (add32 (wd s) T1) (we s) (wf s) (wg s).

Definition compress (h : words8) (block : list Z) : words8 :=
  let w := extend 48 (block_words block) in
  let s := List.fold_left round (List.combine K w) h in
  W8 (add32 (wa h) (wa s)) (add32 (wb h) (wb s)) (add32 (wc h) (wc s))
     (add32 (wd h) (wd s)) (add32 (we h) (we s)) (add32 (wf h) (wf s))
     (add32 (wg h) (wg s)) (add32 (wh h) (wh s)).

Definition sha256 (message : list Z) : words8 :=
  let padded := pad message in
  List.fold_left compress (chunks 64 (length padded / 64) padded) H0.

Definition hex_digit (n : Z) : ascii :=
  match n with
  | 0 => "0" | 1 => "1" | 2 => "2" | 3 => "3" | 4 => "4" | 5 => "5"
  | 6 => "6" | 7 => "7" | 8 => "8" | 9 => "9" | 10 => "a" | 11 => "b"
  | 12 => "c" | 13 => "d" | 14 => "e" | _ => "f"
  end%char.

Definition hex8 (w : Z) (tail : string) : string :=
  String (hex_digit (Z.land (Z.shiftr w 28) 15))
  (String (hex_digit (Z.land (Z.shiftr w 24) 15))
  (String (hex_digit (Z.land (Z.shiftr w 20) 15))
  (String (hex_digit (Z.land (Z.shiftr w 16) 15))
  (String (hex_digit (Z.land (Z.shiftr w 12) 15))
  (String (hex_digit (Z.land (Z.shiftr w 8) 15))
  (String (hex_digit (Z.land (Z.shiftr w 4) 15))
  (String (hex_digit (Z.land w 15)) tail))))))).

Definition to_hex (h : words8) : string :=
  hex8 (wa h) (hex8 (wb h) (hex8 (wc h) (hex8 (wd h)
  (hex8 (we h) (hex8 (wf h) (hex8 (wg h) (hex8 (wh h) EmptyString))))))).

Definition sha256_hex (message : list Z) : string := to_hex (sha256 message).

End Sha256.

(* ===================================================================== *)
(** * CacheManager.js                                                     *)
(* ===================================================================== *)

Module CacheManager.
Import JS Errors Eff.

(** What [fs.readJson(path, { throws: false })] does. *)
Inductive json_read :=
| Rejects (cause : error)
| Resolves (data : value).

(** What [fs.readFile(path, 'utf8')] does, before decoding. *)
Inductive file_read :=
| ReadFails (cause : error)
| Content (bytes : list Byte.byte).

(** The part of the outside world the cache manager reads, and the
    console it writes to. *)
Record disk := MkDisk {
  hashes_json : json_read;          (* .rex/cache/hashes.json *)
  detection_json : json_read;       (* .rex/cache/detection.json *)
  read_file : string -> file_read;
  console_warn : list string        (* lines of console.warn, oldest first *)
}.

Abbreviation M := (Eff.M disk).

Definition read_disk : M disk := fun d => Return (d, d).

(** [console.warn(line)]. *)
Definition console_warn_line (line : string) : M unit :=
  fun d => Return (tt, {| hashes_json := hashes_json d;
                          detection_json := detection_json d;
                          read_file := read_file d;
                          console_warn := console_warn d ++ [line] |}).

(** [new TypeError(message)]. *)
Definition TypeError (message : string) : error :=
  {| name := "TypeError"; message := message |}.

(** [receiver[key]]: reading a property of [null] or [undefined] throws. *)
Definition read_property (receiver : value) (key : string) : M value :=
  match receiver with
  | VNull =>
      throw (TypeError ("Cannot read properties of null (reading '"
                        ++ key ++ "')"))
  | VUndefined =>
      throw (TypeError ("Cannot read properties of undefined (reading '"
                        ++ key ++ "')"))
  | _ => mret (get_prop receiver key)
  end.

(** [loadCache()]: both reads are inside one [try]. *)
Definition loadCache : M (value * value) :=
  d ← read_disk;
  let failed (error : error) : M (value * value) :=
    console_warn_line ("警告：無法載入快取: " ++ message error);;
    mret (VObj ∅, VObj ∅) in
  match hashes_json d with
  | Rejects error => failed error
  | Resolves h =>
      let hashCache := if truthy h then h else VObj ∅ in
      match detection_json d with
      | Rejects error => failed error
      | Resolves c =>
          let detectionCache := if truthy c then c else VObj ∅ in
          mret (hashCache, detectionCache)
      end
  end.

(** [calculateFileHash(filePath)]: the digest, or [None] for [null]. *)
Definition calculateFileHash (filePath : string) : M (option string) :=
  d ← read_disk;
  match read_file d filePath with
  | Content bytes =>
      let content := Utf8.decode bytes in
      mret (Some (Sha256.sha256_hex (Utf8.encode content)))
  | ReadFails error =>
      console_warn_line
        ("計算檔案雜湊失敗 " ++ filePath ++ ": " ++ message error);;
      mret None
  end.

(** [!currentHash], for a digest or [null]. *)
Definition no_hash (currentHash : option string) : bool :=
  match currentHash with
  | None => true
  | Some h => negb (truthy (VStr h))
  end.

(** [hasFileChanged(filePath, hashCache)]. *)
Definition hasFileChanged (filePath : string) (hashCache : value) : M bool :=
  currentHash ← calculateFileHash filePath;
  if no_hash currentHash then mret true
  else
    cachedHash ← read_property hashCache filePath;
    mret (negb (truthy cachedHash)
          || negb (match currentHash with
                   | Some h => strict_eq_string cachedHash h
                   | None => false
                   end)).

(** The loop of [getChangedFiles]. *)
Fixpoint classify (filePaths : list string) (hashCache : value)
    (changed unchanged : list string) : M (list string * list string) :=
  match filePaths with
  | [] => mret (changed, unchanged)
  | filePath :: rest =>
      hasFileChanged filePath hashCache ≫= fun c : bool =>
      if c then classify rest hashCache (changed ++ [filePath]) unchanged
      else classify rest hashCache changed (unchanged ++ [filePath])
  end.

(** [getChangedFiles(filePaths)]: the pair [(changed, unchanged)]. *)
Definition getChangedFiles (filePaths : list string)
    : M (list string * list string) :=
  caches ← loadCache;
  classify filePaths (fst caches) [] [].

End CacheManager.

(* ===================================================================== *)
(** * Key paths through nested mappings                                   *)
(* ===================================================================== *)

(** The notions the properties of the merged configuration are stated
    with. *)
Module Paths.
Import JS Errors Eff ConfigurationManager.

(** Following a list of keys from a mapping, through nested mappings
    only: the value reached, a key that is missing, or a value on the way
    that is not a nested mapping. *)
Inductive outcome :=
| Found (v : value)
| Missing
| Blocked.

Fixpoint walk (m : obj) (keys : list string) : outcome :=
  match keys with
  | [] => Found (VObj m)
  | key :: rest =>
      match m !! key with
      | None => Missing
      | Some v =>
          match rest with
          | [] => Found v
          | _ :: _ => match v with
                      | VObj m' => walk m' rest
                      | _ => Blocked
                      end
          end
      end
  end.

(** A key path is present in a fragment when following it reaches a
    value. *)
Definition present (fragment : obj) (keys : list string) : option value :=
  match walk fragment keys with Found v => Some v | _ => None end.

(** The precedence rule in the words of the specification: the value of
    the override fragment when the path is present there, otherwise that
    of the project fragment when present there, otherwise that of the
    global fragment. *)
Definition stated_value (g p o : obj) (keys : list string) : option value :=
  match present o keys with
  | Some v => Some v
  | None => match present p keys with
            | Some v => Some v
            | None => present g keys
            end
  end.

(** The path is present in more than one of the three fragments. *)
Definition in_several (g p o : obj) (keys : list string) : bool :=
  let count (f : obj) :=
    match present f keys with Some _ => 1%nat | None => 0%nat end in
  (2 <=? count g + count p + count o)%nat.

(** The precedence rule the merge implements for values that are not
    nested mappings: a layer decides when the path reaches such a value in
    it, and hands over to the layer below only when the path runs into a
    missing key in it. The global layer, the lowest, decides with any
    value. *)
Definition layered_value (g p o : obj) (keys : list string) : option value :=
  match walk o keys with
  | Found v => if _isObject v then None else Some v
  | Blocked => None
  | Missing =>
      match walk p keys with
      | Found v => if _isObject v then None else Some v
      | Blocked => None
      | Missing =>
          match walk g keys with
          | Found v => Some v
          | _ => None
          end
      end
  end.


(** The fragment a [config.json] yields when it is loaded: its content,
    or the empty mapping when there is no file, when it cannot be read or
    parsed, or when its content is falsy. *)
Definition fragment_of (f : json_file) : value :=
  match f with
  | Holds config => if truthy config then config else VObj ∅
  | Absent | Unreadable _ => VObj ∅
  end.

(** The console after [_loadGlobalConfig] and [_loadProjectConfig]: one
    more line for each file that could not be read. *)
Definition warning_of (scope : string) (f : json_file) : list string :=
  match f with
  | Unreadable error =>
      ["Warning: Could not load " ++ scope ++ " config: " ++ message error]
  | Absent | Holds _ => []
  end.

(** The project and the global fragment [setUtilityConfig] works with: the
    fields of a loaded manager, and what the first load reads otherwise. *)
Definition project_in_effect (st : state) : value :=
  match _mergedConfig (this st) with
  | Some _ => _projectConfig (this st)
  | None => fragment_of (project_config_json (env st))
  end.

Definition global_in_effect (st : state) : value :=
  match _mergedConfig (this st) with
  | Some _ => _globalConfig (this st)
  | None => fragment_of (global_config_json (env st))
  end.

(** A world with the two configuration files as given, in which writes
    succeed and nothing has been printed. *)
Definition world_holding (global project : json_file) : world :=
  {| global_config_json := global; project_config_json := project;
     global_config_path := "/home/user/.rex/config.json";
     project_config_path := "/project/.rex/config.json";
     write_fault := None; console_warn := [] |}.

(** A manager that has just been constructed. *)
Definition fresh (w : world) : state := {| this := constructor; env := w |}.

(** The outcome of [get(path, defaultValue)] asked right after a first
    method call. *)
Definition then_get {A} (first : result (A * state)) (path : string)
    (defaultValue : value) : result value :=
  match first with
  | Return (_, st) =>
      match get path defaultValue st with
      | Return (v, _) => Return v
      | Throw e => Throw e
      end
  | Throw e => Throw e
  end.

(** [get(path)] after a first load in a world whose files hold the global
    and the project fragment, with the override fragment as argument. *)
Definition get_after_load (g p o : obj) (path : string) : result value :=
  then_get (loadConfiguration own_merge_method (VObj o)
              (fresh (world_holding (Holds (VObj g)) (Holds (VObj p)))))
           path VUndefined.

End Paths.

(* ===================================================================== *)
(** * Fingerprints and verdicts                                           *)
(* ===================================================================== *)

(** The notions the properties of the cache are stated with, read off the
    methods. *)
Module Verdicts.
Import JS Errors Eff CacheManager.

(** The fingerprint [calculateFileHash] computes for a path, [None] for
    the "no fingerprint" sentinel. *)
Definition digest_of (d : disk) (filePath : string) : option string :=
  match calculateFileHash filePath d with
  | Return (h, _) => h
  | Throw _ => None
  end.

(** The fingerprint mapping [loadCache] returns. *)
Definition loaded_mapping (d : disk) : value :=
  match loadCache d with
  | Return (caches, _) => fst caches
  | Throw _ => VObj ∅
  end.

(** The answer of [hasFileChanged] for a path against a mapping. *)
Definition verdict (d : disk) (hashCache : value) (filePath : string) : bool :=
  match hasFileChanged filePath hashCache d with
  | Return (changed, _) => changed
  | Throw _ => true
  end.

(** [null] and [undefined], the values no property can be read of. *)
Definition nullish (v : value) : bool :=
  match v with VNull | VUndefined => true | _ => false end.

(** A lower-case hexadecimal digit. *)
Definition is_hex (c : ascii) : bool :=
  existsb (Ascii.eqb c) (list_ascii_of_string "0123456789abcdef").

(** A disk with one readable file and an empty cache directory. *)
Definition disk_with_file (filePath : string) (bytes : list Byte.byte) : disk :=
  {| hashes_json := Resolves VNull;
     detection_json := Resolves VNull;
     read_file := fun p => if String.eqb p filePath then Content bytes
                           else ReadFails (Error "ENOENT: no such file or directory");
     console_warn := [] |}.

End Verdicts.

(* ===================================================================== *)
(** * The fixtures of the test-suite                                      *)
(* ===================================================================== *)

Module Fixtures.
Import JS Errors Eff ConfigurationManager Paths.

Definition mockGlobalConfig : obj :=
  {[ "option1" := VStr "global-value1"; "option3" := VStr "global-value3" ]}.
Definition mockProjectConfig : obj :=
  {[ "option2" := VStr "project-value2"; "option4" := VStr "project-value4" ]}.
Definition mockCliOptions : obj :=
  {[ "option1" := VStr "cli-value1"; "option2" := VStr "cli-value2" ]}.

Definition makeConfigManager : result (obj * state) :=
  loadConfiguration own_merge_method (VObj mockCliOptions)
    (fresh (world_holding (Holds (VObj mockGlobalConfig))
                          (Holds (VObj mockProjectConfig)))).

End Fixtures.

(* ===================================================================== *)
(** * ConfigurationManager.js: deleting a key path                        *)
(* ===================================================================== *)

Module ConfigurationEdits.
Import JS Errors Eff ConfigurationManager.

(** The navigation loop that [_deleteNestedKey] and [_cleanupEmptyObjects]
    share: from [current] along [pathKeys], through plain objects that have
    the key. [None] is the early [return] of the loop. The value the loop
    ends on is not tested. *)
Fixpoint navigate (current : value) (pathKeys : list string) : option value :=
  match pathKeys with
  | [] => Some current
  | key :: rest =>
      if negb (truthy current) || negb (_isObject current)
         || negb (has_in key current)
      then None
      else navigate (get_prop current key) rest
  end.

(** [delete current[key]], where [current] is the object [pathKeys] lead to
    from [root]: the in-place deletion, returned as the updated [root].
    Deleting an element of an array leaves a hole, which [value] does not
    have; a container that is not a plain object is left as it is.
    [_deleteNestedKey] deletes from plain objects only, in itself and in
    the clean-up it calls. *)
Fixpoint delete_at (root : value) (pathKeys : list string) (key : string)
    : value :=
  match pathKeys with
  | [] => match root with
          | VObj m => VObj (delete key m)
          | _ => root
          end
  | step :: rest =>
      match root with
      | VObj m =>
          match m !! step with
          | Some child => VObj (<[step := delete_at child rest key]> m)
          | None => root
          end
      | _ => root
      end
  end.

(** [current[childKey]], which throws when [current] is [null] or
    [undefined]. *)
Definition read_member (current : value) (childKey : string) : result value :=
  match current with
  | VNull =>
      Throw {| name := "TypeError";
               message := "Cannot read properties of null (reading '"
                          ++ childKey ++ "')" |}
  | VUndefined =>
      Throw {| name := "TypeError";
               message := "Cannot read properties of undefined (reading '"
                          ++ childKey ++ "')" |}
  | _ => Return (get_prop current childKey)
  end.

(** [Object.keys(v).length === 0]. *)
Definition has_no_keys (v : value) : bool :=
  (length (object_keys (own_enumerable v)) =? 0)%nat.

(** The loop of [_cleanupEmptyObjects], from [i] down to 1. *)
Fixpoint cleanup_loop (i : nat) (keys : list string) (obj : value)
    : result value :=
  match i with
  | O => Return obj
  | S i' =>
      let parentPath := join "." (take i keys) in
      let childKey := property_name (keys !! i') in
      let pathKeys :=
        if truthy (VStr parentPath) then split_dot parentPath else [] in
      match navigate obj pathKeys with
      | None => Return obj
      | Some current =>
          match read_member current childKey with
          | Throw e => Throw e
          | Return childObj =>
              if _isObject childObj && has_no_keys childObj
              then cleanup_loop i' keys (delete_at obj pathKeys childKey)
              else Return obj
          end
      end
  end.

(** [_cleanupEmptyObjects(obj, keyPath)]; the object after the call, for
    an [obj] whose containers along [keyPath] are plain objects. *)
Definition _cleanupEmptyObjects (obj : value) (keyPath : string)
    : result value :=
  let keys := split_dot keyPath in
  cleanup_loop (length keys - 1) keys obj.

(** [_deleteNestedKey(obj, keyPath)]; the object after the call. *)
Definition _deleteNestedKey (obj : value) (keyPath : string) : result value :=
  let '(keys, lastKey) := pop (split_dot keyPath) in
  let lastKey := property_name lastKey in
  match navigate obj keys with
  | None => Return obj
  | Some current =>
      if truthy current && _isObject current && has_in lastKey current
      then _cleanupEmptyObjects (delete_at obj keys lastKey) keyPath
      else Return obj
  end.

End ConfigurationEdits.

(* ===================================================================== *)
(** * Shapes of keys and values the properties speak about                *)
(* ===================================================================== *)

Module Shapes.
Import JS.

(** A key that [split('.')] leaves in one piece. *)
Fixpoint dot_free (s : string) : bool :=
  match s with
  | EmptyString => true
  | String c rest => negb (Ascii.eqb c ".") && dot_free rest
  end.

(** A value [JSON.stringify] and [JSON.parse] give back as it is: a
    string, a boolean, [null], or an integer that a JavaScript number
    holds exactly (at most 2^53 - 1 in absolute value). [NaN] and the
    infinities, which JSON writes as [null], are no values of the
    embedding. *)
Definition json_scalar (v : value) : bool :=
  match v with
  | VNull | VBool _ | VStr _ => true
  | VNum n => (Z.abs n <=? 9007199254740991)%Z
  | _ => false
  end.

(** The names of the members of [Object.prototype]. For a plain object
    that has no own property of such a name, the source still gets [true]
    from [key in object] and the inherited member from [object[key]]; an
    assignment to [__proto__] goes to the inherited setter and stores
    nothing; and [source.hasOwnProperty(key)] calls the own property
    [hasOwnProperty] of the data when there is one, which throws. The
    embedding knows own properties only: it agrees with the source where
    the keys of the data and the segments of the paths that are looked up
    and found missing are outside this list, and the properties that
    depend on it say so. *)
Definition Object_prototype_names : list string :=
  ["__defineGetter__"; "__defineSetter__"; "__lookupGetter__";
   "__lookupSetter__"; "__proto__"; "constructor"; "hasOwnProperty";
   "isPrototypeOf"; "propertyIsEnumerable"; "toLocaleString"; "toString";
   "valueOf"].

(** A key that is not the name of a member of [Object.prototype]. *)
Definition ordinary_key (key : string) : bool :=
  negb (existsb (String.eqb key) Object_prototype_names).

(** A path all of whose segments are ordinary keys. *)
Definition ordinary_path (keys : list string) : bool :=
  forallb ordinary_key keys.

(** A value in which every key of every mapping, at any depth, is an
    ordinary key. On such values [for (key in source)] with
    [source.hasOwnProperty(key)] visits the own properties and
    [result[key] = ...] stores one. *)
Fixpoint ordinary (v : value) : bool :=
  match v with
  | VObj m =>
      map_fold (fun key x rest => ordinary_key key && ordinary x && rest) true m
  | VArr l => forallb ordinary l
  | _ => true
  end.


(** Reading the path from [current], as [_getNestedValue] does, meets no
    inherited member: each segment is an own property of the value it is
    read from, or it is missing from a plain object and is an ordinary key,
    or the value it would be read from is not of type object (the read
    stops there). A segment that is missing from an array is not accepted:
    the members of [Array.prototype] are not listed here. *)
Fixpoint own_reads (current : value) (keys : list string) : bool :=
  match keys with
  | [] => true
  | key :: rest =>
      match current with
      | VObj m =>
          match m !! key with
          | Some x => own_reads x rest
          | None => ordinary_key key
          end
      | VArr _ =>
          match own_property current key with
          | Some x => own_reads x rest
          | None => false
          end
      | _ => true
      end
  end.

End Shapes.

(* ===================================================================== *)
(** * CacheManager.js: the methods that write                             *)
(* ===================================================================== *)

Module CacheUpdates.
Import JS Errors Eff CacheManager.

(** The cache directory and the rest of the console, beside the files of
    [CacheManager.disk]. *)
Record store := MkStore {
  files : disk;
  cacheDir : string;                     (* this.cacheDir *)
  cache_dir_exists : bool;               (* fs.pathExists(this.cacheDir) *)
  ensure_dir_fault : option error;       (* fs.ensureDir rejects with it *)
  write_hashes_fault : option error;     (* fs.writeJson(hashCachePath) *)
  write_detection_fault : option error;  (* fs.writeJson(detectionCachePath) *)
  remove_fault : option error;           (* fs.remove rejects with it *)
  console_log : list string;             (* lines of console.log *)
  console_error : list string            (* lines of console.error *)
}.

Definition read_store : Eff.M store store := fun s => Return (s, s).

Definition with_files (d : disk) (s : store) : store :=
  {| files := d; cacheDir := cacheDir s;
     cache_dir_exists := cache_dir_exists s;
     ensure_dir_fault := ensure_dir_fault s;
     write_hashes_fault := write_hashes_fault s;
     write_detection_fault := write_detection_fault s;
     remove_fault := remove_fault s;
     console_log := console_log s; console_error := console_error s |}.

Definition with_cache_dir_exists (b : bool) (s : store) : store :=
  {| files := files s; cacheDir := cacheDir s;
     cache_dir_exists := b;
     ensure_dir_fault := ensure_dir_fault s;
     write_hashes_fault := write_hashes_fault s;
     write_detection_fault := write_detection_fault s;
     remove_fault := remove_fault s;
     console_log := console_log s; console_error := console_error s |}.

Definition with_hashes_json (r : json_read) (d : disk) : disk :=
  {| hashes_json := r; detection_json := detection_json d;
     read_file := read_file d; console_warn := console_warn d |}.

Definition with_detection_json (r : json_read) (d : disk) : disk :=
  {| hashes_json := hashes_json d; detection_json := r;
     read_file := read_file d; console_warn := console_warn d |}.

(** [console.log(line)]. *)
Definition console_log_line (line : string) : Eff.M store unit :=
  fun s =>
    Return (tt, {| files := files s; cacheDir := cacheDir s;
                   cache_dir_exists := cache_dir_exists s;
                   ensure_dir_fault := ensure_dir_fault s;
                   write_hashes_fault := write_hashes_fault s;
                   write_detection_fault := write_detection_fault s;
                   remove_fault := remove_fault s;
                   console_log := console_log s ++ [line];
                   console_error := console_error s |}).

(** [console.error(line)]. *)
Definition console_error_line (line : string) : Eff.M store unit :=
  fun s =>
    Return (tt, {| files := files s; cacheDir := cacheDir s;
                   cache_dir_exists := cache_dir_exists s;
                   ensure_dir_fault := ensure_dir_fault s;
                   write_hashes_fault := write_hashes_fault s;
                   write_detection_fault := write_detection_fault s;
                   remove_fault := remove_fault s;
                   console_log := console_log s;
                   console_error := console_error s ++ [line] |}).

(** A method of [CacheManager] that only reads, run on the files of the
    store. *)
Definition on_files {A} (method : Eff.M disk A) : Eff.M store A :=
  fun s =>
    match method (files s) with
    | Return (a, d) => Return (a, with_files d s)
    | Throw e => Throw e
    end.

(** [this.hashCachePath] and [this.detectionCachePath], with the separator
    of POSIX paths. *)
Definition hashCachePath (s : store) : string := cacheDir s ++ "/hashes.json".
Definition detectionCachePath (s : store) : string :=
  cacheDir s ++ "/detection.json".

(** [updateFileHash(filePath, hashCache)], for a [hashCache] that is a
    plain object: the object after the call. *)
Definition updateFileHash (filePath : string) (hashCache : obj)
    : Eff.M disk obj :=
  hash ← calculateFileHash filePath;
  mret (match hash with
        | Some h => if truthy (VStr h) then <[filePath := VStr h]> hashCache
                    else hashCache
        | None => hashCache
        end).

(** What stops [fs.writeJson(path, data)]: there is no JSON text for
    [undefined], which [jsonfile] rejects with a [TypeError] before it
    writes; otherwise the fault of the file system, if any. The message is
    that of [jsonfile] 6.2 (earlier versions fail on [str.replace] with the
    message of the engine); nothing below depends on its text. *)
Definition write_json_fault (data : value) (fault : option error)
    : option error :=
  if is_undefined data
  then Some (TypeError "Converting undefined value to JSON is not supported")
  else fault.

(** [saveCache(hashCache, detectionCache)]: the three steps are inside one
    [try], and the handler prints the failure. A file that was written
    before the failure stays written. *)
Definition saveCache (hashCache detectionCache : value) : Eff.M store unit :=
  let failed (error : error) : Eff.M store unit :=
    console_error_line ("儲存快取失敗: " ++ message error) in
  s ← read_store;
  match ensure_dir_fault s with
  | Some error => failed error
  | None =>
      (fun s => Return (tt, with_cache_dir_exists true s));;
      match write_json_fault hashCache (write_hashes_fault s) with
      | Some error => failed error
      | None =>
          (fun s => Return (tt, with_files
                                  (with_hashes_json
                                     (Resolves (json_image hashCache)) (files s))
                                  s));;
          match write_json_fault detectionCache (write_detection_fault s) with
          | Some error => failed error
          | None =>
              (fun s => Return (tt, with_files
                                      (with_detection_json
                                         (Resolves (json_image detectionCache))
                                         (files s))
                                      s));;
              console_log_line "✅ 快取儲存成功"
          end
      end
  end.

(** What reading a file gives once its directory is gone. *)
Definition ENOENT (path : string) : error :=
  Error ("ENOENT: no such file or directory, open '" ++ path ++ "'").

(** [clearCache()]. *)
Definition clearCache : Eff.M store unit :=
  s ← read_store;
  if cache_dir_exists s then
    match remove_fault s with
    | Some error => console_error_line ("清除快取失敗: " ++ message error)
    | None =>
        (fun s =>
           Return (tt, with_cache_dir_exists false
                         (with_files
                            (with_detection_json
                               (Rejects (ENOENT (detectionCachePath s)))
                               (with_hashes_json
                                  (Rejects (ENOENT (hashCachePath s)))
                                  (files s)))
                            s)));;
        console_log_line "✅ 快取已清除"
    end
  else mret tt.

(** The object [getCacheStats] returns; [error] is present in the object
    of the handler only. *)
Record stats := MkStats {
  hashCacheSize : nat;
  detectionCacheSize : nat;
  stats_cacheDir : string;
  stats_exists : bool;
  stats_error : option string
}.

(** [getCacheStats()]. *)
Definition getCacheStats : Eff.M store stats :=
  fun s =>
    let body : Eff.M store stats :=
      caches ← on_files loadCache;
      s' ← read_store;
      mret {| hashCacheSize :=
                length (object_keys (own_enumerable (fst caches)));
              detectionCacheSize :=
                length (object_keys (own_enumerable (snd caches)));
              stats_cacheDir := cacheDir s';
              stats_exists := cache_dir_exists s';
              stats_error := None |} in
    match body s with
    | Return r => Return r
    | Throw error =>
        Return ({| hashCacheSize := 0; detectionCacheSize := 0;
                   stats_cacheDir := cacheDir s; stats_exists := false;
                   stats_error := Some (message error) |}, s)
    end.

End CacheUpdates.

(* ===================================================================== *)
(** * CompilationManager.js: the incremental compilation and the cache    *)
(* ===================================================================== *)

Module CompilationManager.
Import JS Errors Eff CacheManager CacheUpdates.

(** What [utility.execute] resolves to. *)
Record execution := MkExecution { success : value; outputPath : value }.

(** An element of the [results] of [compileWithUtility]. *)
Inductive compiled :=
| Processed (prompt : string) (success outputPath : value)
| Errored (prompt : string) (error : string).

Section Prompts.

(** A prompt as [PromptManager.listPrompts] gives it, with its [name]. *)
Variable prompt : Type.
Variable prompt_name : prompt -> string.

(** [path.join(FileSystemManager.getGlobalRexDir(), 'prompts', name)]. *)
Variable prompt_path : string -> string.

(** [this.utilityRunner.utilities[utilityName]]: the [execute] of the
    utility, from the file name and the content of a prompt. *)
Variable utilities : string -> option (string -> list Z -> result execution).

(** [paths.includes(p)]. *)
Definition includes (paths : list string) (p : string) : bool :=
  existsb (String.eqb p) paths.

(** [getPromptsThatNeedCompilation(prompts)]: the pair
    [(changed, unchanged)]. *)
Definition getPromptsThatNeedCompilation (prompts : list prompt)
    : Eff.M disk (list prompt * list prompt) :=
  let promptPaths := List.map (fun p => prompt_path (prompt_name p)) prompts in
  paths ← getChangedFiles promptPaths;
  mret (List.filter
          (fun p => includes (fst paths) (prompt_path (prompt_name p))) prompts,
        List.filter
          (fun p => includes (snd paths) (prompt_path (prompt_name p))) prompts).

(** The loop of [compileWithUtility]. The body is inside [try]: a prompt
    that cannot be read, or on which the utility throws, is recorded as
    failed. [hashCache] is updated in place by [updateFileHash]. *)
Fixpoint compile_loop (execute : string -> list Z -> result execution)
    (incremental : bool) (prompts : list prompt) (hashCache : obj)
    (results : list compiled) : Eff.M store (obj * list compiled) :=
  match prompts with
  | [] => mret (hashCache, results)
  | p :: rest =>
      let promptPath := prompt_path (prompt_name p) in
      let failed (error : error) :=
        console_log_line ("  ✗ " ++ prompt_name p ++ ": " ++ message error);;
        compile_loop execute incremental rest hashCache
          (results ++ [Errored (prompt_name p) (message error)]) in
      s ← read_store;
      match read_file (files s) promptPath with
      | ReadFails error => failed error
      | Content bytes =>
          match execute (prompt_name p) (Utf8.decode bytes) with
          | Throw error => failed error
          | Return r =>
              hashCache' ← (if truthy (success r) && incremental
                            then on_files (updateFileHash promptPath hashCache)
                            else mret hashCache);
              console_log_line ("  ✓ " ++ prompt_name p);;
              compile_loop execute incremental rest hashCache'
                (results ++ [Processed (prompt_name p) (success r)
                                       (outputPath r)])
          end
      end
  end.

(** [compileWithUtility(utilityName, prompts, incremental)]. [None] when
    the hash cache that was loaded is not a plain object: property writes
    on arrays and primitives are outside the embedding. *)
Definition compileWithUtility (utilityName : string) (prompts : list prompt)
    (incremental : bool) : store -> option (result (list compiled * store)) :=
  fun s =>
    match utilities utilityName with
    | None => Some (Throw (Error ("工具不存在: " ++ utilityName)))
    | Some execute =>
        let loaded : Eff.M store (value * value) :=
          if incremental then on_files loadCache else mret (VObj ∅, VObj ∅) in
        match loaded s with
        | Throw e => Some (Throw e)
        | Return (caches, s1) =>
            match fst caches with
            | VObj hashCache =>
                Some ((r ← compile_loop execute incremental prompts hashCache [];
                       (if incremental then
                          caches' ← on_files loadCache;
                          saveCache (VObj (fst r)) (snd caches')
                        else mret tt);;
                       mret (snd r)) s1)
            | _ => None
            end
        end
    end.

End Prompts.

End CompilationManager.

(* ===================================================================== *)
(** * DeploymentManager.js: the options of a deployment                   *)
(* ===================================================================== *)

Module DeploymentManager.
Import JS Errors Eff ConfigurationManager ConfigurationEdits Paths.

(** The object [_resolveDeploymentOptions] returns. *)
Record options := MkOptions {
  promptNames : value;
  utility : value;
  output : value;
  tags : value;
  category : value;
  excludeTags : value;
  dryRun : value;
  force : value
}.

(** [cliOptions.key || configManager.get(path, defaultValue)]. *)
Definition cli_or_config (cliOptions : value) (key path : string)
    (defaultValue : value) : M value :=
  v ← lift (read_member cliOptions key);
  if truthy v then mret v else get path defaultValue.

(** [_resolveDeploymentOptions(configManager, cliOptions)], on the state
    of [configManager]. [None] when no utility is resolved: the smart
    detection that follows is outside the embedding. *)
Definition _resolveDeploymentOptions (cliOptions : value)
    : state -> option (result (options * state)) :=
  fun st =>
    let first : M (value * value * value * value) :=
      resolvedUtility ←
        cli_or_config cliOptions "utility" "deploy.defaultUtility" VUndefined;
      resolvedTags ←
        cli_or_config cliOptions "tags" "deploy.defaultTags" (VArr []);
      resolvedCategory ←
        cli_or_config cliOptions "category" "deploy.defaultCategory" VUndefined;
      resolvedExcludeTags ←
        cli_or_config cliOptions "excludeTags" "deploy.defaultExcludeTags"
          (VArr []);
      mret (resolvedUtility, resolvedTags, resolvedCategory,
            resolvedExcludeTags) in
    match first st with
    | Throw e => Some (Throw e)
    | Return ((resolvedUtility, resolvedTags, resolvedCategory,
               resolvedExcludeTags), st1) =>
        if negb (truthy resolvedUtility) then None
        else
          Some ((promptNames ←
                   cli_or_config cliOptions "promptNames" "deploy.prompts"
                     (VArr []);
                 output ←
                   cli_or_config cliOptions "output" "deploy.defaultOutput"
                     VUndefined;
                 dryRun ←
                   cli_or_config cliOptions "dryRun" "deploy.dryRun"
                     (VBool false);
                 force ←
                   cli_or_config cliOptions "force" "deploy.force" (VBool false);
                 mret {| promptNames := promptNames;
                         utility := resolvedUtility;
                         output := output;
                         tags := resolvedTags;
                         category := resolvedCategory;
                         excludeTags := resolvedExcludeTags;
                         dryRun := dryRun;
                         force := force |}) st1)
    end.

Section Deploy.

(** [this.deploy(resolvedOptions)], in the world the load has left. *)
Variable R : Type.
Variable deploy : options -> world -> result R.

(** [deployWithConfig(cliOptions = {})], with a manager that has just
    been constructed. *)
Definition deployWithConfig (cliOptions : value) (w : world)
    : option (result R) :=
  let cliOptions := if is_undefined cliOptions then VObj ∅ else cliOptions in
  match loadConfiguration own_merge_method cliOptions
          {| this := constructor; env := w |} with
  | Throw e => Some (Throw e)
  | Return (_, st) =>
      match _resolveDeploymentOptions cliOptions st with
      | None => None
      | Some (Throw e) => Some (Throw e)
      | Some (Return (resolvedOptions, st')) =>
          Some (deploy resolvedOptions (env st'))
      end
  end.

End Deploy.

(** The value of one option as the hierarchy has it: the command-line
    value when it is truthy, otherwise what [config] holds at [path],
    otherwise the default value. *)
Definition option_value (cliOptions : obj) (config : obj) (key path : string)
    (defaultValue : value) : value :=
  if truthy (get_prop (VObj cliOptions) key) then get_prop (VObj cliOptions) key
  else _getNestedValue (VObj config) path defaultValue.

End DeploymentManager.

(* ===================================================================== *)
(** * What the results of a compilation say                               *)
(* ===================================================================== *)

Module Reports.
Import JS Errors Eff CacheManager CompilationManager.

(** The [prompt] field of an element of [results]. *)
Definition reported_prompt (entry : compiled) : string :=
  match entry with
  | Processed prompt _ _ => prompt
  | Errored prompt _ => prompt
  end.

(** The element has an [error] field: the body of the loop threw. *)
Definition reported_error (entry : compiled) : bool :=
  match entry with
  | Processed _ _ _ => false
  | Errored _ _ => true
  end.

(** The body of the loop of [compileWithUtility] throws on a prompt: its
    file cannot be read, or the utility throws on it. *)
Definition throws_on (execute : string -> list Z -> result execution)
    (read : string -> file_read) (name path : string) : bool :=
  match read path with
  | ReadFails _ => true
  | Content bytes =>
      match execute name (Utf8.decode bytes) with
      | Throw _ => true
      | Return _ => false
      end
  end.

End Reports.

(* ===================================================================== *)
(** * Properties                                                          *)
(* ===================================================================== *)

(** ** Strings, key lists and objects *)

Module JSFacts.
Import JS.

Lemma split_dot_nonempty (s : string) : split_dot s ≠ [].
Proof.
  destruct s as [|c rest]; simpl; [done|].
  destruct (Ascii.eqb c "."); [done|].
  by destruct (split_dot rest).
Qed.

Lemma pop_snoc (init : list string) (lastKey : string) :
  pop (init ++ [lastKey])%list = (init, Some lastKey).
Proof.
  unfold pop. by rewrite removelast_last, last_snoc.
Qed.

Lemma split_dot_snoc (s : string) :
  ∃ (init : list string) (lastKey : string), split_dot s = (init ++ [lastKey])%list.
Proof.
  destruct (split_dot s) as [|k ks _] eqn:E using rev_ind.
  - by destruct (split_dot_nonempty s).
  - eauto.
Qed.

Lemma object_keys_empty (m : obj) :
  (length (object_keys m) =? 0)%nat = true ↔ m = ∅.
Proof.
  unfold object_keys. rewrite Nat.eqb_eq, length_fmap.
  rewrite <- map_to_list_empty_iff. by destruct (map_to_list m).
Qed.

Lemma append_assoc (a b c : string) : (a ++ b) ++ c = a ++ (b ++ c).
Proof.
  induction a as [|x a IH]; [done|].
  change (String x ((a ++ b) ++ c) = String x (a ++ b ++ c)). by rewrite IH.
Qed.

Lemma append_nil_r (a : string) : a ++ "" = a.
Proof.
  induction a as [|x a IH]; [done|].
  change (String x (a ++ "") = String x a). by rewrite IH.
Qed.

Lemma join_occurs (sep key : string) (keys : list string) :
  key ∈ keys → ∃ before after, join sep keys = before ++ key ++ after.
Proof.
  induction keys as [|k ks IH]; intros Hin; [by apply elem_of_nil in Hin|].
  apply elem_of_cons in Hin as [->|Hin].
  - destruct ks as [|k' ks'].
    + exists "", "". simpl. by rewrite append_nil_r.
    + exists "". eexists. simpl. reflexivity.
  - destruct (IH Hin) as (before & after & Heq).
    destruct ks as [|k' ks']; [by apply elem_of_nil in Hin|].
    exists (k ++ sep ++ before), after.
    change (join sep (k :: k' :: ks')) with (k ++ sep ++ join sep (k' :: ks')).
    rewrite Heq. by rewrite !append_assoc.
Qed.
End JSFacts.

(** ** The configuration manager *)

Module ConfigurationFacts.
Import JS Errors Eff ConfigurationManager Paths Shapes JSFacts.

(** The loop body of [_deepMerge], as the source writes it. *)
Lemma merge_property_eq (a b : value) :
  merge_property a b =
  if _isObject b && _isObject a then VObj (_deepMerge a b) else b.
Proof. destruct b, a; reflexivity. Qed.

(** What [_deepMerge] holds at a key: the keys of [source] are overwritten,
    the others are those of the copy of [target]. *)
Lemma deepMerge_lookup (target source : value) (key : string) :
  let target' := if negb (truthy target) then VObj ∅ else target in
  let source' := if negb (truthy source) then VObj ∅ else source in
  _deepMerge target source !! key =
  match own_enumerable source' !! key with
  | Some sv => Some (merge_property (get_prop target' key) sv)
  | None => own_enumerable target' !! key
  end.
Proof.
  intros target' source'. unfold _deepMerge. fold target' source'.
  generalize (own_enumerable source'). intros src.
  apply (map_fold_weak_ind
    (fun r m => r !! key = match m !! key with
                           | Some sv => Some (merge_property (get_prop target' key) sv)
                           | None => own_enumerable target' !! key
                           end)).
  - by rewrite lookup_empty.
  - intros i x m r Hi IH.
    destruct (decide (i = key)) as [->|Hne].
    + by rewrite !lookup_insert_eq.
    + by rewrite !lookup_insert_ne.
Qed.

(** [_sanitizeCliOptions] keeps the own properties that are not
    [undefined]. *)
Lemma sanitize_lookup (cliOptions : value) (key : string) :
  _sanitizeCliOptions cliOptions !! key =
  match own_enumerable cliOptions !! key with
  | Some v => if is_undefined v then None else Some v
  | None => None
  end.
Proof.
  unfold _sanitizeCliOptions. generalize (own_enumerable cliOptions). intros c.
  apply (map_fold_weak_ind
    (fun r m => r !! key = match m !! key with
                           | Some v => if is_undefined v then None else Some v
                           | None => None
                           end)).
  - by rewrite !lookup_empty.
  - intros i x m r Hi IH.
    destruct (decide (i = key)) as [->|Hne].
    + rewrite lookup_insert_eq. rewrite Hi in IH.
      destruct (is_undefined x); simpl; [done|]. by rewrite lookup_insert_eq.
    + rewrite (lookup_insert_ne m) by done.
      destruct (is_undefined x); simpl; [done|]. by rewrite lookup_insert_ne.
Qed.

Lemma deepMerge_objects_lookup (A B : obj) (key : string) :
  _deepMerge (VObj A) (VObj B) !! key =
  match B !! key with
  | Some b => Some (merge_property (get_prop (VObj A) key) b)
  | None => A !! key
  end.
Proof. by rewrite deepMerge_lookup. Qed.



(** A value that a path reaches through nested mappings is the value
    [_getNestedValue] returns. *)
Lemma get_keys_walk (m : obj) (keys : list string) (v d : value) :
  walk m keys = Found v → get_keys (VObj m) keys d = v.
Proof.
  revert m. induction keys as [|key rest IH]; intros m Hw; simpl in *.
  - by injection Hw.
  - unfold has_in, get_prop. simpl.
    destruct (m !! key) as [x|]; [|done].
    destruct rest as [|k2 r]; [by injection Hw|].
    destruct x; try done. by apply IH.
Qed.

Lemma walk_cons (m : obj) (key : string) (rest : list string) :
  walk m (key :: rest) =
  match m !! key with
  | None => Missing
  | Some v => match rest with
              | [] => Found v
              | _ :: _ => match v with VObj m' => walk m' rest | _ => Blocked end
              end
  end.
Proof. reflexivity. Qed.

(** A value other than a mapping that the higher layer holds at a path
    is at that path in the merge. *)
Lemma walk_merge_found (A B : obj) (keys : list string) (v : value) :
  walk B keys = Found v → _isObject v = false →
  walk (_deepMerge (VObj A) (VObj B)) keys = Found v.
Proof.
  revert A B. induction keys as [|key rest IH]; intros A B Hw Hv.
  - simpl in Hw. injection Hw as <-. done.
  - rewrite walk_cons in *. rewrite deepMerge_objects_lookup.
    destruct (B !! key) as [b|]; [|done].
    rewrite merge_property_eq.
    destruct rest as [|k2 r].
    + injection Hw as ->. by rewrite Hv.
    + destruct b as [| | | | | |bm]; try done. simpl.
      unfold get_prop. simpl.
      destruct (A !! key) as [[| | | | | |am]|]; simpl; try done.
      by apply IH.
Qed.

(** Where the higher layer runs into a missing key, the merge holds what
    the lower layer holds. *)
Lemma walk_merge_missing (A B : obj) (keys : list string) (v : value) :
  walk B keys = Missing → walk A keys = Found v →
  walk (_deepMerge (VObj A) (VObj B)) keys = Found v.
Proof.
  revert A B. induction keys as [|key rest IH]; intros A B HB HA.
  - done.
  - rewrite walk_cons in *. rewrite deepMerge_objects_lookup.
    destruct (B !! key) as [b|]; [|done].
    rewrite merge_property_eq.
    destruct rest as [|k2 r]; [done|].
    destruct b as [| | | | | |bm]; try done. simpl.
    unfold get_prop. simpl.
    destruct (A !! key) as [[| | | | | |am]|]; simpl; try done.
    by apply IH.
Qed.

Lemma layered_value_merged (g p o : obj) (keys : list string) (v : value) :
  layered_value g p o keys = Some v →
  walk (_deepMerge (VObj (_deepMerge (VObj g) (VObj p))) (VObj o)) keys = Found v.
Proof.
  unfold layered_value. intros H.
  destruct (walk o keys) as [ov| |] eqn:Ho; [| |done].
  - destruct (_isObject ov) eqn:Hov; [done|]. injection H as ->.
    by apply walk_merge_found.
  - apply walk_merge_missing; [done|].
    destruct (walk p keys) as [pv| |] eqn:Hp; [| |done].
    + destruct (_isObject pv) eqn:Hpv; [done|]. injection H as ->.
      by apply walk_merge_found.
    + destruct (walk g keys) as [gv| |] eqn:Hg; [|done..]. injection H as ->.
      by apply walk_merge_missing.
Qed.

Lemma load_own_method (cliOptions : value) (st : state) :
  let G := fragment_of (global_config_json (env st)) in
  let P := fragment_of (project_config_json (env st)) in
  let c := if is_undefined cliOptions then VObj ∅ else cliOptions in
  ∃ st', loadConfiguration own_merge_method cliOptions st
           = Return (_mergeConfigurations G P c, st')
         ∧ this st' = MkManager G P (Some (_mergeConfigurations G P c)).
Proof.
  intros G P c. destruct st as [m w]. unfold loadConfiguration, rethrow.
  unfold G, P, fragment_of. simpl.
  destruct w as [gj pj gp pp wf cw]. simpl.
  destruct gj, pj; simpl; eexists; split; reflexivity.
Qed.

(** Claim C1, as the code has it. For fragments whose keys are all
    ordinary (none is the name of a member of [Object.prototype]): after a
    load with the global fragment [g], the project fragment [p] and the
    override fragment [o] (its undefined-valued keys stripped), which then
    succeeds, [get] on a dotted path returns the value the path reaches in
    the override fragment when that value is not a nested mapping;
    otherwise, when the path runs into a missing key of the override
    fragment, the value it reaches in the project fragment when that is not
    a nested mapping; otherwise, when it runs into a missing key of both,
    the value it reaches in the global fragment. [layered_value] is that
    case analysis. *)
Theorem merge_precedence (g p o : obj) (st : state) (path : string) (d v : value) :
  global_config_json (env st) = Holds (VObj g) →
  project_config_json (env st) = Holds (VObj p) →
  ordinary (VObj g) = true → ordinary (VObj p) = true →
  ordinary (VObj o) = true →
  layered_value g p (_sanitizeCliOptions (VObj o)) (split_dot path) = Some v →
  ∃ merged st',
    loadConfiguration own_merge_method (VObj o) st = Return (merged, st')
    ∧ get path d st' = Return (v, st').
Proof.
  intros Hg Hp _ _ _ Hv.
  destruct (load_own_method (VObj o) st) as (st' & Hload & Hthis).
  rewrite Hg, Hp in Hload, Hthis. simpl in Hload, Hthis.
  eexists _, st'. split; [exact Hload|].
  unfold get, read_this, mbind, M_bind, mret, M_ret. rewrite Hthis. simpl.
  unfold _getNestedValue, _mergeConfigurations.
  by rewrite (get_keys_walk _ _ v d (layered_value_merged _ _ _ _ _ Hv)).
Qed.

(** Claim C3, as the code has it. On a manager that holds no merged
    configuration, which is the case right after construction and right
    after [reset], each of [get], [getAll] and [validateRequiredConfig]
    throws a [ValidationError] whose message is "Configuration not loaded.
    Call loadConfiguration() first.". The error thrown for missing required
    keys is of that same class; the two differ by their message only. *)
Theorem not_loaded_gate (g p : value) (w : world) (st : state)
    (key : string) (d : value) (requiredKeys missing : list string) :
  let unloaded := MkState (MkManager g p None) w in
  let gate := ValidationError not_loaded_message in
  (get key d unloaded = Throw gate
   ∧ getAll unloaded = Throw gate
   ∧ validateRequiredConfig requiredKeys unloaded = Throw gate)
  ∧ fresh w = MkState (MkManager VNull VNull None) w
  ∧ reset st = Return (tt, MkState (MkManager VNull VNull None) (env st))
  ∧ name gate = "ValidationError"
  ∧ name gate
    = name (ValidationError ("Missing required configuration: "
                             ++ join ", " missing))
  ∧ message gate
    ≠ message (ValidationError ("Missing required configuration: "
                                ++ join ", " missing)).
Proof.
  repeat split; try reflexivity.
  simpl. unfold not_loaded_message. discriminate.
Qed.

(** The two reads: the fragment of the file, and one warning when it
    could not be read. *)
Lemma load_fragments (m : manager) (w : world) :
  _loadGlobalConfig (MkState m w)
  = Return (fragment_of (global_config_json w),
            MkState m (MkWorld (global_config_json w) (project_config_json w)
                         (global_config_path w) (project_config_path w)
                         (write_fault w)
                         (console_warn w ++ warning_of "global" (global_config_json w))))
  ∧ _loadProjectConfig (MkState m w)
  = Return (fragment_of (project_config_json w),
            MkState m (MkWorld (global_config_json w) (project_config_json w)
                         (global_config_path w) (project_config_path w)
                         (write_fault w)
                         (console_warn w ++ warning_of "project" (project_config_json w)))).
Proof.
  destruct w as [gj pj gp pp wf cw]. split.
  - destruct gj; simpl; unfold _loadGlobalConfig; simpl; try reflexivity.
    all: by rewrite app_nil_r.
  - destruct pj; simpl; unfold _loadProjectConfig; simpl; try reflexivity.
    all: by rewrite app_nil_r.
Qed.

(** [loadConfiguration] as a function of what the merge step does. *)
Lemma load_outcome (merge_method : value → value → value → result obj)
    (cliOptions : value) (st : state) :
  let G := fragment_of (global_config_json (env st)) in
  let P := fragment_of (project_config_json (env st)) in
  let c := if is_undefined cliOptions then VObj ∅ else cliOptions in
  match merge_method G P c with
  | Return merged =>
      ∃ st', loadConfiguration merge_method cliOptions st = Return (merged, st')
             ∧ this st' = MkManager G P (Some merged)
  | Throw e0 =>
      loadConfiguration merge_method cliOptions st
      = Throw (FileSystemError
                 (Some ("Failed to load configuration: " ++ message e0))
                 None None)
  end.
Proof.
  intros G P c. destruct st as [m [gj pj gp pp wf cw]].
  subst G P c.
  destruct gj, pj;
    cbv [loadConfiguration rethrow mbind M_bind mret M_ret read_this
         write_this read_env write_env throw lift console_warn_line
         _loadGlobalConfig _loadProjectConfig];
    cbn [env this global_config_json project_config_json fragment_of
         with_global with_project with_merged _globalConfig _projectConfig
         _mergedConfig];
    match goal with |- context [merge_method ?a ?b ?c] =>
      destruct (merge_method a b c) as [merged|e0] end;
    try reflexivity; eexists; split; reflexivity.
Qed.

(** Claim C4. Reading the global and the project fragment never throws: a
    missing file yields the empty fragment without a warning, an unreadable
    or malformed one the empty fragment with one warning. [load] throws
    exactly when the merge step throws, and then the message of the error it
    throws contains the message of the original failure. The merge step
    is the method [this._mergeConfigurations] has at the call. *)
Theorem load_throws_only_from_merge
    (merge_method : value → value → value → result obj)
    (cliOptions : value) (m : manager) (w : world) (cause : error) :
  let st := MkState m w in
  let G := fragment_of (global_config_json w) in
  let P := fragment_of (project_config_json w) in
  let c := if is_undefined cliOptions then VObj ∅ else cliOptions in
  (* reading never throws *)
  (∃ st1 st2, _loadGlobalConfig st = Return (G, st1)
              ∧ _loadProjectConfig st = Return (P, st2)
              ∧ console_warn (env st1)
                = (console_warn w ++ warning_of "global" (global_config_json w))%list
              ∧ console_warn (env st2)
                = (console_warn w ++ warning_of "project" (project_config_json w))%list)
  ∧ fragment_of Absent = VObj ∅
  ∧ fragment_of (Unreadable cause) = VObj ∅
  ∧ warning_of "global" Absent = []
  ∧ (length (warning_of "global" (global_config_json w)) ≤ 1)%nat
  ∧ (length (warning_of "project" (project_config_json w)) ≤ 1)%nat
  (* load throws exactly when the merge step does *)
  ∧ match merge_method G P c with
    | Return merged =>
        ∃ st', loadConfiguration merge_method cliOptions st = Return (merged, st')
    | Throw e0 =>
        ∃ e before after,
          loadConfiguration merge_method cliOptions st = Throw e
          ∧ name e = "FileSystemError"
          ∧ message e = before ++ message e0 ++ after
    end.
Proof.
  intros st G P c. split; [|repeat split; try reflexivity].
  - destruct (load_fragments m w) as [Hg Hp]. eexists _, _.
    split; [exact Hg|]. split; [exact Hp|]. done.
  - by destruct (global_config_json w); simpl; lia.
  - by destruct (project_config_json w); simpl; lia.
  - pose proof (load_outcome merge_method cliOptions st) as H. simpl in H.
    fold G P c in H. destruct (merge_method G P c) as [merged|e0].
    + destruct H as (st' & H & _). eauto.
    + eexists _, "Failed to Failed to load configuration: ",
        " 'undefined': Unknown error".
      split; [exact H|]. split; [reflexivity|].
      simpl. by rewrite !append_assoc.
Qed.

Ltac run_methods :=
  cbv [get set getAll validateRequiredConfig mbind M_bind mret M_ret
       read_this write_this read_env write_env throw lift rethrow];
  cbn [env this _globalConfig _projectConfig _mergedConfig].

(** The loop of [validateRequiredConfig] is a filter. *)
Lemma collect_missing_eq (g p : value) (merged : obj) (w : world)
    (requiredKeys acc : list string) :
  let st := MkState (MkManager g p (Some merged)) w in
  collect_missing requiredKeys acc st
  = Return ((acc ++ List.filter
                      (fun key => is_undefined
                                    (_getNestedValue (VObj merged) key VUndefined))
                      requiredKeys)%list, st).
Proof.
  intros st. subst st. revert acc.
  induction requiredKeys as [|key rest IH]; intros acc; simpl.
  - by rewrite app_nil_r.
  - unfold mbind, M_bind. unfold get at 1. run_methods.
    rewrite IH.
    destruct (is_undefined (_getNestedValue (VObj merged) key VUndefined)).
    + by rewrite <- app_assoc.
    + done.
Qed.

(** Claim C5. On a loaded manager, and for paths whose reading meets no
    inherited member ([own_reads]: a segment that the configuration does
    not hold is not the name of a member of [Object.prototype], and is not
    looked up in an array), [validateRequiredConfig] throws a
    [ValidationError] if and only if at least one of the paths resolves to
    [undefined]; the message of that error lists all those paths, joined by
    ", ", so each of them occurs in it; when none is missing the call
    returns and leaves the manager as it was. *)
Theorem validateRequired_reports_every_missing_key
    (g p : value) (merged : obj) (w : world) (requiredKeys : list string) :
  forallb (fun key => own_reads (VObj merged) (split_dot key)) requiredKeys
  = true →
  let st := MkState (MkManager g p (Some merged)) w in
  let unresolved key :=
    is_undefined (_getNestedValue (VObj merged) key VUndefined) in
  let missing := List.filter unresolved requiredKeys in
  let failure :=
    ValidationError ("Missing required configuration: " ++ join ", " missing) in
  (∀ key, key ∈ requiredKeys →
          get key VUndefined st
          = Return (_getNestedValue (VObj merged) key VUndefined, st))
  ∧ validateRequiredConfig requiredKeys st
    = (if (0 <? length missing)%nat then Throw failure else Return (tt, st))
  ∧ ((0 <? length missing)%nat = true
     ↔ ∃ key, key ∈ requiredKeys ∧ unresolved key = true)
  ∧ ∀ key, key ∈ requiredKeys → unresolved key = true →
      ∃ before after, message failure = before ++ key ++ after.
Proof.
  intros _ st unresolved missing failure. subst st. repeat split.
  - unfold validateRequiredConfig. run_methods. unfold mbind, M_bind.
    rewrite collect_missing_eq. simpl. fold unresolved. fold missing.
    by destruct (0 <? length missing)%nat.
  - intros H. apply Nat.ltb_lt in H.
    destruct missing as [|key ?] eqn:E; [simpl in H; lia|].
    assert (In key missing) as Hin by (rewrite E; by left).
    apply filter_In in Hin as [Hin Hu]. exists key. split; [|done].
    by apply list_elem_of_In.
  - intros (key & Hin & Hu). apply Nat.ltb_lt.
    assert (In key missing) as Hm.
    { apply filter_In. split; [by apply list_elem_of_In|done]. }
    destruct missing; [done|simpl; lia].
  - intros key Hin Hu.
    assert (key ∈ missing) as Hm.
    { apply list_elem_of_In, filter_In. split; [by apply list_elem_of_In|done]. }
    destruct (join_occurs ", " key missing Hm) as (before & after & Heq).
    exists ("Missing required configuration: " ++ before), after.
    simpl. rewrite Heq. by rewrite !append_assoc.
Qed.




Lemma walk_snoc_cons (m : obj) (key k : string) (pre : list string) :
  walk m (key :: pre ++ [k])%list =
  match m !! key with
  | Some (VObj m') => walk m' (pre ++ [k])%list
  | Some _ => Blocked
  | None => Missing
  end.
Proof.
  rewrite walk_cons. destruct (m !! key) as [x|]; [|done].
  destruct (pre ++ [k])%list eqn:E; [by destruct pre|done].
Qed.



(** [setUtilityConfig] around [utility_update], when the write succeeds. *)
Lemma setUtilityConfig_saves (utilityName key : string) (v : value)
    (st : state) (currentConfig : obj) :
  write_fault (env st) = None →
  utility_update (project_in_effect st) utilityName key v = Some currentConfig →
  ∃ st',
    setUtilityConfig own_merge_method utilityName key v st
    = Some (Return (tt, st'))
    ∧ this st' = MkManager (global_in_effect st) (VObj currentConfig)
                   (Some (_mergeConfigurations (global_in_effect st)
                            (VObj currentConfig) (VObj ∅)))
    ∧ project_config_json (env st') = Holds (json_image (VObj currentConfig))
    ∧ global_config_json (env st') = global_config_json (env st).
Proof.
  destruct st as [[g p merged] [gj pj gp pp wf cw]]. simpl.
  intros -> Hupd. unfold setUtilityConfig.
  destruct merged as [merged|].
  - unfold project_in_effect in Hupd. simpl in Hupd.
    cbv [rethrow mbind M_bind mret M_ret read_this]. cbn [this _mergedConfig _projectConfig].
    rewrite Hupd. eexists. split; [reflexivity|]. done.
  - unfold project_in_effect in Hupd. simpl in Hupd.
    destruct gj, pj; simpl in *;
      cbv [rethrow mbind M_bind mret M_ret read_this loadConfiguration
           own_merge_method lift write_this _loadGlobalConfig _loadProjectConfig
           read_env console_warn_line];
      cbn [this env _mergedConfig _projectConfig _globalConfig with_merged
           with_project with_global global_config_json project_config_json
           is_undefined];
      rewrite Hupd; eexists; (split; [reflexivity|done]).
Qed.

Lemma object_keys_nonempty (m : obj) :
  (length (object_keys m) =? 0)%nat = false ↔ m ≠ ∅.
Proof.
  rewrite <- object_keys_empty. by destruct (length (object_keys m) =? 0)%nat.
Qed.

(** The three outcomes of the pruning in [utility_update]. *)
Lemma utility_update_unset (projectConfig : value) (U E : obj)
    (utilityName key : string) :
  let project := own_enumerable projectConfig in
  ensured_object (get_prop (VObj project) "utilities") = Some U →
  ensured_object (get_prop (VObj U) utilityName) = Some E →
  ∃ project',
    utility_update projectConfig utilityName key VUndefined = Some project'
    ∧ (∀ k, k ≠ "utilities" → project' !! k = project !! k)
    ∧ (delete key E ≠ ∅ →
       project' !! "utilities"
       = Some (VObj (<[utilityName := VObj (delete key E)]> U)))
    ∧ (delete key E = ∅ → delete utilityName U ≠ ∅ →
       project' !! "utilities" = Some (VObj (delete utilityName U)))
    ∧ (delete key E = ∅ → delete utilityName U = ∅ →
       project' !! "utilities" = None).
Proof.
  intros project HU HE. unfold utility_update. fold project.
  rewrite HU. simpl. rewrite HE. simpl.
  destruct (length (object_keys (delete key E)) =? 0)%nat eqn:HE'.
  - apply object_keys_empty in HE'.
    destruct (length (object_keys (delete utilityName U)) =? 0)%nat eqn:HU'.
    + apply object_keys_empty in HU'. eexists. split; [reflexivity|].
      split; [|split; [|split]].
      * intros k Hk. by rewrite lookup_delete_ne.
      * done.
      * done.
      * intros _ _. by rewrite lookup_delete_eq.
    + apply object_keys_nonempty in HU'. eexists. split; [reflexivity|].
      split; [|split; [|split]].
      * intros k Hk. by rewrite lookup_insert_ne.
      * done.
      * intros _ _. by rewrite lookup_insert_eq.
      * done.
  - apply object_keys_nonempty in HE'.
    destruct (length (object_keys (<[utilityName:=VObj (delete key E)]> U)) =? 0)%nat
      eqn:HU'.
    { apply object_keys_empty in HU'. by apply insert_non_empty in HU'. }
    eexists. split; [reflexivity|].
    split; [|split; [|split]].
    + intros k Hk. by rewrite lookup_insert_ne.
    + intros _. by rewrite lookup_insert_eq.
    + done.
    + done.
Qed.

(** Claim C6. When the write succeeds, the global and the project
    fragment hold ordinary keys only, the project fragment is a mapping,
    [utilityName] is an ordinary key, and [utilities] and
    [utilities.<utilityName>] are mappings (or absent),
    [setUtilityConfig(utilityName, key, undefined)] leaves a project
    fragment in which [key] is gone from [utilities.<utilityName>], that
    mapping is gone when this emptied it, [utilities] is gone when that
    emptied it, and every other utility and every other top-level key is
    as before; the same fragment is what was written to the file. *)
Theorem unset_utility_prunes (st : state) (U E : obj)
    (utilityName key : string) :
  let project := own_enumerable (project_in_effect st) in
  write_fault (env st) = None →
  _isObject (project_in_effect st) = true →
  ordinary (project_in_effect st) = true →
  ordinary (global_in_effect st) = true →
  ordinary_key utilityName = true →
  ensured_object (get_prop (VObj project) "utilities") = Some U →
  ensured_object (get_prop (VObj U) utilityName) = Some E →
  ∃ project' st',
    setUtilityConfig own_merge_method utilityName key VUndefined st
    = Some (Return (tt, st'))
    ∧ _projectConfig (this st') = VObj project'
    ∧ project_config_json (env st') = Holds (json_image (VObj project'))
    (* the key is gone, whatever else the utility holds *)
    ∧ walk project' ["utilities"; utilityName; key] = Missing
    (* the mapping of the utility goes when this empties it *)
    ∧ (delete key E = ∅ → walk project' ["utilities"; utilityName] = Missing)
    ∧ (delete key E ≠ ∅ →
       walk project' ["utilities"; utilityName] = Found (VObj (delete key E)))
    (* [utilities] goes when that empties it *)
    ∧ (delete key E = ∅ → delete utilityName U = ∅ →
       project' !! "utilities" = None)
    (* nothing else changes *)
    ∧ (∀ other x, other ≠ utilityName → U !! other = Some x →
       walk project' ["utilities"; other] = Found x)
    ∧ (∀ k, k ≠ "utilities" → project' !! k = project !! k).
Proof.
  intros project Hw _ _ _ _ HU HE.
  destruct (utility_update_unset _ U E utilityName key HU HE)
    as (project' & Hupd & Hother & Hkeep & Hprune1 & Hprune2).
  destruct (setUtilityConfig_saves utilityName key VUndefined st project' Hw Hupd)
    as (st' & Hrun & Hthis & Hfile & _).
  exists project', st'. rewrite Hthis.
  assert (delete key E = ∅ ∨ delete key E ≠ ∅) as HcaseE.
  { destruct (length (object_keys (delete key E)) =? 0)%nat eqn:H.
    - left. by apply object_keys_empty.
    - right. by apply object_keys_nonempty. }
  assert (delete utilityName U = ∅ ∨ delete utilityName U ≠ ∅) as HcaseU.
  { destruct (length (object_keys (delete utilityName U)) =? 0)%nat eqn:H.
    - left. by apply object_keys_empty.
    - right. by apply object_keys_nonempty. }
  repeat split; try done.
  - destruct HcaseE as [HE0|HE1].
    + destruct HcaseU as [HU0|HU1].
      * simpl. by rewrite (Hprune2 HE0 HU0).
      * simpl. rewrite (Hprune1 HE0 HU1). by rewrite lookup_delete_eq.
    + simpl. rewrite (Hkeep HE1), lookup_insert_eq. by rewrite lookup_delete_eq.
  - intros HE0. destruct HcaseU as [HU0|HU1].
    + simpl. by rewrite (Hprune2 HE0 HU0).
    + simpl. rewrite (Hprune1 HE0 HU1). by rewrite lookup_delete_eq.
  - intros HE1. simpl. by rewrite (Hkeep HE1), lookup_insert_eq.
  - intros other x Hne Hx. simpl. destruct HcaseE as [HE0|HE1].
    + destruct HcaseU as [HU0|HU1].
      * exfalso. apply (f_equal (fun m : obj => m !! other)) in HU0.
        rewrite lookup_delete_ne, Hx, lookup_empty in HU0 by done. done.
      * rewrite (Hprune1 HE0 HU1). by rewrite lookup_delete_ne, Hx.
    + rewrite (Hkeep HE1). by rewrite lookup_insert_ne, Hx.
Qed.

(** Claim C1 as stated fails on two loads. A path present in the global
    and the project fragment, which the override fragment cuts short with
    a scalar, reads as the default and not as the project's value; a path
    that holds nested mappings in all three fragments reads as their merge
    and not as the override's value. *)
Lemma merge_precedence_counterexample :
  let g : obj := {[ "a" := VObj {[ "b" := VNum 1 ]} ]} in
  let p : obj := {[ "a" := VObj {[ "b" := VNum 2 ]} ]} in
  let o : obj := {[ "a" := VNum 7 ]} in
  let g' : obj := {[ "a" := VObj {[ "x" := VNum 1 ]} ]} in
  let p' : obj := {[ "a" := VObj {[ "y" := VNum 2 ]} ]} in
  let o' : obj := {[ "a" := VObj {[ "z" := VNum 3 ]} ]} in
  (in_several g p o (split_dot "a.b") = true
   ∧ stated_value g p o (split_dot "a.b") = Some (VNum 2)
   ∧ get_after_load g p o "a.b" = Return VUndefined)
  ∧ (in_several g' p' o' (split_dot "a") = true
     ∧ stated_value g' p' o' (split_dot "a") = Some (VObj {[ "z" := VNum 3 ]})
     ∧ get_after_load g' p' o' "a"
       = Return (VObj (<[ "x" := VNum 1 ]> (<[ "y" := VNum 2 ]> {[ "z" := VNum 3 ]})))
     ∧ get_after_load g' p' o' "a" ≠ Return (VObj {[ "z" := VNum 3 ]})).
Proof.
  intros. repeat split; try (vm_compute; reflexivity).
  vm_compute. discriminate.
Qed.

(** The precedence theorem on the example of the specification:
    [{a:1}], [{a:2}], [{a:3}] give [get('a') = 3]. *)
Lemma merge_precedence_witness :
  let g : obj := {[ "a" := VNum 1 ]} in
  let p : obj := {[ "a" := VNum 2 ]} in
  let o : obj := {[ "a" := VNum 3 ]} in
  let st := fresh (world_holding (Holds (VObj g)) (Holds (VObj p))) in
  ∃ merged st',
    loadConfiguration own_merge_method (VObj o) st = Return (merged, st')
    ∧ get "a" VUndefined st' = Return (VNum 3, st').
Proof.
  intros g p o st.
  apply (merge_precedence g p o st "a" VUndefined (VNum 3));
    vm_compute; reflexivity.
Defined.

(** Claim C3 as stated fails on two counts. The error of the gate has the
    class of the error for missing required keys, so it is no kind of its
    own; and a manager on which load was never called answers [get],
    [getAll] and [validateRequiredConfig] once [set] has been called. *)
Lemma not_loaded_gate_counterexample :
  let w := world_holding Absent Absent in
  (∃ e1 e2 merged st',
     get "k" VUndefined (fresh w) = Throw e1
     ∧ loadConfiguration own_merge_method (VObj ∅) (fresh w) = Return (merged, st')
     ∧ validateRequiredConfig ["k"] st' = Throw e2
     ∧ name e1 = name e2)
  ∧ (∃ st',
       set "k" (VNum 1) (fresh w) = Return (tt, st')
       ∧ get "k" VUndefined st' = Return (VNum 1, st')
       ∧ getAll st' = Return ({[ "k" := VNum 1 ]}, st')
       ∧ validateRequiredConfig ["k"] st' = Return (tt, st')).
Proof.
  intros w. split.
  - eexists _, _, _, _. repeat split; vm_compute; reflexivity.
  - eexists. repeat split; vm_compute; reflexivity.
Qed.


(** The gate on a manager that was just constructed. *)
Lemma not_loaded_gate_witness :
  get "deploy.defaultUtility" VUndefined (fresh (world_holding Absent Absent))
  = Throw (ValidationError not_loaded_message)
  ∧ message (ValidationError not_loaded_message)
    ≠ message (ValidationError ("Missing required configuration: "
                                ++ join ", " ["deploy.defaultUtility"])).
Proof.
  pose proof (not_loaded_gate VNull VNull (world_holding Absent Absent)
                (fresh (world_holding Absent Absent)) "deploy.defaultUtility"
                VUndefined [] ["deploy.defaultUtility"]) as H.
  split; [apply H|apply H].
Defined.

(** A load whose merge step is the throwing stub of the test-suite, with
    a global file that cannot be parsed. *)
Lemma load_throws_only_from_merge_witness :
  let st := fresh (world_holding (Unreadable (Error "Parse error")) Absent) in
  ∃ e before after,
    loadConfiguration (fun _ _ _ => Throw (Error "Critical merge error"))
      (VObj ∅) st = Throw e
    ∧ name e = "FileSystemError"
    ∧ message e = before ++ "Critical merge error" ++ after.
Proof.
  intros st.
  pose proof (load_throws_only_from_merge
                (fun _ _ _ => Throw (Error "Critical merge error")) (VObj ∅)
                constructor
                (world_holding (Unreadable (Error "Parse error")) Absent)
                (Error "Parse error")) as H.
  apply H.
Defined.

(** The validation on the example of the specification. *)
Lemma validateRequired_witness :
  let merged : obj := {[ "required" := VObj {[ "option" := VStr "x" ]} ]} in
  let st := MkState (MkManager (VObj ∅) (VObj ∅) (Some merged))
                    (world_holding Absent Absent) in
  validateRequiredConfig ["required.option"] st = Return (tt, st)
  ∧ validateRequiredConfig ["missing.option"; "required.option"; "other"] st
    = Throw (ValidationError "Missing required configuration: missing.option, other")
  ∧ ∃ before after,
      "Missing required configuration: missing.option, other"
      = before ++ "other" ++ after.
Proof.
  intros merged st. split; [|split].
  - apply (validateRequired_reports_every_missing_key (VObj ∅) (VObj ∅) merged
             (world_holding Absent Absent) ["required.option"]).
    vm_compute. reflexivity.
  - apply (validateRequired_reports_every_missing_key (VObj ∅) (VObj ∅) merged
             (world_holding Absent Absent)
             ["missing.option"; "required.option"; "other"]).
    vm_compute. reflexivity.
  - apply (validateRequired_reports_every_missing_key (VObj ∅) (VObj ∅) merged
             (world_holding Absent Absent)
             ["missing.option"; "required.option"; "other"]).
    + vm_compute. reflexivity.
    + by repeat constructor.
    + vm_compute. reflexivity.
Defined.

(** Unsetting the only key of one utility next to a second utility. *)
Lemma unset_utility_prunes_witness :
  let X : obj := {[ "enabled" := VBool true ]} in
  let Y : obj := {[ "theme" := VStr "dark" ]} in
  let project : obj :=
    {[ "utilities" := VObj {[ "github-copilot" := VObj X; "cursor" := VObj Y ]};
       "otherSetting" := VStr "value" ]} in
  let st := MkState (MkManager (VObj ∅) (VObj project) (Some project))
                    (world_holding Absent (Holds (VObj project))) in
  ∃ project' st',
    setUtilityConfig own_merge_method "github-copilot" "enabled" VUndefined st
    = Some (Return (tt, st'))
    ∧ _projectConfig (this st') = VObj project'
    ∧ walk project' ["utilities"; "github-copilot"] = Missing
    ∧ walk project' ["utilities"; "cursor"] = Found (VObj Y)
    ∧ project' !! "otherSetting" = Some (VStr "value").
Proof.
  intros X Y project st.
  destruct (unset_utility_prunes st
              {[ "github-copilot" := VObj X; "cursor" := VObj Y ]} X
              "github-copilot" "enabled")
    as (project' & st' & Hrun & Hproject & _ & _ & Hgone & _ & _ & Hsibling & Hrest);
    [vm_compute; reflexivity ..|].
  exists project', st'. split; [exact Hrun|]. split; [exact Hproject|].
  split; [|split].
  - apply Hgone. vm_compute. reflexivity.
  - apply Hsibling; [discriminate|vm_compute; reflexivity].
  - rewrite Hrest by discriminate. vm_compute. reflexivity.
Defined.

End ConfigurationFacts.

(** ** The cache manager *)

Module CacheFacts.
Import JS Errors Eff CacheManager Verdicts.

Ltac run_cache :=
  cbv [calculateFileHash hasFileChanged read_property loadCache mbind M_bind
       mret M_ret read_disk console_warn_line throw];
  cbn [read_file hashes_json detection_json console_warn].

Lemma hex_digit_is_hex (n : Z) : is_hex (Sha256.hex_digit n) = true.
Proof.
  destruct n as [|q|q]; [reflexivity| |reflexivity].
  do 4 (try destruct q as [q|q|]); reflexivity.
Qed.

Lemma hex8_length (w : Z) (tail : string) :
  String.length (Sha256.hex8 w tail) = (8 + String.length tail)%nat.
Proof. reflexivity. Qed.

Lemma hex8_is_hex (w : Z) (tail : string) :
  forallb is_hex (list_ascii_of_string tail) = true →
  forallb is_hex (list_ascii_of_string (Sha256.hex8 w tail)) = true.
Proof.
  intros H. unfold Sha256.hex8. cbn [list_ascii_of_string forallb].
  rewrite !hex_digit_is_hex. exact H.
Qed.

Lemma sha256_hex_length (message : list Z) :
  String.length (Sha256.sha256_hex message) = 64%nat.
Proof.
  unfold Sha256.sha256_hex, Sha256.to_hex. by rewrite !hex8_length.
Qed.

Lemma sha256_hex_is_hex (message : list Z) :
  forallb is_hex (list_ascii_of_string (Sha256.sha256_hex message)) = true.
Proof.
  unfold Sha256.sha256_hex, Sha256.to_hex. do 8 apply hex8_is_hex. reflexivity.
Qed.

Lemma sha256_hex_truthy (message : list Z) :
  truthy (VStr (Sha256.sha256_hex message)) = true.
Proof.
  pose proof (sha256_hex_length message) as H.
  destruct (Sha256.sha256_hex message); [discriminate H|reflexivity].
Qed.

Lemma digest_of_eq (d : disk) (filePath : string) :
  digest_of d filePath =
  match read_file d filePath with
  | Content bytes => Some (Sha256.sha256_hex (Utf8.encode (Utf8.decode bytes)))
  | ReadFails _ => None
  end.
Proof.
  unfold digest_of. run_cache. by destruct (read_file d filePath).
Qed.

Lemma digest_of_truthy (d : disk) (filePath h : string) :
  digest_of d filePath = Some h → truthy (VStr h) = true.
Proof.
  rewrite digest_of_eq. destruct (read_file d filePath); [done|].
  intros [= <-]. apply sha256_hex_truthy.
Qed.

(** What [hasFileChanged] answers, in one equation. *)
Lemma hasFileChanged_eq (d : disk) (filePath : string) (hashCache : value) :
  nullish hashCache = false ∨ digest_of d filePath = None →
  ∃ d', hasFileChanged filePath hashCache d
        = Return (match digest_of d filePath with
                  | None => true
                  | Some h =>
                      negb (truthy (get_prop hashCache filePath))
                      || negb (strict_eq_string (get_prop hashCache filePath) h)
                  end, d')
        ∧ read_file d' = read_file d.
Proof.
  intros Hcase. rewrite digest_of_eq in *. unfold hasFileChanged. run_cache.
  destruct (read_file d filePath) as [cause|bytes] eqn:Hread.
  - simpl. eexists. split; reflexivity.
  - destruct Hcase as [Hn|?]; [|done].
    cbn [no_hash]. rewrite sha256_hex_truthy. cbn [negb].
    destruct hashCache; try discriminate Hn; eexists; split; reflexivity.
Qed.

(** Claim C7. [hasFileChanged] answers [true] whenever no fingerprint can
    be computed for the path, whatever the mapping holds; when one is
    computed, it answers [true] if and only if the mapping has no entry for
    the path or the entry differs from the fingerprint. *)
Theorem hasFileChanged_semantics (d : disk) (filePath : string)
    (hashCache : value) :
  (digest_of d filePath = None →
   ∃ d', hasFileChanged filePath hashCache d = Return (true, d'))
  ∧ (∀ h, digest_of d filePath = Some h → nullish hashCache = false →
     ∃ changed d',
       hasFileChanged filePath hashCache d = Return (changed, d')
       ∧ (changed = true
          ↔ own_property hashCache filePath = None
            ∨ ∃ entry, own_property hashCache filePath = Some entry
                       ∧ entry ≠ VStr h)).
Proof.
  split.
  - intros Hd. destruct (hasFileChanged_eq d filePath hashCache) as (d' & H & _).
    { by right. }
    rewrite Hd in H. eauto.
  - intros h Hd Hn.
    destruct (hasFileChanged_eq d filePath hashCache) as (d' & H & _).
    { by left. }
    rewrite Hd in H. eexists _, d'. split; [exact H|].
    pose proof (digest_of_truthy d filePath h Hd) as Hh.
    unfold get_prop. destruct (own_property hashCache filePath) as [entry|].
    + split.
      * intros Hb. right. exists entry. split; [done|]. intros ->.
        simpl in Hb. rewrite String.eqb_refl in Hb. simpl in Hh.
        rewrite Hh in Hb. done.
      * intros [?|(entry' & [= <-] & Hne)]; [done|].
        apply orb_true_iff. right. apply negb_true_iff.
        destruct entry; try reflexivity. simpl.
        destruct (String.eqb_spec s h) as [->|]; [done|reflexivity].
    + split; [by left|reflexivity].
Qed.

(** Claim C8, as the code has it. The fingerprint of a readable file is
    the SHA-256 digest, 64 lower-case hexadecimal digits, of the text the
    bytes of the file decode to as UTF-8: two files with the same bytes, and
    more generally with the same decoded text, have the same fingerprint. *)
Theorem fingerprint_of_decoded_text (d1 d2 : disk) (path1 path2 : string)
    (bytes1 bytes2 : list Byte.byte) :
  read_file d1 path1 = Content bytes1 →
  read_file d2 path2 = Content bytes2 →
  ∃ h1 h2 d1' d2',
    calculateFileHash path1 d1 = Return (Some h1, d1')
    ∧ calculateFileHash path2 d2 = Return (Some h2, d2')
    ∧ h1 = Sha256.sha256_hex (Utf8.encode (Utf8.decode bytes1))
    ∧ String.length h1 = 64%nat
    ∧ forallb is_hex (list_ascii_of_string h1) = true
    ∧ (bytes1 = bytes2 → h1 = h2)
    ∧ (Utf8.decode bytes1 = Utf8.decode bytes2 → h1 = h2).
Proof.
  intros H1 H2. unfold calculateFileHash. run_cache. rewrite H1, H2.
  eexists _, _, _, _. split; [reflexivity|]. split; [reflexivity|].
  split; [reflexivity|]. split; [apply sha256_hex_length|].
  split; [apply sha256_hex_is_hex|]. split.
  - by intros ->.
  - by intros ->.
Qed.

(** Claim C8 as stated fails: the one-byte files [0xFF] and [0xFE] both
    decode to U+FFFD, so they have the same fingerprint, and after the byte
    is changed the file still counts as unchanged. *)
Lemma fingerprint_counterexample :
  let d1 := disk_with_file "/prompts/a.md" [Byte.xff] in
  let d2 := disk_with_file "/prompts/a.md" [Byte.xfe] in
  [Byte.xff] ≠ [Byte.xfe]
  ∧ Utf8.decode [Byte.xff] = Utf8.decode [Byte.xfe]
  ∧ digest_of d1 "/prompts/a.md"
    = Some "83d544ccc223c057d2bf80d3f2a32982c32c3c0db8e2674820da5064783fb097"
  ∧ digest_of d2 "/prompts/a.md" = digest_of d1 "/prompts/a.md"
  ∧ verdict d2 (VObj {[ "/prompts/a.md" :=
        VStr "83d544ccc223c057d2bf80d3f2a32982c32c3c0db8e2674820da5064783fb097" ]})
      "/prompts/a.md" = false.
Proof.
  intros d1 d2. split; [discriminate|]. split; [reflexivity|].
  split; [vm_compute; reflexivity|]. split; vm_compute; reflexivity.
Qed.

(** [loadCache] never throws, leaves the files alone, and what it returns
    as fingerprint mapping is never [null] or [undefined]. *)
Lemma loadCache_eq (d : disk) :
  ∃ detectionCache d',
    loadCache d = Return ((loaded_mapping d, detectionCache), d')
    ∧ read_file d' = read_file d
    ∧ nullish (loaded_mapping d) = false.
Proof.
  unfold loaded_mapping, loadCache. run_cache.
  destruct (hashes_json d) as [e|h]; simpl.
  - eexists _, _. repeat split.
  - destruct (detection_json d) as [e|c]; simpl.
    + eexists _, _. repeat split.
    + eexists _, _. split; [reflexivity|]. split; [reflexivity|].
      by destruct h as [| |[]|[]|[]| |].
Qed.

(** The answer of [hasFileChanged] depends on the files only: printing
    warnings does not change it. *)
Lemma verdict_stable (d d0 : disk) (hashCache : value) (filePath : string) :
  read_file d = read_file d0 → nullish hashCache = false →
  ∃ d', hasFileChanged filePath hashCache d
        = Return (verdict d0 hashCache filePath, d')
        ∧ read_file d' = read_file d0.
Proof.
  intros Hfiles Hn.
  destruct (hasFileChanged_eq d filePath hashCache) as (d' & H & Hd'); [by left|].
  destruct (hasFileChanged_eq d0 filePath hashCache) as (d0' & H0 & _); [by left|].
  exists d'. split; [|congruence].
  unfold verdict. rewrite H0, H. f_equal. f_equal.
  by rewrite !digest_of_eq, Hfiles.
Qed.

(** The loop of [getChangedFiles] is a pair of filters. *)
Lemma classify_eq (d0 : disk) (hashCache : value) (filePaths : list string) :
  nullish hashCache = false →
  ∀ (d : disk) (changed unchanged : list string),
    read_file d = read_file d0 →
    ∃ d', classify filePaths hashCache changed unchanged d
          = Return ((changed ++ List.filter (verdict d0 hashCache) filePaths,
                     unchanged ++ List.filter
                                    (fun p => negb (verdict d0 hashCache p))
                                    filePaths)%list, d').
Proof.
  intros Hn. induction filePaths as [|filePath rest IH];
    intros d changed unchanged Hfiles; simpl.
  - eexists. by rewrite !app_nil_r.
  - destruct (verdict_stable d d0 hashCache filePath Hfiles Hn) as (d1 & H & H1).
    unfold mbind, M_bind. rewrite H.
    destruct (verdict d0 hashCache filePath); simpl.
    + destruct (IH d1 (changed ++ [filePath])%list unchanged H1) as (d' & ->).
      exists d'. by rewrite <- app_assoc.
    + destruct (IH d1 changed (unchanged ++ [filePath])%list H1) as (d' & ->).
      exists d'. by rewrite <- app_assoc.
Qed.

Lemma filter_sublist {A} (f : A → bool) (l : list A) :
  sublist (List.filter f l) l.
Proof.
  induction l as [|x l IH]; simpl; [constructor|].
  destruct (f x); by constructor.
Qed.

(** Claim C9. [getChangedFiles] returns the paths for which
    [hasFileChanged] answers [true] against the mapping [loadCache] has just
    read, and the paths for which it answers [false]: every input path is
    in exactly one of the two lists, and each list keeps the order of the
    input. *)
Theorem getChangedFiles_partitions (d : disk) (filePaths : list string) :
  let changes := verdict d (loaded_mapping d) in
  ∃ changed unchanged d',
    getChangedFiles filePaths d = Return ((changed, unchanged), d')
    ∧ changed = List.filter changes filePaths
    ∧ unchanged = List.filter (fun p => negb (changes p)) filePaths
    ∧ (∀ p, p ∈ filePaths →
         (p ∈ changed ∧ (p ∉ unchanged) ∧ changes p = true)
         ∨ (p ∈ unchanged ∧ (p ∉ changed) ∧ changes p = false))
    ∧ (length changed + length unchanged = length filePaths)%nat
    ∧ sublist changed filePaths
    ∧ sublist unchanged filePaths.
Proof.
  intros changes.
  destruct (loadCache_eq d) as (detectionCache & d1 & Hload & Hfiles & Hn).
  destruct (classify_eq d (loaded_mapping d) filePaths Hn d1 [] [] Hfiles)
    as (d' & Hclass).
  eexists _, _, d'. split.
  { unfold getChangedFiles, mbind, M_bind. rewrite Hload. exact Hclass. }
  simpl. fold changes. split; [reflexivity|]. split; [reflexivity|].
  split; [|split; [|split]].
  - intros p Hp. apply list_elem_of_In in Hp.
    rewrite !list_elem_of_In, !filter_In.
    destruct (changes p) eqn:Hc; [left|right]; simpl; intuition congruence.
  - apply List.filter_length.
  - apply filter_sublist.
  - apply filter_sublist.
Qed.

(** An unreadable file, and a file whose stored fingerprint is current. *)
Lemma hasFileChanged_witness :
  let d := disk_with_file "/test/file.md" (list_byte_of_string "same content") in
  let stored : obj :=
    {[ "/test/file.md" :=
         VStr "a636bd7cd42060a4d07fa1bfbcc010eb7794c2ba721e1e3e4c20335a15b66eaf" ]} in
  (∃ d', hasFileChanged "/test/missing.md" (VObj stored) d = Return (true, d'))
  ∧ (∃ changed d',
       hasFileChanged "/test/file.md" (VObj stored) d = Return (changed, d')
       ∧ (changed = true
          ↔ own_property (VObj stored) "/test/file.md" = None
            ∨ ∃ entry, own_property (VObj stored) "/test/file.md" = Some entry
                       ∧ entry ≠ VStr "a636bd7cd42060a4d07fa1bfbcc010eb7794c2ba721e1e3e4c20335a15b66eaf")).
Proof.
  intros d stored. split.
  - apply (hasFileChanged_semantics d "/test/missing.md" (VObj stored)).
    vm_compute. reflexivity.
  - apply (hasFileChanged_semantics d "/test/file.md" (VObj stored));
      vm_compute; reflexivity.
Defined.

(** The fingerprint of the test-suite's file. *)
Lemma fingerprint_witness :
  let d := disk_with_file "/test/file.md" (list_byte_of_string "test content") in
  ∃ h1 h2 d1' d2',
    calculateFileHash "/test/file.md" d = Return (Some h1, d1')
    ∧ calculateFileHash "/test/file.md" d = Return (Some h2, d2')
    ∧ h1 = Sha256.sha256_hex
             (Utf8.encode (Utf8.decode (list_byte_of_string "test content")))
    ∧ String.length h1 = 64%nat
    ∧ forallb is_hex (list_ascii_of_string h1) = true
    ∧ (list_byte_of_string "test content" = list_byte_of_string "test content"
       → h1 = h2)
    ∧ (Utf8.decode (list_byte_of_string "test content")
       = Utf8.decode (list_byte_of_string "test content") → h1 = h2).
Proof.
  intros d.
  apply (fingerprint_of_decoded_text d d "/test/file.md" "/test/file.md");
    vm_compute; reflexivity.
Defined.

(** The classification of a changed, an unchanged and a missing file. *)
Lemma getChangedFiles_witness :
  let d :=
    {| hashes_json :=
         Resolves (VObj {[ "/test/unchanged.md" :=
           VStr "a636bd7cd42060a4d07fa1bfbcc010eb7794c2ba721e1e3e4c20335a15b66eaf" ]});
       detection_json := Resolves VNull;
       read_file := fun p =>
         if String.eqb p "/test/unchanged.md"
         then Content (list_byte_of_string "same content")
         else if String.eqb p "/test/changed.md"
         then Content (list_byte_of_string "new content")
         else ReadFails (Error "ENOENT");
       console_warn := [] |} in
  ∃ d', getChangedFiles ["/test/changed.md"; "/test/unchanged.md"; "/test/gone.md"] d
        = Return ((["/test/changed.md"; "/test/gone.md"], ["/test/unchanged.md"]), d').
Proof.
  intros d.
  destruct (getChangedFiles_partitions d
              ["/test/changed.md"; "/test/unchanged.md"; "/test/gone.md"])
    as (changed & unchanged & d' & Hrun & -> & -> & _).
  exists d'. rewrite Hrun. vm_compute. reflexivity.
Defined.
End CacheFacts.

(** ** Deleting a key path *)

Module EditFacts.
Import JS Errors Eff ConfigurationManager ConfigurationEdits Paths Shapes.
Import JSFacts ConfigurationFacts.

Lemma split_dot_dot_free (s : string) : dot_free s = true → split_dot s = [s].
Proof.
  induction s as [|c rest IH]; simpl; [done|].
  intros [Hc Hrest]%andb_true_iff. apply negb_true_iff in Hc. rewrite Hc.
  by rewrite (IH Hrest).
Qed.

Lemma split_dot_keys_dot_free (s : string) :
  Forall (fun key => dot_free key = true) (split_dot s).
Proof.
  induction s as [|c rest IH]; simpl; [by repeat constructor|].
  destruct (Ascii.eqb c ".") eqn:Hc; [by constructor|].
  destruct (split_dot rest) as [|p ps].
  { constructor; [simpl; by rewrite Hc|constructor]. }
  inversion IH as [|? ? Hp Hps]; subst. constructor; [|done].
  simpl. by rewrite Hc, Hp.
Qed.

Lemma split_dot_prepend (a b : string) :
  dot_free a = true → split_dot (a ++ String "." b) = a :: split_dot b.
Proof.
  induction a as [|c a IH]; intros Ha.
  - simpl. done.
  - simpl in Ha. apply andb_true_iff in Ha as [Hc Ha]. apply negb_true_iff in Hc.
    change (String c a ++ String "." b) with (String c (a ++ String "." b)).
    simpl. rewrite Hc, (IH Ha). done.
Qed.

Lemma split_dot_join (keys : list string) :
  keys ≠ [] → Forall (fun key => dot_free key = true) keys →
  split_dot (join "." keys) = keys.
Proof.
  induction keys as [|k ks IH]; intros Hne Hall; [done|].
  inversion Hall as [|? ? Hk Hks]; subst.
  destruct ks as [|k' ks'].
  - simpl. by apply split_dot_dot_free.
  - change (join "." (k :: k' :: ks')) with (k ++ "." ++ join "." (k' :: ks')).
    change ("." ++ join "." (k' :: ks')) with (String "." (join "." (k' :: ks'))).
    rewrite (split_dot_prepend _ _ Hk). f_equal. by apply IH.
Qed.

Lemma join_empty (keys : list string) :
  join "." keys = "" → keys = [] ∨ keys = [""].
Proof.
  destruct keys as [|k [|k' ks']]; [by left| |].
  - simpl. intros ->. by right.
  - change (join "." (k :: k' :: ks')) with (k ++ "." ++ join "." (k' :: ks')).
    destruct k; discriminate.
Qed.

Local Abbreviation del m P k := (own_enumerable (delete_at (VObj m) P k)).

Lemma delete_at_obj (m : obj) (P : list string) (k : string) :
  delete_at (VObj m) P k = VObj (del m P k).
Proof. destruct P as [|p P]; simpl; [done|]. by destruct (m !! p). Qed.

Lemma del_nil (m : obj) (k : string) : del m [] k = delete k m.
Proof. done. Qed.

Lemma del_cons (m : obj) (p : string) (P : list string) (k : string) :
  del m (p :: P) k =
  match m !! p with
  | Some child => <[p := delete_at child P k]> m
  | None => m
  end.
Proof. simpl. by destruct (m !! p). Qed.

Lemma navigate_walk_iff (m : obj) (ks : list string) (cur : value) :
  navigate (VObj m) ks = Some cur ↔ walk m ks = Found cur.
Proof.
  revert m. induction ks as [|key rest IH]; intros m.
  - simpl. split; congruence.
  - rewrite walk_cons. cbn [navigate]. unfold has_in, get_prop. cbn [truthy _isObject own_property negb orb].
    destruct (m !! key) as [x|]; simpl; [|split; discriminate].
    destruct rest as [|k2 r]; [simpl; split; congruence|].
    destruct x as [| |b|n|t|l|m1]; [..|apply IH].
    all: cbn [navigate truthy _isObject negb orb].
    all: try (split; discriminate).
    all: rewrite ?orb_true_r; cbn [orb]; split; discriminate.
Qed.

Lemma walk_snoc (m : obj) (ks : list string) (k : string) (v : value) :
  walk m (ks ++ [k])%list = Found v
  ↔ ∃ c, walk m ks = Found (VObj c) ∧ c !! k = Some v.
Proof.
  revert m. induction ks as [|key rest IH]; intros m.
  - simpl. destruct (m !! k) as [x|] eqn:Hk.
    + split; [intros [= ->]; eauto|]. intros (c & [= <-] & Hc). congruence.
    + split; [discriminate|]. intros (c & [= <-] & Hc). congruence.
  - change ((key :: rest) ++ [k])%list with (key :: rest ++ [k])%list.
    rewrite walk_snoc_cons, walk_cons.
    destruct (m !! key) as [x|]; [|split; [discriminate|by intros (? & ? & ?)]].
    destruct x as [| | | | | |m1].
    all: try (split; [discriminate|]; intros (c & Hc & _);
              destruct rest; discriminate).
    rewrite IH. destruct rest as [|k2 r]; [|done].
    simpl. split; intros (c & Hc & Hk); exists c; split; congruence.
Qed.

Lemma walk_prefix_object (m : obj) (P Q : list string) (c : obj) :
  walk m (P ++ Q)%list = Found (VObj c) → ∃ c', walk m P = Found (VObj c').
Proof.
  revert m. induction P as [|p P IH]; intros m Hw; [simpl; eauto|].
  change ((p :: P) ++ Q)%list with (p :: P ++ Q)%list in Hw.
  rewrite walk_cons in *. destruct (m !! p) as [x|]; [|done].
  destruct P as [|p2 P2].
  - destruct Q as [|q Q]; simpl in Hw; [injection Hw as ->; eauto|].
    destruct x as [| | | | | |m1]; try done. eauto.
  - change ((p2 :: P2) ++ Q)%list with (p2 :: P2 ++ Q)%list in Hw.
    destruct x as [| | | | | |m1]; try done.
    by apply IH.
Qed.

(** Deleting a key somewhere never makes a missing path appear. *)
Lemma walk_del_missing (m : obj) (ks P : list string) (k : string) :
  walk m ks = Missing → walk (del m P k) ks = Missing.
Proof.
  revert m P. induction ks as [|key rest IH]; intros m P Hw; [done|].
  rewrite walk_cons in *.
  destruct P as [|p P].
  - rewrite del_nil. destruct (decide (k = key)) as [->|Hne].
    + by rewrite lookup_delete_eq.
    + by rewrite lookup_delete_ne.
  - rewrite del_cons. destruct (m !! p) as [child|] eqn:Hp; [|done].
    destruct (decide (p = key)) as [->|Hne].
    + rewrite lookup_insert_eq. rewrite Hp in Hw.
      destruct rest as [|k2 r]; [done|].
      destruct child as [| | | | | |m1]; try (by destruct P).
      rewrite delete_at_obj. by apply IH.
    + by rewrite lookup_insert_ne.
Qed.

(** Deleting below a node keeps the node a plain object. *)
Lemma walk_del_ancestor (m : obj) (P Q : list string) (k : string) (c : obj) :
  walk m P = Found (VObj c) → ∃ c', walk (del m (P ++ Q) k) P = Found (VObj c').
Proof.
  revert m. induction P as [|p P IH]; intros m Hw; [simpl; eauto|].
  change ((p :: P) ++ Q)%list with (p :: P ++ Q)%list.
  rewrite del_cons. rewrite walk_cons in *.
  destruct (m !! p) as [x|] eqn:Hp; [|done].
  rewrite lookup_insert_eq.
  destruct P as [|p2 P2].
  - injection Hw as ->. simpl. rewrite delete_at_obj. eauto.
  - destruct x as [| | | | | |m1]; try done.
    rewrite delete_at_obj. by apply IH.
Qed.

Lemma del_other_keys (m : obj) (p : string) (P : list string) (k j : string) :
  j ≠ p → del m (p :: P) k !! j = m !! j.
Proof.
  intros Hne. rewrite del_cons. destruct (m !! p); [|done].
  by rewrite lookup_insert_ne.
Qed.

(** The deletion of the leaf itself. *)
Lemma del_leaf (m c : obj) (init : list string) (k : string) :
  walk m init = Found (VObj c) →
  walk (del m init k) init = Found (VObj (delete k c))
  ∧ walk (del m init k) (init ++ [k])%list = Missing.
Proof.
  revert m. induction init as [|p P IH]; intros m Hw.
  - simpl in Hw. injection Hw as ->. rewrite del_nil. simpl.
    by rewrite lookup_delete_eq.
  - rewrite del_cons.
    change ((p :: P) ++ [k])%list with (p :: P ++ [k])%list.
    rewrite walk_snoc_cons. rewrite walk_cons in *.
    destruct (m !! p) as [x|] eqn:Hp; [|done].
    rewrite !lookup_insert_eq.
    destruct P as [|p2 P2].
    + injection Hw as ->. simpl. by rewrite lookup_delete_eq.
    + destruct x as [| | | | | |m1]; try done.
      rewrite delete_at_obj. by apply IH.
Qed.

Lemma delete_at_non_object (x : value) (P : list string) (k : string) :
  _isObject x = false → delete_at x P k = x.
Proof. by destruct x, P. Qed.

(** A value other than a mapping stays where it is, unless the deleted
    path leads to it. *)
Lemma walk_del_frame (m : obj) (ks P : list string) (k : string) (v : value) :
  walk m ks = Found v → _isObject v = false →
  (∀ Q, ks ≠ ((P ++ [k]) ++ Q)%list) →
  walk (del m P k) ks = Found v.
Proof.
  revert m P. induction ks as [|key rest IH]; intros m P Hw Hv Hne.
  { simpl in Hw. injection Hw as <-. done. }
  rewrite walk_cons in *.
  destruct (m !! key) as [x|] eqn:Hkey; [|done].
  destruct P as [|p P].
  - rewrite del_nil. rewrite lookup_delete_ne, Hkey; [done|].
    intros ->. by apply (Hne rest).
  - rewrite del_cons. destruct (m !! p) as [child|] eqn:Hp; [|by rewrite Hkey].
    destruct (decide (p = key)) as [->|Hpk]; [|by rewrite lookup_insert_ne, Hkey].
    rewrite lookup_insert_eq. rewrite Hkey in Hp. injection Hp as <-.
    destruct rest as [|k2 r].
    + injection Hw as ->. by rewrite delete_at_non_object.
    + destruct x as [| | | | | |m1]; try done.
      rewrite delete_at_obj. apply IH; [done..|].
      intros Q HQ. apply (Hne Q). simpl. by rewrite HQ.
Qed.

Lemma walk_app_found (m : obj) (P Q : list string) (c : obj) :
  walk m P = Found (VObj c) → walk m (P ++ Q)%list = walk c Q.
Proof.
  revert m. induction P as [|p P IH]; intros m Hw.
  { simpl in Hw. by injection Hw as ->. }
  change ((p :: P) ++ Q)%list with (p :: P ++ Q)%list.
  rewrite walk_cons in *. destruct (m !! p) as [x|]; [|done].
  destruct P as [|p2 P2].
  - injection Hw as ->. simpl. by destruct Q.
  - destruct x as [| | | | | |m1]; try done.
    change ((p2 :: P2) ++ Q)%list with (p2 :: P2 ++ Q)%list.
    change ((p2 :: P2) ++ Q)%list with (p2 :: P2 ++ Q)%list in IH.
    by apply IH.
Qed.

(** Removing an empty mapping loses no value other than a mapping. *)
Lemma walk_del_empty_frame (m : obj) (ks P : list string) (k : string)
    (v : value) :
  walk m (P ++ [k])%list = Found (VObj ∅) →
  walk m ks = Found v → _isObject v = false →
  walk (del m P k) ks = Found v.
Proof.
  intros He Hw Hv. apply walk_del_frame; [done..|].
  intros Q ->. rewrite (walk_app_found _ _ _ _ He) in Hw.
  destruct Q as [|q Q]; simpl in Hw; [by injection Hw as <-|].
  by rewrite lookup_empty in Hw.
Qed.

(** The keys [_cleanupEmptyObjects] navigates by at step [i]. *)
Lemma path_keys_eq (P : list string) :
  P ≠ [] → Forall (fun key => dot_free key = true) P →
  (if truthy (VStr (join "." P)) then split_dot (join "." P) else [])
  = if decide (P = [""]) then [] else P.
Proof.
  intros Hne Hfree. cbn [truthy].
  destruct (String.eqb (join "." P) "") eqn:E; cbn [negb].
  - apply String.eqb_eq in E. destruct (join_empty _ E) as [HP|HP]; [done|].
    by rewrite decide_True.
  - destruct (decide _) as [->|_]; [done|]. by apply split_dot_join.
Qed.

Lemma has_no_keys_obj (e : obj) : has_no_keys (VObj e) = true ↔ e = ∅.
Proof. apply object_keys_empty. Qed.

(** The test of [_cleanupEmptyObjects]: the member is an empty mapping. *)
Lemma empty_member (c : obj) (k : string) :
  _isObject (get_prop (VObj c) k) && has_no_keys (get_prop (VObj c) k) = true
  ↔ c !! k = Some (VObj ∅).
Proof.
  unfold get_prop. cbn [own_property].
  destruct (c !! k) as [x|]; [|by split].
  destruct x as [| | | | | |e]; try (by split).
  cbn [_isObject andb]. rewrite has_no_keys_obj.
  split; [by intros ->|by intros [= ->]].
Qed.

(** One turn of the loop of [_cleanupEmptyObjects], at a container that is
    a plain object: the loop stops unless the container holds an empty
    mapping under its own name. *)
Lemma cleanup_loop_step (i' : nat) (init : list string) (lastKey k : string)
    (m1 c : obj) :
  Forall (fun key => dot_free key = true) init → init !! i' = Some k →
  walk m1 (take (S i') init) = Found (VObj c) →
  let keys := (init ++ [lastKey])%list in
  let P := if decide (take (S i') init = [""]) then [] else take (S i') init in
  ∃ c', walk m1 P = Found (VObj c') ∧
  cleanup_loop (S i') keys (VObj m1) =
    if _isObject (get_prop (VObj c') k) && has_no_keys (get_prop (VObj c') k)
    then cleanup_loop i' keys (VObj (del m1 P k))
    else Return (VObj m1).
Proof.
  intros Hfree Hk Hw keys P.
  assert (Hlt : (i' < length init)%nat) by by eapply lookup_lt_Some.
  assert (Htake : take (S i') keys = take (S i') init).
  { unfold keys. rewrite take_app_le; [done|lia]. }
  assert (Hkeys : keys !! i' = Some k).
  { unfold keys. by rewrite lookup_app_l. }
  assert (HP : (if truthy (VStr (join "." (take (S i') keys)))
                then split_dot (join "." (take (S i') keys)) else []) = P).
  { rewrite Htake. apply path_keys_eq.
    - rewrite (take_S_r _ _ _ Hk). by destruct (take i' init).
    - by apply Forall_take. }
  assert (∃ c', walk m1 P = Found (VObj c')) as (c' & Hc').
  { unfold P. destruct (decide _); [simpl; eauto|eauto]. }
  exists c'. split; [done|].
  cbn [cleanup_loop]. rewrite HP, Hkeys. cbn [property_name].
  apply navigate_walk_iff in Hc' as Hnav. rewrite Hnav.
  cbn [read_member]. by rewrite delete_at_obj.
Qed.

(** The loop of [_cleanupEmptyObjects] on the containers of a path: it
    does not throw, keeps an object, lets no missing path appear and loses
    no value other than a mapping. *)
Lemma cleanup_loop_inv (i : nat) (init : list string) (lastKey : string)
    (m1 : obj) :
  Forall (fun key => dot_free key = true) init → (i ≤ length init)%nat →
  (∀ j, (j ≤ i)%nat → ∃ c, walk m1 (take j init) = Found (VObj c)) →
  ∃ m2, cleanup_loop i (init ++ [lastKey])%list (VObj m1) = Return (VObj m2)
  ∧ (∀ ks, walk m1 ks = Missing → walk m2 ks = Missing)
  ∧ (∀ ks v, walk m1 ks = Found v → _isObject v = false →
             walk m2 ks = Found v).
Proof.
  intros Hfree. revert m1. induction i as [|i' IH]; intros m1 Hle Hanc.
  { exists m1. by repeat split. }
  destruct (lookup_lt_is_Some_2 init i') as [k Hk]; [lia|].
  destruct (Hanc (S i')) as (c & Hc); [lia|].
  destruct (cleanup_loop_step i' init lastKey k m1 c Hfree Hk Hc)
    as (c' & Hc' & ->).
  destruct (_isObject _ && has_no_keys _) eqn:He;
    [|exists m1; by repeat split].
  apply empty_member in He.
  set (P := if decide (take (S i') init = [""]) then [] else take (S i') init)
    in *.
  assert (Hempty : walk m1 (P ++ [k])%list = Found (VObj ∅)).
  { apply walk_snoc. eauto. }
  destruct (IH (del m1 P k)) as (m2 & Hrun & Hmiss & Hfound); [lia| |].
  - intros j Hj. destruct (Hanc j) as (cj & Hcj); [lia|].
    unfold P. destruct (decide _) as [E|_].
    + assert (j = 0) as ->.
      { apply (f_equal length) in E. rewrite length_take in E.
        change (length [""]) with 1%nat in E. lia. }
      simpl. eauto.
    + replace (take (S i') init) with (take j init ++ drop j (take (S i') init))%list.
      * by eapply walk_del_ancestor.
      * rewrite <- (take_drop j (take (S i') init)) at 2.
        f_equal. rewrite take_take. f_equal. lia.
  - exists m2. split; [done|]. split.
    + intros ks Hks. apply Hmiss. by apply walk_del_missing.
    + intros ks v Hks Hv. apply Hfound; [|done].
      by eapply walk_del_empty_frame.
Qed.

Lemma get_keys_missing (m : obj) (keys : list string) (d : value) :
  walk m keys = Missing → get_keys (VObj m) keys d = d.
Proof.
  revert m. induction keys as [|key rest IH]; intros m Hw; [done|].
  rewrite walk_cons in Hw. cbn [get_keys truthy typeof_object andb].
  unfold has_in, get_prop. cbn [own_property].
  destruct (m !! key) as [x|]; [|done].
  destruct rest as [|k2 r]; [done|].
  destruct x as [| | | | | |m1]; try done. by apply IH.
Qed.

Lemma navigate_none (m : obj) (ks : list string) :
  (∀ v, walk m ks ≠ Found v) → navigate (VObj m) ks = None.
Proof.
  intros Hno. destruct (navigate (VObj m) ks) as [cur|] eqn:E; [|done].
  apply navigate_walk_iff in E. by destruct (Hno cur).
Qed.

(** [_deleteNestedKey] on an object, by what the path leads to. *)
Lemma deleteNestedKey_eq (m : obj) (keyPath : string) (init : list string)
    (lastKey : string) :
  split_dot keyPath = (init ++ [lastKey])%list →
  _deleteNestedKey (VObj m) keyPath =
  match walk m init with
  | Found (VObj c) =>
      match c !! lastKey with
      | Some _ => cleanup_loop (length init) (init ++ [lastKey])%list
                    (VObj (del m init lastKey))
      | None => Return (VObj m)
      end
  | _ => Return (VObj m)
  end.
Proof.
  intros Hsplit. unfold _deleteNestedKey, _cleanupEmptyObjects.
  rewrite Hsplit, pop_snoc. cbn [property_name].
  destruct (walk m init) as [cur| |] eqn:Hw.
  - apply navigate_walk_iff in Hw. rewrite Hw.
    destruct cur as [| |b|n|t|l|c]; cbn [truthy _isObject andb];
      rewrite ?andb_false_r; try done.
    unfold has_in. cbn [own_property].
    destruct (c !! lastKey); [|done].
    rewrite delete_at_obj, length_app. cbn [length].
    by replace (length init + 1 - 1)%nat with (length init) by lia.
  - rewrite navigate_none; [done|]. intros v. by rewrite Hw.
  - rewrite navigate_none; [done|]. intros v. by rewrite Hw.
Qed.

(** What [_deleteNestedKey] does to an object that holds a value at the
    path. *)
Lemma deleteNestedKey_found (m : obj) (keyPath : string) (v : value) :
  walk m (split_dot keyPath) = Found v →
  ∃ m', _deleteNestedKey (VObj m) keyPath = Return (VObj m')
  ∧ walk m' (split_dot keyPath) = Missing
  ∧ (∀ ks, walk m ks = Missing → walk m' ks = Missing)
  ∧ (∀ ks w, walk m ks = Found w → _isObject w = false →
             (∀ Q, ks ≠ (split_dot keyPath ++ Q)%list) →
             walk m' ks = Found w).
Proof.
  intros Hw. destruct (split_dot_snoc keyPath) as (init & lastKey & Hsplit).
  pose proof (split_dot_keys_dot_free keyPath) as Hfree.
  rewrite (deleteNestedKey_eq m keyPath init lastKey Hsplit).
  rewrite Hsplit in *. apply Forall_app in Hfree as [Hfree _].
  apply walk_snoc in Hw as (c & Hc & Hlast). rewrite Hc, Hlast.
  destruct (del_leaf m c init lastKey Hc) as [Hcont Hgone].
  destruct (cleanup_loop_inv (length init) init lastKey (del m init lastKey))
    as (m2 & -> & Hmiss & Hfound); [done|lia| |].
  - intros j _.
    destruct (walk_prefix_object m (take j init) (drop j init) c) as (cj & Hcj);
      [by rewrite take_drop|].
    pose proof (walk_del_ancestor m _ (drop j init) lastKey cj Hcj) as Hanc.
    by rewrite take_drop in Hanc.
  - exists m2. split; [done|]. split; [by apply Hmiss|]. split.
    + intros ks Hks. apply Hmiss. by apply walk_del_missing.
    + intros ks w Hks Hobj Hne. apply Hfound; [|done].
      by apply walk_del_frame.
Qed.

(** X1. Deleting a path of ordinary keys that holds a value:
    [_deleteNestedKey] returns (it does not throw), and afterwards
    [_getNestedValue] at that path gives the default value, whatever it
    is. *)
Theorem deleteNestedKey_removes_value (m : obj) (keyPath : string) (v : value) :
  ordinary_path (split_dot keyPath) = true →
  walk m (split_dot keyPath) = Found v →
  ∃ m', _deleteNestedKey (VObj m) keyPath = Return (VObj m')
  ∧ ∀ d, _getNestedValue (VObj m') keyPath d = d.
Proof.
  intros _ Hw. destruct (deleteNestedKey_found m keyPath v Hw)
    as (m' & Hrun & Hgone & _).
  exists m'. split; [done|]. intros d. by apply get_keys_missing.
Qed.

(** X2. Deleting a path keeps every other value that is not a mapping:
    what [_getNestedValue] found at a path that does not extend the deleted
    one, it finds there afterwards. *)
Theorem deleteNestedKey_keeps_other_values (m : obj) (keyPath other : string)
    (v w d : value) :
  walk m (split_dot keyPath) = Found v →
  walk m (split_dot other) = Found w → _isObject w = false →
  ¬ (split_dot keyPath `prefix_of` split_dot other) →
  ∃ m', _deleteNestedKey (VObj m) keyPath = Return (VObj m')
  ∧ _getNestedValue (VObj m') other d = w.
Proof.
  intros Hw Hother Hobj Hpre. destruct (deleteNestedKey_found m keyPath v Hw)
    as (m' & Hrun & _ & _ & Hfound).
  exists m'. split; [done|]. apply get_keys_walk. apply Hfound; [done..|].
  intros Q HQ. apply Hpre. by exists Q.
Qed.

(** X3. Deleting a path brings nothing into being: for paths of ordinary
    keys, a path at which a segment was missing from a mapping reads as the
    default value afterwards. *)
Theorem deleteNestedKey_adds_nothing (m : obj) (keyPath other : string)
    (v d : value) :
  ordinary_path (split_dot keyPath) = true →
  ordinary_path (split_dot other) = true →
  walk m (split_dot keyPath) = Found v →
  walk m (split_dot other) = Missing →
  ∃ m', _deleteNestedKey (VObj m) keyPath = Return (VObj m')
  ∧ _getNestedValue (VObj m') other d = d.
Proof.
  intros _ _ Hw Hother. destruct (deleteNestedKey_found m keyPath v Hw)
    as (m' & Hrun & _ & Hmiss & _).
  exists m'. split; [done|]. apply get_keys_missing. by apply Hmiss.
Qed.

(** X4. For a path of ordinary keys, [_deleteNestedKey] leaves its
    argument as it is when the path does not lead, through plain objects
    only, to a property: a missing segment, a scalar, [null] or an array
    on the way, or an argument that is not a plain object. *)
Theorem deleteNestedKey_absent_is_noop (obj : value) (keyPath : string) :
  ordinary_path (split_dot keyPath) = true →
  (∀ m v, obj = VObj m → walk m (split_dot keyPath) ≠ Found v) →
  _deleteNestedKey obj keyPath = Return obj.
Proof.
  intros _ Habsent. destruct (split_dot_snoc keyPath) as (init & lastKey & Hsplit).
  destruct obj as [| |b|n|t|l|m].
  7: { rewrite (deleteNestedKey_eq m keyPath init lastKey Hsplit).
       destruct (walk m init) as [cur| |] eqn:Hw; [|done..].
       destruct cur as [| | | | | |c]; try done.
       destruct (c !! lastKey) as [x|] eqn:Hx; [|done].
       destruct (Habsent m x eq_refl). rewrite Hsplit. apply walk_snoc. eauto. }
  all: unfold _deleteNestedKey; rewrite Hsplit, pop_snoc.
  all: destruct init as [|k ks]; cbn [navigate truthy _isObject negb orb andb];
    rewrite ?orb_true_r, ?andb_false_r; done.
Qed.

(** X5. The clean-up after a deletion looks, in each container of the
    path, for a property named like the container itself. So, on a path of
    ordinary keys, a container that the deletion has emptied stays where it
    is, as an empty mapping: unless it holds an empty mapping under its own
    name, the result is the object with the one property deleted and
    nothing else changed. *)
Theorem deleteNestedKey_keeps_emptied_container (m c : obj) (keyPath : string)
    (pre : list string) (name lastKey : string) (v d : value) :
  ordinary_path (split_dot keyPath) = true →
  split_dot keyPath = (pre ++ [name; lastKey])%list →
  (pre ++ [name])%list ≠ [""] →
  walk m (pre ++ [name])%list = Found (VObj c) →
  c !! lastKey = Some v →
  delete lastKey c !! name ≠ Some (VObj ∅) →
  _deleteNestedKey (VObj m) keyPath
  = Return (delete_at (VObj m) (pre ++ [name])%list lastKey)
  ∧ get_keys (delete_at (VObj m) (pre ++ [name])%list lastKey)
      (pre ++ [name])%list d = VObj (delete lastKey c).
Proof.
  intros _ Hsplit Hquirk Hc Hlast Hname.
  set (init := (pre ++ [name])%list) in *.
  assert (Hsplit' : split_dot keyPath = (init ++ [lastKey])%list).
  { rewrite Hsplit. unfold init. by rewrite <- app_assoc. }
  pose proof (split_dot_keys_dot_free keyPath) as Hfree.
  rewrite Hsplit' in Hfree. apply Forall_app in Hfree as [Hfree _].
  rewrite (deleteNestedKey_eq m keyPath init lastKey Hsplit'), Hc, Hlast.
  destruct (del_leaf m c init lastKey Hc) as [Hcont _].
  split; [|rewrite delete_at_obj; by apply get_keys_walk].
  assert (Hlen : length init = S (length pre)).
  { unfold init. rewrite length_app. simpl. lia. }
  assert (Htake : take (S (length pre)) init = init).
  { rewrite <- Hlen. apply firstn_all. }
  assert (Hk : init !! length pre = Some name).
  { unfold init. by rewrite lookup_app_r, Nat.sub_diag. }
  rewrite Hlen.
  destruct (cleanup_loop_step (length pre) init lastKey name
              (del m init lastKey) (delete lastKey c) Hfree Hk)
    as (c' & Hc' & ->); [by rewrite Htake|].
  rewrite Htake in Hc'. rewrite decide_False in Hc' by done.
  rewrite Hcont in Hc'. injection Hc' as <-.
  destruct (_isObject _ && has_no_keys _) eqn:He.
  - by apply empty_member in He.
  - f_equal. symmetry. apply delete_at_obj.
Qed.

(** X6. The other side of the same look-up: an empty mapping that the
    container holds under its own name is removed by the clean-up,
    although the deleted path does not lead to it. *)
Theorem deleteNestedKey_removes_namesake (m c : obj) (keyPath : string)
    (pre : list string) (name lastKey : string) (v : value) :
  split_dot keyPath = (pre ++ [name; lastKey])%list →
  (pre ++ [name])%list ≠ [""] →
  walk m (pre ++ [name])%list = Found (VObj c) →
  c !! lastKey = Some v →
  delete lastKey c !! name = Some (VObj ∅) →
  walk m (pre ++ [name; name])%list = Found (VObj ∅)
  ∧ ∃ m', _deleteNestedKey (VObj m) keyPath = Return (VObj m')
    ∧ walk m' (pre ++ [name; name])%list = Missing.
Proof.
  intros Hsplit Hquirk Hc Hlast Hname.
  set (init := (pre ++ [name])%list) in *.
  assert (Hnn : (pre ++ [name; name])%list = (init ++ [name])%list).
  { unfold init. by rewrite <- app_assoc. }
  rewrite Hnn. split.
  { apply walk_snoc. exists c. split; [done|].
    destruct (decide (lastKey = name)) as [->|Hne].
    - by rewrite lookup_delete_eq in Hname.
    - by rewrite lookup_delete_ne in Hname. }
  assert (Hsplit' : split_dot keyPath = (init ++ [lastKey])%list).
  { rewrite Hsplit. unfold init. by rewrite <- app_assoc. }
  pose proof (split_dot_keys_dot_free keyPath) as Hfree.
  rewrite Hsplit' in Hfree. apply Forall_app in Hfree as [Hfree _].
  rewrite (deleteNestedKey_eq m keyPath init lastKey Hsplit'), Hc, Hlast.
  destruct (del_leaf m c init lastKey Hc) as [Hcont _].
  assert (Hlen : length init = S (length pre)).
  { unfold init. rewrite length_app. simpl. lia. }
  assert (Htake : take (S (length pre)) init = init).
  { rewrite <- Hlen. apply firstn_all. }
  assert (Hk : init !! length pre = Some name).
  { unfold init. by rewrite lookup_app_r, Nat.sub_diag. }
  rewrite Hlen.
  destruct (cleanup_loop_step (length pre) init lastKey name
              (del m init lastKey) (delete lastKey c) Hfree Hk)
    as (c' & Hc' & ->); [by rewrite Htake|].
  rewrite Htake in Hc'. rewrite decide_False in Hc' by done.
  rewrite Hcont in Hc'. injection Hc' as <-.
  rewrite decide_False by (by rewrite Htake). rewrite Htake.
  rewrite (proj2 (empty_member _ _) Hname).
  set (m1 := del m init lastKey) in *.
  destruct (del_leaf m1 _ init name Hcont) as [_ Hgone].
  destruct (cleanup_loop_inv (length pre) init lastKey (del m1 init name))
    as (m2 & -> & Hmiss & _); [done|lia| |].
  - intros j _.
    destruct (walk_prefix_object m1 (take j init) (drop j init)
                (delete lastKey c)) as (cj & Hcj); [by rewrite take_drop|].
    pose proof (walk_del_ancestor m1 _ (drop j init) name cj Hcj) as Hanc.
    by rewrite take_drop in Hanc.
  - exists m2. split; [done|]. by apply Hmiss.
Qed.

(** The deletion of the test of the deployment options. *)
Lemma deleteNestedKey_removes_value_witness :
  let m : obj :=
    {[ "deploy" := VObj {[ "defaultTags" := VArr [VStr "new-tag"];
                           "filters" := VObj {[ "advanced" := VBool true ]} ]} ]} in
  ∃ m', _deleteNestedKey (VObj m) "deploy.filters.advanced" = Return (VObj m')
  ∧ ∀ d, _getNestedValue (VObj m') "deploy.filters.advanced" d = d.
Proof.
  intros m.
  apply (deleteNestedKey_removes_value m "deploy.filters.advanced" (VBool true));
    vm_compute; reflexivity.
Defined.

Lemma deleteNestedKey_keeps_other_values_witness :
  let m : obj :=
    {[ "deploy" := VObj {[ "defaultTags" := VArr [VStr "new-tag"];
                           "filters" := VObj {[ "advanced" := VBool true ]} ]} ]} in
  ∃ m', _deleteNestedKey (VObj m) "deploy.filters.advanced" = Return (VObj m')
  ∧ _getNestedValue (VObj m') "deploy.defaultTags" VUndefined
    = VArr [VStr "new-tag"].
Proof.
  intros m.
  apply (deleteNestedKey_keeps_other_values m "deploy.filters.advanced"
           "deploy.defaultTags" (VBool true)).
  - vm_compute. reflexivity.
  - vm_compute. reflexivity.
  - reflexivity.
  - intros [Q HQ]. vm_compute in HQ. discriminate.
Defined.

Lemma deleteNestedKey_adds_nothing_witness :
  let m : obj :=
    {[ "deploy" := VObj {[ "filters" := VObj {[ "advanced" := VBool true ]} ]} ]} in
  ∃ m', _deleteNestedKey (VObj m) "deploy.filters.advanced" = Return (VObj m')
  ∧ _getNestedValue (VObj m') "deploy.filters.simple" (VStr "default")
    = VStr "default".
Proof.
  intros m.
  apply (deleteNestedKey_adds_nothing m "deploy.filters.advanced"
           "deploy.filters.simple" (VBool true)); vm_compute; reflexivity.
Defined.

(** A path through an array: [_getNestedValue] reads the element,
    [_deleteNestedKey] does not remove it. *)
Lemma deleteNestedKey_absent_is_noop_witness :
  let config := VObj {[ "tags" := VArr [VStr "a"] ]} in
  _getNestedValue config "tags.0" VUndefined = VStr "a"
  ∧ _deleteNestedKey config "tags.0" = Return config.
Proof.
  intros config. split; [vm_compute; reflexivity|].
  apply (deleteNestedKey_absent_is_noop config "tags.0").
  - vm_compute. reflexivity.
  - intros m v [= <-]. vm_compute. discriminate.
Defined.

(** The configuration of the test, after the deletion. *)
Lemma deleteNestedKey_keeps_emptied_container_witness :
  let m : obj :=
    {[ "deploy" := VObj {[ "filters" := VObj {[ "advanced" := VBool true ]} ]} ]} in
  _deleteNestedKey (VObj m) "deploy.filters.advanced"
  = Return (VObj {[ "deploy" := VObj {[ "filters" := VObj ∅ ]} ]}).
Proof.
  intros m.
  destruct (deleteNestedKey_keeps_emptied_container m
              {[ "advanced" := VBool true ]} "deploy.filters.advanced"
              ["deploy"] "filters" "advanced" (VBool true) VUndefined)
    as [Hrun _].
  - vm_compute. reflexivity.
  - vm_compute. reflexivity.
  - discriminate.
  - vm_compute. reflexivity.
  - vm_compute. reflexivity.
  - vm_compute. discriminate.
  - rewrite Hrun. vm_compute. reflexivity.
Defined.

Lemma deleteNestedKey_removes_namesake_witness :
  let m : obj :=
    {[ "a" := VObj {[ "b" := VObj {[ "z" := VNum 1; "b" := VObj ∅ ]} ]} ]} in
  walk m ["a"; "b"; "b"] = Found (VObj ∅)
  ∧ ∃ m', _deleteNestedKey (VObj m) "a.b.z" = Return (VObj m')
    ∧ walk m' ["a"; "b"; "b"] = Missing.
Proof.
  intros m.
  apply (deleteNestedKey_removes_namesake m {[ "z" := VNum 1; "b" := VObj ∅ ]}
           "a.b.z" ["a"] "b" "z" (VNum 1)).
  - vm_compute. reflexivity.
  - discriminate.
  - vm_compute. reflexivity.
  - vm_compute. reflexivity.
  - vm_compute. reflexivity.
Defined.
End EditFacts.

(** ** Merging: falsy operands, keys, undefined options *)

Module MergeFacts.
Import JS Errors Eff ConfigurationManager Paths Shapes.
Import JSFacts ConfigurationFacts.

Lemma sanitize_empty : _sanitizeCliOptions (VObj ∅) = ∅.
Proof. reflexivity. Qed.

Lemma deepMerge_empty_source (A : obj) : _deepMerge (VObj A) (VObj ∅) = A.
Proof. reflexivity. Qed.

Lemma mergeConfigurations_no_options (g p : value) :
  _mergeConfigurations g p (VObj ∅) = _deepMerge g p.
Proof. reflexivity. Qed.

(** X7. [_deepMerge] takes a falsy operand for an empty mapping: with a
    falsy target the result holds the properties of a source mapping (of
    ordinary keys), with a falsy source those of a target mapping. *)
Theorem deepMerge_falsy_operand (A B : obj) (target source : value) :
  (truthy target = false → ordinary (VObj B) = true →
   _deepMerge target (VObj B) = B)
  ∧ (truthy source = false → _deepMerge (VObj A) source = A).
Proof.
  split.
  - intros Hf _. apply map_eq. intros key. rewrite deepMerge_lookup, Hf.
    cbn [negb truthy own_enumerable].
    destruct (B !! key) as [sv|] eqn:Hs; [|done].
    rewrite merge_property_eq. unfold get_prop. cbn [own_property].
    rewrite lookup_empty. cbn [_isObject]. by rewrite andb_false_r.
  - intros Hf. unfold _deepMerge. rewrite Hf. cbn [negb truthy own_enumerable].
    by rewrite map_fold_empty.
Qed.

(** X8. The merge loses no key: for a source of ordinary keys, the keys of
    the result are those of the target together with those of the
    source. *)
Theorem merge_keeps_every_key (A B : obj) :
  ordinary (VObj B) = true →
  dom (_deepMerge (VObj A) (VObj B)) = dom A ∪ dom B.
Proof.
  intros _.
  apply set_eq. intros key. rewrite elem_of_union, !elem_of_dom.
  rewrite deepMerge_objects_lookup. unfold is_Some.
  destruct (B !! key) as [b|]; split.
  - intros _. right. eauto.
  - intros _. eauto.
  - intros H. by left.
  - intros [H|[x H]]; [done|discriminate].
Qed.

(** The keys of a global and a project fragment. *)
Lemma merge_keeps_every_key_witness :
  let A : obj := {[ "name" := VStr "global"; "verbose" := VBool true ]} in
  let B : obj := {[ "name" := VStr "demo";
                    "deploy" := VObj {[ "force" := VBool true ]} ]} in
  dom (_deepMerge (VObj A) (VObj B)) = dom A ∪ dom B.
Proof.
  intros A B. apply (merge_keeps_every_key A B). vm_compute. reflexivity.
Defined.

(** X9. For mappings of ordinary keys: a command-line option that is
    [undefined] at the top level leaves the key to the lower layers. *)
Theorem undefined_option_falls_through (g p c : obj) (key : string) :
  ordinary (VObj g) = true → ordinary (VObj p) = true →
  ordinary (VObj c) = true →
  c !! key = Some VUndefined →
  _mergeConfigurations (VObj g) (VObj p) (VObj c) !! key
  = _deepMerge (VObj g) (VObj p) !! key.
Proof.
  intros _ _ _ Hkey. unfold _mergeConfigurations.
  rewrite deepMerge_objects_lookup, sanitize_lookup. cbn [own_enumerable].
  by rewrite Hkey.
Qed.

Lemma walk_sanitize_nested (o : obj) (key k2 : string) (rest : list string)
    (v : value) :
  walk o (key :: k2 :: rest) = Found v →
  walk (_sanitizeCliOptions (VObj o)) (key :: k2 :: rest) = Found v.
Proof.
  rewrite !walk_cons, sanitize_lookup. cbn [own_enumerable].
  destruct (o !! key) as [x|]; [|done]. by destruct x.
Qed.

(** X10. Only the top level is sanitized: for mappings of ordinary keys,
    an [undefined] that the options hold below the top level is merged
    like any value, and [get] returns it in place of what the files hold
    and of the default value. *)
Theorem nested_undefined_option_masks (g p o : obj) (key k2 : string)
    (rest : list string) (d : value) :
  ordinary (VObj g) = true → ordinary (VObj p) = true →
  ordinary (VObj o) = true →
  walk o (key :: k2 :: rest) = Found VUndefined →
  get_keys (VObj (_mergeConfigurations (VObj g) (VObj p) (VObj o)))
    (key :: k2 :: rest) d = VUndefined.
Proof.
  intros _ _ _ Hw. apply get_keys_walk. unfold _mergeConfigurations.
  apply walk_merge_found; [|done]. by apply walk_sanitize_nested.
Qed.

Lemma undefined_option_falls_through_witness :
  let g : obj := {[ "verbose" := VBool true ]} in
  let cli : obj := {[ "verbose" := VUndefined ]} in
  _mergeConfigurations (VObj g) (VObj ∅) (VObj cli) !! "verbose"
  = Some (VBool true).
Proof.
  intros g cli.
  rewrite (undefined_option_falls_through g ∅ cli "verbose");
    vm_compute; reflexivity.
Defined.

Lemma nested_undefined_option_masks_witness :
  let p : obj := {[ "deploy" := VObj {[ "force" := VBool true ]} ]} in
  let o : obj := {[ "deploy" := VObj {[ "force" := VUndefined ]} ]} in
  get_keys (VObj (_mergeConfigurations (VObj ∅) (VObj p) (VObj o)))
    ["deploy"; "force"] (VStr "default") = VUndefined.
Proof.
  intros p o.
  apply (nested_undefined_option_masks ∅ p o "deploy" "force" []
           (VStr "default")); vm_compute; reflexivity.
Defined.

Lemma deepMerge_falsy_operand_witness :
  _deepMerge VNull (VObj {[ "a" := VNum 1 ]}) = {[ "a" := VNum 1 ]}
  ∧ _deepMerge (VObj {[ "a" := VNum 1 ]}) VUndefined = {[ "a" := VNum 1 ]}.
Proof.
  split.
  - apply (proj1 (deepMerge_falsy_operand ∅ {[ "a" := VNum 1 ]} VNull VNull));
      vm_compute; reflexivity.
  - apply (proj2 (deepMerge_falsy_operand {[ "a" := VNum 1 ]} ∅ VNull VUndefined)).
    reflexivity.
Defined.
End MergeFacts.

(** ** Saving and loading again *)

Module SaveFacts.
Import JS Errors Eff ConfigurationManager Paths Shapes.
Import JSFacts ConfigurationFacts EditFacts MergeFacts.

(** What [JSON.stringify] and [JSON.parse] keep of an object, key by
    key. *)
Lemma json_image_lookup (m : obj) (key : string) :
  own_enumerable (json_image (VObj m)) !! key =
  match m !! key with
  | Some VUndefined | None => None
  | Some x => Some (json_image x)
  end.
Proof.
  cbn [json_image own_enumerable].
  apply (map_fold_weak_ind
    (fun r m => r !! key = match m !! key with
                           | Some VUndefined | None => None
                           | Some x => Some (json_image x)
                           end)).
  - by rewrite !lookup_empty.
  - intros i x m' r Hi IH.
    destruct (decide (i = key)) as [->|Hne].
    + rewrite lookup_insert_eq. rewrite Hi in IH.
      destruct x; try done; by rewrite lookup_insert_eq.
    + rewrite (lookup_insert_ne m') by done.
      destruct x; try done; by rewrite lookup_insert_ne.
Qed.

Lemma json_image_obj (m : obj) :
  json_image (VObj m) = VObj (own_enumerable (json_image (VObj m))).
Proof. reflexivity. Qed.

Lemma json_image_scalar (v : value) : json_scalar v = true → json_image v = v.
Proof. by destruct v. Qed.

(** A scalar that a path reaches is where it was after the round trip
    through JSON. *)
Lemma walk_json_image (m : obj) (keys : list string) (v : value) :
  walk m keys = Found v → json_scalar v = true →
  walk (own_enumerable (json_image (VObj m))) keys = Found v.
Proof.
  revert m. induction keys as [|key rest IH]; intros m Hw Hv.
  { simpl in Hw. injection Hw as <-. done. }
  rewrite walk_cons in *. rewrite json_image_lookup.
  destruct (m !! key) as [x|]; [|done].
  destruct rest as [|k2 r].
  - injection Hw as ->. rewrite json_image_scalar by done. by destruct v.
  - destruct x as [| | | | | |m1]; try done.
    rewrite json_image_obj. by apply IH.
Qed.

(** [walk_merge_found] for a lower layer that is any value. *)
Lemma walk_merge_found_any (T : value) (B : obj) (keys : list string)
    (v : value) :
  walk B keys = Found v → _isObject v = false →
  walk (_deepMerge T (VObj B)) keys = Found v.
Proof.
  intros Hw Hv. destruct keys as [|key rest].
  { simpl in Hw. injection Hw as <-. done. }
  rewrite walk_cons in *. rewrite deepMerge_lookup. cbn [truthy negb own_enumerable].
  destruct (B !! key) as [b|]; [|done].
  rewrite merge_property_eq.
  destruct rest as [|k2 r].
  - injection Hw as ->. by rewrite Hv.
  - destruct b as [| | | | | |bm]; try done. cbn [_isObject andb].
    destruct (get_prop _ key) as [| | | | | |am]; cbn [_isObject]; try done.
    by apply walk_merge_found.
Qed.

(** X11. With the merge of the class, and a configuration and fragments
    whose keys are all ordinary, a save throws exactly when the directory
    or the file cannot be written, and what it throws is the
    [FileSystemError] built from that failure. *)
Theorem save_throws_iff_write_fails (st : state) (config : obj) (e : error) :
  ordinary (VObj config) = true →
  ordinary (_globalConfig (this st)) = true →
  ordinary (_projectConfig (this st)) = true →
  (saveProjectConfig own_merge_method config st = Throw e
   ↔ ∃ cause, write_fault (env st) = Some cause
       ∧ e = FileSystemError (Some "save project config")
               (Some (project_config_path (env st))) (Some cause))
  ∧ (saveGlobalConfig own_merge_method config st = Throw e
     ↔ ∃ cause, write_fault (env st) = Some cause
         ∧ e = FileSystemError (Some "save global config")
                 (Some (global_config_path (env st))) (Some cause)).
Proof.
  intros _ _ _.
  destruct st as [[g p mc] [gj pj gp pp wf cw]].
  split; split.
  all: cbv [saveProjectConfig saveGlobalConfig write_project_json
            write_global_json rethrow mbind M_bind mret M_ret read_this
            write_this read_env write_env throw lift own_merge_method];
    cbn [this env write_fault _mergedConfig project_config_path
         global_config_path].
  all: destruct wf as [cause|]; cbn.
  all: try (intros [= <-]; by eauto).
  all: try (intros (cause' & [= <-] & ->); reflexivity).
  all: try (destruct mc; discriminate).
  all: by intros (cause' & Hc & _).
Qed.

(** A save on a disk without space. *)
Lemma save_throws_iff_write_fails_witness :
  let w := {| global_config_json := Absent; project_config_json := Absent;
              global_config_path := "/home/user/.rex/config.json";
              project_config_path := "/project/.rex/config.json";
              write_fault := Some (Error "ENOSPC: no space left on device");
              console_warn := [] |} in
  saveProjectConfig own_merge_method {[ "name" := VStr "demo" ]}
    {| this := constructor; env := w |}
  = Throw (FileSystemError (Some "save project config")
             (Some "/project/.rex/config.json")
             (Some (Error "ENOSPC: no space left on device"))).
Proof.
  intros w.
  destruct (save_throws_iff_write_fails {| this := constructor; env := w |}
              {[ "name" := VStr "demo" ]}
              (FileSystemError (Some "save project config")
                 (Some "/project/.rex/config.json")
                 (Some (Error "ENOSPC: no space left on device"))))
    as [[_ Hthrows] _]; [vm_compute; reflexivity..|].
  apply Hthrows. exists (Error "ENOSPC: no space left on device").
  split; reflexivity.
Defined.

(** X12. A string, integer, boolean or [null] saved in the project
    configuration is what a manager constructed afterwards reads at the
    same path, whatever the global file holds, when the keys of the saved
    configuration and of the global fragments are all ordinary. *)
Theorem saved_value_read_back (st : state) (config : obj) (path : string)
    (v d : value) :
  write_fault (env st) = None →
  ordinary (VObj config) = true →
  ordinary (_globalConfig (this st)) = true →
  ordinary (fragment_of (global_config_json (env st))) = true →
  walk config (split_dot path) = Found v → json_scalar v = true →
  ∃ st1, saveProjectConfig own_merge_method config st = Return (tt, st1)
  ∧ then_get (loadConfiguration own_merge_method (VObj ∅) (fresh (env st1)))
             path d = Return v.
Proof.
  destruct st as [[g p mc] [gj pj gp pp wf cw]]. cbn [env write_fault].
  intros -> _ _ _ Hw Hv.
  assert (Hrun : ∃ m1, saveProjectConfig own_merge_method config
                    (MkState (MkManager g p mc) (MkWorld gj pj gp pp None cw))
                  = Return (tt, MkState m1
                      (MkWorld gj (Holds (json_image (VObj config))) gp pp None cw))).
  { destruct mc; eexists; reflexivity. }
  destruct Hrun as (m1 & Hrun). eexists. split; [exact Hrun|].
  cbn [env].
  set (w1 := MkWorld gj (Holds (json_image (VObj config))) gp pp None cw).
  destruct (load_own_method (VObj ∅) (fresh w1)) as (st2 & Hload & Hthis).
  rewrite Hload. cbn [then_get is_undefined] in *.
  unfold get. cbv [mbind M_bind read_this mret M_ret]. rewrite Hthis.
  cbn [_mergedConfig]. f_equal. unfold _getNestedValue.
  apply get_keys_walk. rewrite mergeConfigurations_no_options.
  cbn [fresh env w1 project_config_json fragment_of json_image truthy].
  apply walk_merge_found_any; [|by destruct v].
  by apply walk_json_image.
Qed.
Lemma saved_value_read_back_witness :
  let st := fresh (world_holding (Holds (VObj {[ "deploy" := VStr "global" ]}))
                                 Absent) in
  let config : obj :=
    {[ "deploy" := VObj {[ "defaultUtility" := VStr "cursor";
                           "draft" := VUndefined ]} ]} in
  ∃ st1, saveProjectConfig own_merge_method config st = Return (tt, st1)
  ∧ then_get (loadConfiguration own_merge_method (VObj ∅) (fresh (env st1)))
             "deploy.defaultUtility" VUndefined = Return (VStr "cursor").
Proof.
  intros st config.
  apply (saved_value_read_back st config "deploy.defaultUtility" (VStr "cursor")
           VUndefined); vm_compute; reflexivity.
Defined.

(** Where both layers run into a missing key, so does the merge. *)
Lemma walk_merge_both_missing (A B : obj) (keys : list string) :
  walk A keys = Missing → walk B keys = Missing →
  walk (_deepMerge (VObj A) (VObj B)) keys = Missing.
Proof.
  revert A B. induction keys as [|key rest IH]; intros A B HA HB; [done|].
  rewrite walk_cons in *. rewrite deepMerge_objects_lookup.
  destruct (B !! key) as [b|].
  - rewrite merge_property_eq.
    destruct rest as [|k2 r]; [done|].
    destruct b as [| | | | | |bm]; try done. cbn [_isObject andb].
    unfold get_prop. cbn [own_property].
    destruct (A !! key) as [[| | | | | |am]|]; cbn [_isObject]; try done.
    by apply IH.
  - destruct (A !! key); done.
Qed.

(** X13. Saving through a loaded manager merges anew from the global and
    the project configuration alone. After a load, a value that [set] has
    put at a path of ordinary keys is gone after the save, and [get] gives
    the default value again, when the saved configuration does not hold
    the path and the global fragment holds nothing at its first segment
    (so that [set] has written to no object of the global fragment). *)
Theorem save_forgets_set (g p o config : obj) (w : world) (path first : string)
    (rest : list string) (v d : value) :
  global_config_json w = Holds (VObj g) →
  project_config_json w = Holds (VObj p) →
  write_fault w = None →
  ordinary (VObj g) = true → ordinary (VObj p) = true →
  ordinary (VObj o) = true → ordinary (VObj config) = true →
  ordinary_path (split_dot path) = true →
  split_dot path = first :: rest →
  g !! first = None →
  walk config (split_dot path) = Missing →
  ∃ merged st1 st2 st3,
    loadConfiguration own_merge_method (VObj o) (fresh w) = Return (merged, st1)
    ∧ set path v st1 = Return (tt, st2)
    ∧ saveProjectConfig own_merge_method config st2 = Return (tt, st3)
    ∧ get path d st3 = Return (d, st3).
Proof.
  destruct w as [gj pj gp pp wf cw].
  cbn [global_config_json project_config_json write_fault].
  intros -> -> -> _ _ _ _ _ Hsplit Hfirst Hc.
  set (w := MkWorld (Holds (VObj g)) (Holds (VObj p)) gp pp None cw).
  set (loaded := _mergeConfigurations (VObj g) (VObj p) (VObj o)).
  exists loaded,
         (MkState (MkManager (VObj g) (VObj p) (Some loaded)) w),
         (MkState (MkManager (VObj g) (VObj p)
                     (Some (_setNestedValue loaded path v))) w),
         (MkState (MkManager (VObj g) (VObj config)
                     (Some (_mergeConfigurations (VObj g) (VObj config) (VObj ∅))))
            (MkWorld (Holds (VObj g)) (Holds (json_image (VObj config)))
               gp pp None cw)).
  split; [reflexivity|]. split; [reflexivity|]. split; [reflexivity|].
  cbv [get mbind M_bind read_this mret M_ret]. cbn [this _mergedConfig].
  f_equal. f_equal.
  apply get_keys_missing. rewrite mergeConfigurations_no_options.
  apply walk_merge_both_missing; [|done].
  by rewrite Hsplit, walk_cons, Hfirst.
Qed.

(** The load, [set] and save of a deployment flag. *)
Lemma save_forgets_set_witness :
  let g : obj := {[ "name" := VStr "global" ]} in
  let w := world_holding (Holds (VObj g)) (Holds (VObj ∅)) in
  ∃ merged st1 st2 st3,
    loadConfiguration own_merge_method (VObj ∅) (fresh w) = Return (merged, st1)
    ∧ set "deploy.force" (VBool true) st1 = Return (tt, st2)
    ∧ saveProjectConfig own_merge_method {[ "name" := VStr "demo" ]} st2
      = Return (tt, st3)
    ∧ get "deploy.force" (VBool false) st3 = Return (VBool false, st3).
Proof.
  intros g w.
  apply (save_forgets_set g ∅ ∅ {[ "name" := VStr "demo" ]} w "deploy.force"
           "deploy" ["force"] (VBool true) (VBool false));
    vm_compute; reflexivity.
Defined.

Lemma split_utility_path (utilityName key : string) :
  dot_free utilityName = true → dot_free key = true →
  split_dot ("utilities." ++ utilityName ++ "." ++ key)
  = ["utilities"; utilityName; key].
Proof.
  intros Hn Hk.
  change ("utilities." ++ utilityName ++ "." ++ key)
    with ("utilities" ++ String "." (utilityName ++ String "." key)).
  rewrite split_dot_prepend by done.
  rewrite split_dot_prepend by done.
  by rewrite split_dot_dot_free.
Qed.

(** X14. A value that [setUtilityConfig] stores, when it is neither
    [undefined] nor a mapping, is what [get] reads at
    [utilities.<utilityName>.<key>] afterwards, for a utility name and a
    key that are ordinary keys without a dot, a project fragment that is a
    mapping, and fragments whose keys are all ordinary; the other
    utilities of the project configuration are as they were. *)
Theorem setUtilityConfig_then_get (st : state) (U E : obj)
    (utilityName key : string) (v d : value) :
  let project := own_enumerable (project_in_effect st) in
  write_fault (env st) = None →
  _isObject (project_in_effect st) = true →
  ordinary (project_in_effect st) = true →
  ordinary (global_in_effect st) = true →
  ordinary_key utilityName = true → ordinary_key key = true →
  ensured_object (get_prop (VObj project) "utilities") = Some U →
  ensured_object (get_prop (VObj U) utilityName) = Some E →
  is_undefined v = false → _isObject v = false →
  dot_free utilityName = true → dot_free key = true →
  ∃ st' U',
    setUtilityConfig own_merge_method utilityName key v st
    = Some (Return (tt, st'))
    ∧ get ("utilities." ++ utilityName ++ "." ++ key) d st' = Return (v, st')
    ∧ get_prop (_projectConfig (this st')) "utilities" = VObj U'
    ∧ ∀ other, other ≠ utilityName → U' !! other = U !! other.
Proof.
  intros project Hwf _ _ _ _ _ HU HE Hv Hobj Hn Hk.
  set (U' := <[utilityName := VObj (<[key := v]> E)]> U).
  set (cc := <["utilities" := VObj U']> project).
  assert (Hupd : utility_update (project_in_effect st) utilityName key v
                 = Some cc).
  { unfold utility_update. fold project. rewrite HU. cbn [mbind option_bind].
    rewrite HE. cbn [mbind option_bind]. by rewrite Hv. }
  destruct (setUtilityConfig_saves utilityName key v st cc Hwf Hupd)
    as (st' & Hrun & Hthis & _).
  exists st', U'. split; [done|]. split; [|split].
  - cbv [get mbind M_bind read_this mret M_ret]. rewrite Hthis.
    cbn [_mergedConfig]. f_equal. f_equal. unfold _getNestedValue.
    rewrite split_utility_path by done.
    apply get_keys_walk. rewrite mergeConfigurations_no_options.
    apply walk_merge_found_any; [|done].
    unfold cc, U'. rewrite walk_cons, lookup_insert_eq.
    rewrite walk_cons, lookup_insert_eq.
    by rewrite walk_cons, lookup_insert_eq.
  - rewrite Hthis. cbn [_projectConfig]. unfold get_prop. cbn [own_property].
    unfold cc. by rewrite lookup_insert_eq.
  - intros other Hne. unfold U'. by rewrite lookup_insert_ne.
Qed.

Lemma setUtilityConfig_then_get_witness :
  let project := VObj {[ "utilities" :=
                   VObj {[ "cursor" := VObj {[ "enabled" := VBool true ]} ]} ]} in
  let st := fresh (world_holding Absent (Holds project)) in
  ∃ st' U',
    setUtilityConfig own_merge_method "github-copilot" "enabled" (VBool false) st
    = Some (Return (tt, st'))
    ∧ get "utilities.github-copilot.enabled" VUndefined st'
      = Return (VBool false, st')
    ∧ get_prop (_projectConfig (this st')) "utilities" = VObj U'
    ∧ U' !! "cursor" = Some (VObj {[ "enabled" := VBool true ]}).
Proof.
  intros project st.
  destruct (setUtilityConfig_then_get st
              {[ "cursor" := VObj {[ "enabled" := VBool true ]} ]} ∅
              "github-copilot" "enabled" (VBool false) VUndefined)
    as (st' & U' & Hrun & Hget & HU & Hother);
    try (vm_compute; reflexivity).
  exists st', U'. split; [exact Hrun|]. split; [exact Hget|].
  split; [exact HU|]. rewrite Hother by discriminate. vm_compute. reflexivity.
Defined.
End SaveFacts.

(** ** Writing off a path *)

Module WriteFacts.
Import JS Errors Eff ConfigurationManager ConfigurationEdits Paths Shapes.
Import JSFacts ConfigurationFacts EditFacts.

(** A write along one path leaves what another path reaches, from the
    segment on at which the two part. *)
Lemma walk_set_keys_diverge (m : obj) (A B C pre : list string)
    (x y lastKey : string) (v w : value) :
  (pre ++ [lastKey])%list = (A ++ y :: C)%list → x ≠ y →
  walk m (A ++ x :: B)%list = Found w →
  walk (set_keys m pre lastKey v) (A ++ x :: B)%list = Found w.
Proof.
  revert m pre. induction A as [|a A IH]; intros m pre Hpath Hne Hw.
  - cbn [app] in *. rewrite walk_cons in *.
    destruct pre as [|k pre'].
    + injection Hpath as -> _. cbn [set_keys].
      by rewrite lookup_insert_ne.
    + injection Hpath as -> _. cbn [set_keys].
      by rewrite lookup_insert_ne.
  - change ((a :: A) ++ x :: B)%list with (a :: A ++ x :: B)%list in *.
    destruct pre as [|k pre'].
    { apply (f_equal length) in Hpath. cbn in Hpath.
      rewrite length_app in Hpath. cbn in Hpath. lia. }
    injection Hpath as -> Hpath. cbn [set_keys].
    rewrite walk_cons in *. rewrite lookup_insert_eq.
    unfold has_in, get_prop. cbn [own_property].
    destruct (m !! a) as [z|]; [|done].
    destruct (A ++ x :: B)%list as [|k2 r] eqn:E; [by destruct A|].
    destruct z as [| | | | | |m1]; try done.
    cbn [_isObject negb orb own_enumerable]. by apply IH.
Qed.

(** X24. [set] changes nothing off its path: what [get] finds at a path
    that parts from the written one at some segment, it finds there
    afterwards. *)
Theorem set_keeps_values_off_the_path (st : state) (merged : obj)
    (path other : string) (A B C : list string) (x y : string) (v w d : value) :
  _mergedConfig (this st) = Some merged →
  split_dot path = (A ++ y :: C)%list →
  split_dot other = (A ++ x :: B)%list → x ≠ y →
  walk merged (split_dot other) = Found w →
  ∃ st', set path v st = Return (tt, st') ∧ get other d st' = Return (w, st').
Proof.
  destruct st as [[g p mc] world]. cbn [this _mergedConfig].
  intros -> Hpath Hother Hne Hw.
  eexists (MkState (MkManager g p (Some (_setNestedValue merged path v))) world).
  split; [reflexivity|].
  cbv [get mbind M_bind read_this mret M_ret]. cbn [this _mergedConfig].
  f_equal. f_equal. unfold _getNestedValue. apply get_keys_walk.
  unfold _setNestedValue.
  destruct (split_dot_snoc path) as (pre & lastKey & Hsplit).
  rewrite Hsplit, pop_snoc. cbn [property_name].
  rewrite Hother in *. eapply walk_set_keys_diverge; [|done..].
  by rewrite <- Hsplit.
Qed.

Lemma set_keeps_values_off_the_path_witness :
  let merged : obj :=
    {[ "deploy" := VObj {[ "defaultTags" := VArr [VStr "frontend"] ]} ]} in
  let st := MkState (MkManager (VObj ∅) (VObj ∅) (Some merged))
                    (world_holding Absent Absent) in
  ∃ st', set "deploy.filters.advanced" (VBool true) st = Return (tt, st')
         ∧ get "deploy.defaultTags" VUndefined st'
           = Return (VArr [VStr "frontend"], st').
Proof.
  intros merged st.
  apply (set_keeps_values_off_the_path st merged "deploy.filters.advanced"
           "deploy.defaultTags" ["deploy"] [] ["advanced"] "defaultTags"
           "filters"); try (vm_compute; reflexivity).
  discriminate.
Defined.
End WriteFacts.

(** ** Updating, saving and clearing the cache *)

Module CacheUpdateFacts.
Import JS Errors Eff CacheManager CacheUpdates Verdicts Shapes.
Import JSFacts CacheFacts SaveFacts.

(** [updateFileHash] in one equation. *)
Lemma updateFileHash_eq (d : disk) (filePath : string) (hashCache : obj) :
  ∃ d', updateFileHash filePath hashCache d
        = Return (match digest_of d filePath with
                  | Some h => <[filePath := VStr h]> hashCache
                  | None => hashCache
                  end, d')
        ∧ read_file d' = read_file d
        ∧ hashes_json d' = hashes_json d
        ∧ detection_json d' = detection_json d.
Proof.
  rewrite digest_of_eq. unfold updateFileHash. run_cache.
  destruct (read_file d filePath) as [cause|bytes].
  - eexists. repeat split.
  - cbv beta iota. rewrite sha256_hex_truthy. eexists. repeat split.
Qed.

Lemma verdict_eq (d : disk) (hashCache : value) (filePath : string) :
  nullish hashCache = false →
  verdict d hashCache filePath =
  match digest_of d filePath with
  | None => true
  | Some h => negb (truthy (get_prop hashCache filePath))
              || negb (strict_eq_string (get_prop hashCache filePath) h)
  end.
Proof.
  intros Hn. unfold verdict.
  destruct (hasFileChanged_eq d filePath hashCache) as (d' & -> & _); [by left|].
  done.
Qed.

(** X15. After [updateFileHash] on a file that can be read,
    [hasFileChanged] answers [false] for that file against the updated
    mapping. *)
Theorem updateFileHash_then_unchanged (d : disk) (filePath : string)
    (hashCache : obj) (bytes : list Byte.byte) :
  read_file d filePath = Content bytes →
  ∃ hashCache' d' d'',
    updateFileHash filePath hashCache d = Return (hashCache', d')
    ∧ hasFileChanged filePath (VObj hashCache') d' = Return (false, d'').
Proof.
  intros Hread.
  destruct (updateFileHash_eq d filePath hashCache) as (d' & Hrun & Hfiles & _).
  destruct (verdict_stable d' d (VObj (<[filePath :=
              VStr (Sha256.sha256_hex (Utf8.encode (Utf8.decode bytes)))]> hashCache))
              filePath Hfiles eq_refl) as (d'' & Hcheck & _).
  rewrite digest_of_eq, Hread in Hrun.
  eexists _, d', d''. split; [exact Hrun|]. rewrite Hcheck. f_equal. f_equal.
  rewrite verdict_eq by done. rewrite digest_of_eq, Hread.
  unfold get_prop. cbn [own_property]. rewrite lookup_insert_eq.
  cbn [strict_eq_string]. rewrite sha256_hex_truthy, String.eqb_refl. done.
Qed.

Lemma updateFileHash_then_unchanged_witness :
  let d := disk_with_file "/prompts/a.md" [] in
  ∃ hashCache' d' d'',
    updateFileHash "/prompts/a.md" {[ "/prompts/a.md" := VStr "stale" ]} d
    = Return (hashCache', d')
    ∧ hasFileChanged "/prompts/a.md" (VObj hashCache') d' = Return (false, d'').
Proof.
  intros d.
  apply (updateFileHash_then_unchanged d "/prompts/a.md"
           {[ "/prompts/a.md" := VStr "stale" ]} []).
  reflexivity.
Defined.

(** X16. [updateFileHash] touches the entry of its file only, and none at
    all when the file cannot be read: the answers of [hasFileChanged] for
    the other files are what they were. *)
Theorem updateFileHash_frame (d : disk) (filePath : string) (hashCache : obj) :
  ∃ hashCache' d',
    updateFileHash filePath hashCache d = Return (hashCache', d')
    ∧ (∀ other, other ≠ filePath → hashCache' !! other = hashCache !! other)
    ∧ (∀ other, other ≠ filePath →
         verdict d' (VObj hashCache') other = verdict d (VObj hashCache) other)
    ∧ (∀ cause, read_file d filePath = ReadFails cause →
         hashCache' = hashCache).
Proof.
  destruct (updateFileHash_eq d filePath hashCache) as (d' & Hrun & Hfiles & _).
  eexists _, d'. split; [exact Hrun|].
  assert (Hother : ∀ other, other ≠ filePath →
            match digest_of d filePath with
            | Some h => <[filePath := VStr h]> hashCache
            | None => hashCache
            end !! other = hashCache !! other).
  { intros other Hne. destruct (digest_of d filePath); [|done].
    by rewrite lookup_insert_ne. }
  split; [exact Hother|]. split.
  - intros other Hne. rewrite !verdict_eq by done.
    unfold get_prop. cbn [own_property]. rewrite Hother by done.
    by rewrite !digest_of_eq, Hfiles.
  - intros cause Hread. by rewrite digest_of_eq, Hread.
Qed.

Lemma filter_all {A} (f : A → bool) (l : list A) :
  (∀ x, f x = true) → List.filter f l = l.
Proof.
  intros Hall. induction l as [|x l IH]; simpl; [done|].
  by rewrite Hall, IH.
Qed.

Lemma filter_none {A} (f : A → bool) (l : list A) :
  (∀ x, f x = false) → List.filter f l = [].
Proof.
  intros Hall. induction l as [|x l IH]; simpl; [done|].
  by rewrite Hall.
Qed.

Lemma verdict_empty (d : disk) (filePath : string) :
  verdict d (VObj ∅) filePath = true.
Proof.
  rewrite verdict_eq by done. by destruct (digest_of d filePath).
Qed.

(** [getChangedFiles] against an empty mapping. *)
Lemma getChangedFiles_empty (d : disk) (filePaths : list string) :
  loaded_mapping d = VObj ∅ →
  ∃ d', getChangedFiles filePaths d = Return ((filePaths, []), d').
Proof.
  intros Hempty. unfold getChangedFiles.
  destruct (loadCache_eq d) as (dc & d1 & Hload & Hfiles & Hn).
  unfold mbind, M_bind. rewrite Hload. cbn [fst]. rewrite Hempty.
  destruct (classify_eq d (VObj ∅) filePaths eq_refl d1 [] [] Hfiles)
    as (d' & ->).
  exists d'. cbn [app]. rewrite filter_all by apply verdict_empty.
  rewrite filter_none; [done|]. intros p. by rewrite verdict_empty.
Qed.

(** A cache file that cannot be read empties the mapping [loadCache]
    returns. *)
Lemma rejected_read_empties_mapping (d : disk) (cause : error) :
  hashes_json d = Rejects cause ∨ detection_json d = Rejects cause →
  loaded_mapping d = VObj ∅.
Proof.
  intros Hcase. unfold loaded_mapping, loadCache. run_cache.
  destruct Hcase as [-> | ->]; [done|].
  by destruct (hashes_json d).
Qed.

(** X17. The two cache files are read inside one [try]: when either of
    them cannot be read, the fingerprints are dropped with it, and
    [getChangedFiles] reports every path as changed. *)
Theorem unreadable_cache_reports_all_changed (d : disk)
    (filePaths : list string) (cause : error) :
  hashes_json d = Rejects cause ∨ detection_json d = Rejects cause →
  ∃ d', getChangedFiles filePaths d = Return ((filePaths, []), d').
Proof.
  intros Hcase. apply getChangedFiles_empty.
  by eapply rejected_read_empties_mapping.
Qed.

Lemma unreadable_cache_reports_all_changed_witness :
  let digest := "83d544ccc223c057d2bf80d3f2a32982c32c3c0db8e2674820da5064783fb097" in
  let d := {| hashes_json := Resolves (VObj {[ "/prompts/a.md" := VStr digest ]});
              detection_json := Rejects (Error "ENOENT: no such file or directory");
              read_file := fun _ => Content [];
              console_warn := [] |} in
  ∃ d', getChangedFiles ["/prompts/a.md"; "/prompts/b.md"] d
        = Return ((["/prompts/a.md"; "/prompts/b.md"], []), d').
Proof.
  intros digest d.
  apply (unreadable_cache_reports_all_changed d _
           (Error "ENOENT: no such file or directory")).
  right. reflexivity.
Defined.

Ltac run_store :=
  cbv [saveCache clearCache getCacheStats on_files read_store console_log_line
       console_error_line mbind M_bind mret M_ret write_json_fault
       with_files with_cache_dir_exists with_hashes_json with_detection_json];
  cbn [files cacheDir cache_dir_exists ensure_dir_fault write_hashes_fault
       write_detection_fault remove_fault console_log console_error
       hashes_json detection_json read_file console_warn].

(** X18. What [saveCache] has written, [loadCache] reads: the image of
    the two caches under JSON, with an empty mapping for a cache that is
    falsy. *)
Theorem saveCache_then_loadCache (s : store) (hashCache detectionCache : value) :
  ensure_dir_fault s = None →
  write_hashes_fault s = None → write_detection_fault s = None →
  is_undefined hashCache = false → is_undefined detectionCache = false →
  ∃ s1 s2,
    saveCache hashCache detectionCache s = Return (tt, s1)
    ∧ on_files loadCache s1
      = Return ((if truthy hashCache then json_image hashCache else VObj ∅,
                 if truthy detectionCache then json_image detectionCache
                 else VObj ∅), s2)
    ∧ console_warn (files s2) = console_warn (files s)
    ∧ console_error s2 = console_error s.
Proof.
  destruct s as [[hj dj rf cw] cd ex ef hf df rm cl ce].
  cbn [ensure_dir_fault write_hashes_fault write_detection_fault].
  intros -> -> -> Hh Hd. run_store. rewrite Hh, Hd. run_store.
  eexists _, _. split; [reflexivity|].
  unfold loadCache. run_cache. run_store.
  assert (Ht : ∀ v, truthy (json_image v) = truthy v) by by intros [].
  rewrite !Ht. destruct (truthy hashCache), (truthy detectionCache); done.
Qed.

Lemma saveCache_then_loadCache_witness :
  let digest := "83d544ccc223c057d2bf80d3f2a32982c32c3c0db8e2674820da5064783fb097" in
  let s := {| files := disk_with_file "/prompts/a.md" [];
              cacheDir := "/project/.rex/cache"; cache_dir_exists := false;
              ensure_dir_fault := None; write_hashes_fault := None;
              write_detection_fault := None; remove_fault := None;
              console_log := []; console_error := [] |} in
  ∃ s1 s2,
    saveCache (VObj {[ "/prompts/a.md" := VStr digest ]}) VNull s
    = Return (tt, s1)
    ∧ on_files loadCache s1
      = Return ((VObj {[ "/prompts/a.md" := VStr digest ]}, VObj ∅), s2).
Proof.
  intros digest s.
  destruct (saveCache_then_loadCache s
              (VObj {[ "/prompts/a.md" := VStr digest ]}) VNull)
    as (s1 & s2 & Hsave & Hload & _); try reflexivity.
  exists s1, s2. split; [exact Hsave|]. rewrite Hload. vm_compute. reflexivity.
Defined.

(** X19. After [clearCache] has removed the cache directory,
    [getChangedFiles] reports every path as changed. When there is no
    cache directory, [clearCache] does nothing and prints nothing. *)
Theorem clearCache_then_all_changed (s : store) (filePaths : list string) :
  remove_fault s = None →
  ∃ s1,
    clearCache s = Return (tt, s1)
    ∧ (cache_dir_exists s = true →
       cache_dir_exists s1 = false
       ∧ ∃ d', getChangedFiles filePaths (files s1)
               = Return ((filePaths, []), d'))
    ∧ (cache_dir_exists s = false → s1 = s).
Proof.
  destruct s as [[hj dj rf cw] cd ex ef hf df rm cl ce].
  cbn [remove_fault cache_dir_exists]. intros ->.
  destruct ex; run_store.
  - eexists. split; [reflexivity|]. split; [|discriminate].
    intros _. split; [reflexivity|]. cbn [files].
    apply getChangedFiles_empty.
    eapply rejected_read_empties_mapping. by left.
  - eexists. split; [reflexivity|]. split; [discriminate|done].
Qed.

Lemma clearCache_then_all_changed_witness :
  let digest := "83d544ccc223c057d2bf80d3f2a32982c32c3c0db8e2674820da5064783fb097" in
  let s := {| files := {| hashes_json :=
                            Resolves (VObj {[ "/prompts/a.md" := VStr digest ]});
                          detection_json := Resolves (VObj ∅);
                          read_file := fun _ => Content [];
                          console_warn := [] |};
              cacheDir := "/project/.rex/cache"; cache_dir_exists := true;
              ensure_dir_fault := None; write_hashes_fault := None;
              write_detection_fault := None; remove_fault := None;
              console_log := []; console_error := [] |} in
  ∃ s1 d', clearCache s = Return (tt, s1)
    ∧ getChangedFiles ["/prompts/a.md"] (files s1)
      = Return ((["/prompts/a.md"], []), d').
Proof.
  intros digest s.
  destruct (clearCache_then_all_changed s ["/prompts/a.md"] eq_refl)
    as (s1 & Hrun & Hcleared & _).
  destruct (Hcleared eq_refl) as (_ & d' & Hchanged).
  exists s1, d'. split; [exact Hrun|exact Hchanged].
Defined.

(** X20. The handler of [getCacheStats] is never entered: the object it
    returns has no [error], and [exists] is what [fs.pathExists] says. Both
    sizes are 0 as soon as one of the two files cannot be read, whatever
    the other one holds. *)
Theorem getCacheStats_never_reports_error (s : store) :
  ∃ st s',
    getCacheStats s = Return (st, s')
    ∧ stats_error st = None
    ∧ stats_exists st = cache_dir_exists s
    ∧ stats_cacheDir st = cacheDir s
    ∧ hashCacheSize st
      = length (object_keys (own_enumerable (loaded_mapping (files s))))
    ∧ (∀ cause, hashes_json (files s) = Rejects cause
                ∨ detection_json (files s) = Rejects cause →
                hashCacheSize st = 0%nat ∧ detectionCacheSize st = 0%nat).
Proof.
  destruct s as [[hj dj rf cw] cd ex ef hf df rm cl ce].
  unfold loaded_mapping, loadCache. run_store. run_cache.
  destruct hj as [e|h]; [|destruct dj as [e|c]]; run_store;
    eexists _, _; do 5 (split; [reflexivity|]).
  all: intros cause [H|H]; try discriminate H; split; reflexivity.
Qed.
(** X27. [saveCache] is not atomic and never throws: when [hashes.json]
    has been written and [detection.json] cannot be, the new fingerprints
    stay on disk beside the old detection results, one line goes to
    [console.error], and the success line is not printed. *)
Theorem saveCache_is_not_atomic (s : store) (hashCache detectionCache : value)
    (cause : error) :
  ensure_dir_fault s = None → write_hashes_fault s = None →
  write_detection_fault s = Some cause →
  is_undefined hashCache = false → is_undefined detectionCache = false →
  ∃ s',
    saveCache hashCache detectionCache s = Return (tt, s')
    ∧ hashes_json (files s') = Resolves (json_image hashCache)
    ∧ detection_json (files s') = detection_json (files s)
    ∧ console_error s'
      = (console_error s ++ [("儲存快取失敗: " ++ message cause)%string])%list
    ∧ console_log s' = console_log s.
Proof.
  destruct s as [[hj dj rf cw] cd ex ef hf df rm cl ce].
  cbn [ensure_dir_fault write_hashes_fault write_detection_fault].
  intros -> -> -> Hh Hd. run_store. rewrite Hh, Hd. run_store.
  eexists. by repeat split.
Qed.

Lemma saveCache_is_not_atomic_witness :
  let s := {| files := {| hashes_json := Resolves (VObj ∅);
                          detection_json := Resolves (VObj ∅);
                          read_file := fun _ => Content [];
                          console_warn := [] |};
              cacheDir := "/project/.rex/cache"; cache_dir_exists := true;
              ensure_dir_fault := None; write_hashes_fault := None;
              write_detection_fault := Some (Error "ENOSPC: no space left on device");
              remove_fault := None;
              console_log := []; console_error := [] |} in
  ∃ s',
    saveCache (VObj {[ "/prompts/a.md" := VStr "0a" ]}) (VObj ∅) s
    = Return (tt, s')
    ∧ hashes_json (files s') = Resolves (VObj {[ "/prompts/a.md" := VStr "0a" ]})
    ∧ console_log s' = [].
Proof.
  intros s.
  destruct (saveCache_is_not_atomic s (VObj {[ "/prompts/a.md" := VStr "0a" ]})
              (VObj ∅) (Error "ENOSPC: no space left on device"))
    as (s' & Hrun & Hhashes & _ & _ & Hlog); try reflexivity.
  exists s'. split; [exact Hrun|]. split; [|exact Hlog].
  rewrite Hhashes. vm_compute. reflexivity.
Defined.
End CacheUpdateFacts.

(** ** The incremental compilation *)

Module CompilationFacts.
Import JS Errors Eff CacheManager CacheUpdates CompilationManager Verdicts Shapes.
Import Reports.
Import JSFacts CacheFacts SaveFacts CacheUpdateFacts.

Section Prompts.
Context {prompt : Type}.
Variable prompt_name : prompt → string.
Variable prompt_path : string → string.
Variable utilities : string → option (string → list Z → result execution).

Local Abbreviation path_of p := (prompt_path (prompt_name p)).

Lemma includes_filter (f : string → bool) (paths : list string) (q : string) :
  In q paths → includes (List.filter f paths) q = f q.
Proof.
  intros Hin. unfold includes.
  destruct (f q) eqn:Hf.
  - apply existsb_exists. exists q. split; [|apply String.eqb_refl].
    apply filter_In. by split.
  - destruct (existsb _ _) eqn:E; [|done].
    apply existsb_exists in E as (x & Hx & Heq).
    apply String.eqb_eq in Heq as <-.
    apply filter_In in Hx as [_ Hx]. congruence.
Qed.

(** X21. [getPromptsThatNeedCompilation] sorts the prompts by the answer
    of [hasFileChanged] for their own path, against the mapping
    [loadCache] has read: each prompt is in exactly one of the two lists,
    in the order of the input, and prompts with the same path are in the
    same list. *)
Theorem getPromptsThatNeedCompilation_sorts (d : disk) (prompts : list prompt) :
  let changed p := verdict d (loaded_mapping d) (path_of p) in
  ∃ d', getPromptsThatNeedCompilation prompt prompt_name prompt_path prompts d
        = Return ((List.filter changed prompts,
                   List.filter (fun p => negb (changed p)) prompts), d').
Proof.
  intros changed. unfold getPromptsThatNeedCompilation, getChangedFiles.
  destruct (loadCache_eq d) as (dc & d1 & Hload & Hfiles & Hn).
  unfold mbind, M_bind. rewrite Hload. cbn [fst].
  destruct (classify_eq d (loaded_mapping d) (List.map (λ p, path_of p) prompts)
              Hn d1 [] [] Hfiles) as (d' & ->).
  exists d'. cbn [app fst snd]. unfold mret, M_ret. f_equal. f_equal. f_equal.
  - apply filter_ext_in. intros p Hp. apply includes_filter.
    apply in_map_iff. eauto.
  - apply filter_ext_in. intros p Hp.
    rewrite (includes_filter (λ q, negb (verdict d (loaded_mapping d) q))); [done|].
    apply in_map_iff. eauto.
Qed.

(** What the loop of [compileWithUtility] and the reads of the cache leave
    as it is: the files of the prompts, the two cache files and the faults
    of the writes. *)
Local Abbreviation kept s s' :=
  (read_file (files s') = read_file (files s)
   ∧ hashes_json (files s') = hashes_json (files s)
   ∧ detection_json (files s') = detection_json (files s)
   ∧ ensure_dir_fault s' = ensure_dir_fault s
   ∧ write_hashes_fault s' = write_hashes_fault s
   ∧ write_detection_fault s' = write_detection_fault s).

Lemma digest_of_files (d d' : disk) (q : string) :
  read_file d' = read_file d → digest_of d' q = digest_of d q.
Proof. intros H. by rewrite !digest_of_eq, H. Qed.

Lemma on_files_loadCache (s : store) :
  ∃ dc s', on_files loadCache s = Return ((loaded_mapping (files s), dc), s')
           ∧ is_undefined dc = false ∧ kept s s'.
Proof.
  destruct s as [[hj dj rf cw] cd ex ef hf df rm cl ce].
  unfold on_files, loaded_mapping, loadCache. run_cache. cbn [files].
  destruct hj as [e|h].
  - eexists _, _. split; [reflexivity|]. by repeat split.
  - destruct dj as [e|c].
    + eexists _, _. split; [reflexivity|]. by repeat split.
    + eexists _, _. split; [reflexivity|]. split; [by destruct c as [| |[]|[]|[]| |]|].
      by repeat split.
Qed.

Lemma on_files_updateFileHash (s : store) (q : string) (hashCache : obj) :
  ∃ s', on_files (updateFileHash q hashCache) s
        = Return (match digest_of (files s) q with
                  | Some h => <[q := VStr h]> hashCache
                  | None => hashCache
                  end, s')
        ∧ kept s s'.
Proof.
  destruct (updateFileHash_eq (files s) q hashCache) as (d' & Hrun & H1 & H2 & H3).
  unfold on_files. rewrite Hrun. eexists. split; [reflexivity|].
  by repeat split.
Qed.

(** The loop of [compileWithUtility] returns; fingerprints that are up to
    date stay, and each prompt that was compiled with success has its
    fingerprint in the mapping. *)
Lemma compile_loop_records (execute : string → list Z → result execution)
    (prompts : list prompt) :
  ∀ (hashCache : obj) (results : list compiled) (s : store),
  ∃ hashCache' results' s',
    compile_loop prompt prompt_name prompt_path execute true prompts
      hashCache results s = Return ((hashCache', results'), s')
    ∧ kept s s'
    ∧ (∀ q h, digest_of (files s) q = Some h →
              hashCache !! q = Some (VStr h) → hashCache' !! q = Some (VStr h))
    ∧ (∀ p bytes r, In p prompts →
         read_file (files s) (path_of p) = Content bytes →
         execute (prompt_name p) (Utf8.decode bytes) = Return r →
         truthy (success r) = true →
         ∃ h, digest_of (files s) (path_of p) = Some h
              ∧ hashCache' !! path_of p = Some (VStr h)).
Proof.
  induction prompts as [|p rest IH]; intros hashCache results s.
  { eexists _, _, _. split; [reflexivity|]. split; [by repeat split|].
    split; [done|]. by intros p bytes r []. }
  cbn [compile_loop]. unfold mbind at 1, M_bind at 1, read_store at 1.
  assert (Hfailed : ∀ line results1,
     ∃ hashCache' results' s',
       (console_log_line line;;
        compile_loop prompt prompt_name prompt_path execute true rest
          hashCache results1) s = Return ((hashCache', results'), s')
       ∧ kept s s'
       ∧ (∀ q h, digest_of (files s) q = Some h →
             hashCache !! q = Some (VStr h) → hashCache' !! q = Some (VStr h))
       ∧ (∀ p bytes r, In p rest →
            read_file (files s) (path_of p) = Content bytes →
            execute (prompt_name p) (Utf8.decode bytes) = Return r →
            truthy (success r) = true →
            ∃ h, digest_of (files s) (path_of p) = Some h
                 ∧ hashCache' !! path_of p = Some (VStr h))).
  { intros line results1. unfold mbind, M_bind, console_log_line.
    match goal with |- context [compile_loop _ _ _ _ _ _ _ _ ?s1] =>
      destruct (IH hashCache results1 s1)
        as (hc' & rs' & s' & Hrun & Hkept & Hstay & Hrec) end.
    cbn [files ensure_dir_fault write_hashes_fault write_detection_fault] in *.
    exists hc', rs', s'. split; [exact Hrun|]. split; [exact Hkept|].
    split; [exact Hstay|exact Hrec]. }
  destruct (read_file (files s) (path_of p)) as [cause|bytes] eqn:Hread.
  - destruct (Hfailed ("  ✗ " ++ prompt_name p ++ ": " ++ message cause)
                (results ++ [Errored (prompt_name p) (message cause)])%list)
      as (hc' & rs' & s' & Hrun & Hkept & Hstay & Hrec).
    exists hc', rs', s'. split; [exact Hrun|]. split; [exact Hkept|].
    split; [exact Hstay|].
    intros p0 bytes r [<-|Hin] Hb; [congruence|]. by apply Hrec.
  - destruct (execute (prompt_name p) (Utf8.decode bytes)) as [r|error] eqn:Hexec.
    + destruct (truthy (success r)) eqn:Hsuccess; cbn [andb].
      * destruct (on_files_updateFileHash s (path_of p) hashCache)
          as (s1 & Hupd & Hk1).
        unfold mbind at 1, M_bind at 1. rewrite Hupd.
        rewrite digest_of_eq, Hread.
        set (h := Sha256.sha256_hex (Utf8.encode (Utf8.decode bytes))).
        unfold mbind, M_bind, console_log_line.
        match goal with |- context [compile_loop _ _ _ _ _ _ _ ?rs ?s2] =>
          destruct (IH (<[path_of p := VStr h]> hashCache) rs s2)
            as (hc' & rs' & s' & Hrun & Hkept & Hstay & Hrec) end.
        cbn [files ensure_dir_fault write_hashes_fault write_detection_fault] in *.
        assert (Hd : ∀ q, digest_of (files s1) q = digest_of (files s) q).
        { intros q. apply digest_of_files. tauto. }
        assert (Hr : read_file (files s1) = read_file (files s)) by tauto.
        exists hc', rs', s'. split; [exact Hrun|].
        split; [repeat split; intuition congruence|]. split.
        -- intros q h' Hq Hin. apply Hstay; [by rewrite Hd|].
           destruct (decide (q = path_of p)) as [->|Hne].
           ++ rewrite lookup_insert_eq. rewrite digest_of_eq, Hread in Hq.
              by injection Hq as <-.
           ++ by rewrite lookup_insert_ne.
        -- intros p0 bytes0 r0 [<-|Hin] Hb He Ht.
           ++ exists h. split; [by rewrite digest_of_eq, Hread|].
              apply Hstay; [by rewrite Hd, digest_of_eq, Hread|].
              by rewrite lookup_insert_eq.
           ++ destruct (Hrec p0 bytes0 r0 Hin) as (h0 & Hh0 & Hl0);
                [by rewrite Hr|done..|].
              exists h0. split; [by rewrite <- Hd|done].
      * unfold mbind at 1, M_bind at 1, mret at 1, M_ret at 1.
        destruct (Hfailed ("  ✓ " ++ prompt_name p)
                    (results ++ [Processed (prompt_name p) (success r)
                                   (outputPath r)])%list)
          as (hc' & rs' & s' & Hrun & Hkept & Hstay & Hrec).
        exists hc', rs', s'. split; [exact Hrun|]. split; [exact Hkept|].
        split; [exact Hstay|].
        intros p0 bytes0 r0 [<-|Hin] Hb He Ht; [congruence|]. by eapply Hrec.
    + destruct (Hfailed ("  ✗ " ++ prompt_name p ++ ": " ++ message error)
                  (results ++ [Errored (prompt_name p) (message error)])%list)
        as (hc' & rs' & s' & Hrun & Hkept & Hstay & Hrec).
      exists hc', rs', s'. split; [exact Hrun|]. split; [exact Hkept|].
      split; [exact Hstay|].
      intros p0 bytes0 r0 [<-|Hin] Hb He; [congruence|]. by eapply Hrec.
Qed.

Lemma saveCache_writes (s : store) (hashCache detectionCache : value) :
  ensure_dir_fault s = None →
  write_hashes_fault s = None → write_detection_fault s = None →
  is_undefined hashCache = false → is_undefined detectionCache = false →
  ∃ s', saveCache hashCache detectionCache s = Return (tt, s')
        ∧ hashes_json (files s') = Resolves (json_image hashCache)
        ∧ detection_json (files s') = Resolves (json_image detectionCache)
        ∧ read_file (files s') = read_file (files s).
Proof.
  destruct s as [[hj dj rf cw] cd ex ef hf df rm cl ce].
  cbn [ensure_dir_fault write_hashes_fault write_detection_fault].
  intros -> -> -> Hh Hd. run_store. rewrite Hh, Hd. run_store.
  eexists. by repeat split.
Qed.

Lemma loaded_mapping_resolved (d : disk) (h c : value) :
  hashes_json d = Resolves h → detection_json d = Resolves c →
  truthy h = true → loaded_mapping d = h.
Proof.
  intros Hh Hc Ht. unfold loaded_mapping, loadCache. run_cache.
  by rewrite Hh, Hc, Ht.
Qed.

(** X22. An incremental [compileWithUtility] whose cache writes succeed
    leaves, for each prompt it has compiled with success, the fingerprint
    of the prompt in [hashes.json]: the next [getChangedFiles] on the same
    files reports the prompt as unchanged. *)
Theorem compiled_prompts_unchanged_next_time (s : store) (utilityName : string)
    (execute : string → list Z → result execution) (prompts : list prompt)
    (loaded : obj) :
  utilities utilityName = Some execute →
  loaded_mapping (files s) = VObj loaded →
  ensure_dir_fault s = None →
  write_hashes_fault s = None → write_detection_fault s = None →
  ∃ results s' changed unchanged d',
    compileWithUtility prompt prompt_name prompt_path utilities utilityName
      prompts true s = Some (Return (results, s'))
    ∧ getChangedFiles (List.map (fun p => path_of p) prompts) (files s')
      = Return ((changed, unchanged), d')
    ∧ ∀ p bytes r, In p prompts →
        read_file (files s) (path_of p) = Content bytes →
        execute (prompt_name p) (Utf8.decode bytes) = Return r →
        truthy (success r) = true →
        In (path_of p) unchanged ∧ ¬ In (path_of p) changed.
Proof.
  intros Hutil Hloaded He Hh Hd. unfold compileWithUtility. rewrite Hutil.
  destruct (on_files_loadCache s) as (dc & s1 & Hload & _ & Hk1).
  rewrite Hload. cbn [fst]. rewrite Hloaded.
  destruct (compile_loop_records execute prompts loaded [] s1)
    as (hc & rs & s2 & Hloop & Hk2 & _ & Hrec).
  destruct (on_files_loadCache s2) as (dc' & s3 & Hload' & Hdc' & Hk3).
  destruct (saveCache_writes s3 (VObj hc) dc')
    as (s4 & Hsave & Hhj & Hdj & Hrf); [intuition congruence..|done|done|].
  unfold mbind, M_bind. rewrite Hloop. cbn [fst snd]. rewrite Hload'.
  cbn [snd]. rewrite Hsave.
  assert (Hfiles : read_file (files s4) = read_file (files s))
    by intuition congruence.
  assert (Hmap : loaded_mapping (files s4) = json_image (VObj hc)).
  { by eapply loaded_mapping_resolved. }
  destruct (loadCache_eq (files s4)) as (dc4 & d1 & Hload4 & Hfiles4 & Hn).
  destruct (classify_eq (files s4) (loaded_mapping (files s4))
              (List.map (λ p, path_of p) prompts) Hn d1 [] [] Hfiles4)
    as (d' & Hclass).
  eexists rs, s4, _, _, d'. split; [reflexivity|]. split.
  { unfold getChangedFiles, mbind, M_bind. rewrite Hload4. cbn [fst].
    exact Hclass. }
  intros p bytes r Hin Hread Hexec Hsuccess. cbn [app].
  assert (Hverdict : verdict (files s4) (loaded_mapping (files s4)) (path_of p)
                     = false).
  { destruct (Hrec p bytes r Hin) as (h & Hdigest & Hentry);
      [intuition congruence|done..|].
    rewrite verdict_eq by done.
    rewrite (digest_of_files (files s) (files s4)) by done.
    rewrite (digest_of_files (files s) (files s1)) in Hdigest
      by intuition congruence.
    rewrite Hdigest, Hmap. unfold get_prop.
    rewrite json_image_obj. cbn [own_property].
    rewrite json_image_lookup, Hentry. cbn [json_image strict_eq_string].
    rewrite (digest_of_truthy _ _ _ Hdigest), String.eqb_refl. done. }
  split.
  - apply filter_In. split; [apply in_map_iff; eauto|by rewrite Hverdict].
  - intros [_ Hc]%filter_In. congruence.
Qed.
(** The loop of [compileWithUtility] adds one element to [results] for
    each prompt, in order, with an [error] for the prompts on which its
    body throws; without [incremental] it leaves the files and the cache
    directory alone. *)
Lemma compile_loop_reports (execute : string → list Z → result execution)
    (incremental : bool) (prompts : list prompt) :
  ∀ (hashCache : obj) (results : list compiled) (s : store),
  ∃ hashCache' results' s',
    compile_loop prompt prompt_name prompt_path execute incremental prompts
      hashCache results s = Return ((hashCache', results'), s')
    ∧ read_file (files s') = read_file (files s)
    ∧ List.map reported_prompt results'
      = (List.map reported_prompt results ++ List.map prompt_name prompts)%list
    ∧ List.map reported_error results'
      = (List.map reported_error results
         ++ List.map (fun p => throws_on execute (read_file (files s))
                                 (prompt_name p) (path_of p)) prompts)%list
    ∧ (incremental = false →
       files s' = files s ∧ cache_dir_exists s' = cache_dir_exists s
       ∧ console_error s' = console_error s).
Proof.
  induction prompts as [|p rest IH]; intros hashCache results s.
  { eexists _, _, _. split; [reflexivity|]. cbn [List.map].
    by rewrite !app_nil_r. }
  cbn [compile_loop]. unfold mbind at 1, M_bind at 1, read_store at 1.
  assert (Hnext : ∀ line hashCache1 entry,
     reported_prompt entry = prompt_name p →
     reported_error entry
     = throws_on execute (read_file (files s)) (prompt_name p) (path_of p) →
     ∃ hashCache' results' s',
       (console_log_line line;;
        compile_loop prompt prompt_name prompt_path execute incremental rest
          hashCache1 (results ++ [entry])) s = Return ((hashCache', results'), s')
       ∧ read_file (files s') = read_file (files s)
       ∧ List.map reported_prompt results'
         = (List.map reported_prompt results
            ++ List.map prompt_name (p :: rest))%list
       ∧ List.map reported_error results'
         = (List.map reported_error results
            ++ List.map (fun p => throws_on execute (read_file (files s))
                                    (prompt_name p) (path_of p)) (p :: rest))%list
       ∧ (incremental = false →
          files s' = files s ∧ cache_dir_exists s' = cache_dir_exists s
          ∧ console_error s' = console_error s)).
  { intros line hashCache1 entry Hname Herror.
    unfold mbind, M_bind, console_log_line.
    match goal with |- context [compile_loop _ _ _ _ _ _ _ _ ?s1] =>
      destruct (IH hashCache1 (results ++ [entry])%list s1)
        as (hc' & rs' & s' & Hrun & Hread & Hnames & Herrors & Hoff) end.
    cbn [files cache_dir_exists console_error] in *.
    exists hc', rs', s'. split; [exact Hrun|]. split; [exact Hread|].
    rewrite Hnames, Herrors, !map_app. cbn [List.map].
    rewrite Hname, Herror, <- !app_assoc. done. }
  unfold throws_on in Hnext.
  destruct (read_file (files s) (path_of p)) as [cause|bytes] eqn:Hread.
  - by apply Hnext.
  - destruct (execute (prompt_name p) (Utf8.decode bytes)) as [r|error] eqn:Hexec;
      [|by apply Hnext].
    destruct (truthy (success r) && incremental) eqn:Hupdate.
    + apply andb_true_iff in Hupdate as [_ ->].
      destruct (on_files_updateFileHash s (path_of p) hashCache)
        as (s1 & Hupd & Hr1 & _).
      unfold mbind at 1, M_bind at 1. rewrite Hupd.
      unfold mbind, M_bind, console_log_line.
      match goal with |- context [compile_loop _ _ _ _ _ _ ?hc ?rs ?s2] =>
        destruct (IH hc rs s2)
          as (hc' & rs' & s' & Hrun & Hread' & Hnames & Herrors & _) end.
      cbn [files] in *.
      exists hc', rs', s'. split; [exact Hrun|]. split; [congruence|].
      assert (Hp : throws_on execute (read_file (files s)) (prompt_name p)
                     (path_of p) = false).
      { unfold throws_on. by rewrite Hread, Hexec. }
      rewrite Hnames, Herrors, !map_app. cbn [List.map reported_prompt
        reported_error]. rewrite Hr1, Hp, <- !app_assoc. done.
    + unfold mbind at 1, M_bind at 1, mret at 1, M_ret at 1.
      by apply Hnext.
Qed.

(** X25. [compileWithUtility] returns one result for each prompt, in
    the order of the prompts, whatever the cache writes do; the results
    with an [error] are those of the prompts whose file cannot be read or
    on which the utility throws. *)
Theorem compileWithUtility_reports_every_prompt (s : store)
    (utilityName : string) (execute : string → list Z → result execution)
    (prompts : list prompt) (incremental : bool) :
  utilities utilityName = Some execute →
  (incremental = true → ∃ loaded, loaded_mapping (files s) = VObj loaded) →
  ∃ results s',
    compileWithUtility prompt prompt_name prompt_path utilities utilityName
      prompts incremental s = Some (Return (results, s'))
    ∧ List.map reported_prompt results = List.map prompt_name prompts
    ∧ List.map reported_error results
      = List.map (fun p => throws_on execute (read_file (files s))
                             (prompt_name p) (path_of p)) prompts.
Proof.
  intros Hutil Hobj. unfold compileWithUtility. rewrite Hutil.
  destruct incremental.
  - destruct (on_files_loadCache s) as (dc & s1 & Hload & _ & Hr1 & _).
    rewrite Hload. cbn [fst].
    destruct (Hobj eq_refl) as (loaded & ->).
    destruct (compile_loop_reports execute true prompts loaded [] s1)
      as (hc & rs & s2 & Hloop & Hr2 & Hnames & Herrors & _).
    destruct (on_files_loadCache s2) as (dc' & s3 & Hload' & _).
    unfold mbind, M_bind. rewrite Hloop. cbn [fst snd]. rewrite Hload'.
    cbn [snd].
    assert (Hsave : ∃ s4, saveCache (VObj hc) dc' s3 = Return (tt, s4)).
    { unfold saveCache. run_store.
      destruct (ensure_dir_fault s3); [by eexists|].
      destruct (write_hashes_fault s3); [by eexists|].
      destruct (is_undefined dc'); [by eexists|].
      destruct (write_detection_fault s3); by eexists. }
    destruct Hsave as (s4 & ->).
    exists rs, s4. split; [reflexivity|]. rewrite Hnames, Herrors, Hr1. done.
  - cbv beta iota. unfold mret at 1, M_ret at 1. cbn [fst].
    destruct (compile_loop_reports execute false prompts ∅ [] s)
      as (hc & rs & s2 & Hloop & Hr2 & Hnames & Herrors & _).
    unfold mbind, M_bind. rewrite Hloop. cbn [fst snd].
    exists rs, s2. split; [reflexivity|]. by rewrite Hnames, Herrors.
Qed.

(** X26. Without [incremental], [compileWithUtility] neither reads nor
    writes the cache: the two cache files, the cache directory and the
    warnings are as they were. *)
Theorem compileWithUtility_without_cache (s : store) (utilityName : string)
    (execute : string → list Z → result execution) (prompts : list prompt) :
  utilities utilityName = Some execute →
  ∃ results s',
    compileWithUtility prompt prompt_name prompt_path utilities utilityName
      prompts false s = Some (Return (results, s'))
    ∧ files s' = files s
    ∧ cache_dir_exists s' = cache_dir_exists s
    ∧ console_error s' = console_error s.
Proof.
  intros Hutil. unfold compileWithUtility. rewrite Hutil.
  cbv beta iota. unfold mret at 1, M_ret at 1. cbn [fst].
  destruct (compile_loop_reports execute false prompts ∅ [] s)
    as (hc & rs & s2 & Hloop & _ & _ & _ & Hoff).
  unfold mbind, M_bind. rewrite Hloop. cbn [fst snd].
  exists rs, s2. split; [reflexivity|]. by apply Hoff.
Qed.
End Prompts.

(** One prompt, compiled with success on a machine without a cache. *)
Lemma compiled_prompts_unchanged_next_time_witness :
  let s := {| files := {| hashes_json := Rejects (ENOENT "/project/.rex/cache/hashes.json");
                          detection_json := Rejects (ENOENT "/project/.rex/cache/detection.json");
                          read_file := fun _ => Content [];
                          console_warn := [] |};
              cacheDir := "/project/.rex/cache"; cache_dir_exists := false;
              ensure_dir_fault := None; write_hashes_fault := None;
              write_detection_fault := None; remove_fault := None;
              console_log := []; console_error := [] |} in
  let path name := "/home/user/.rex/prompts/" ++ name in
  let execute (fileName : string) (content : list Z) :=
    Return {| success := VBool true; outputPath := VStr fileName |} in
  ∃ results s' changed unchanged d',
    compileWithUtility string id path (fun _ => Some execute) "cursor"
      ["a.md"] true s = Some (Return (results, s'))
    ∧ getChangedFiles ["/home/user/.rex/prompts/a.md"] (files s')
      = Return ((changed, unchanged), d')
    ∧ In "/home/user/.rex/prompts/a.md" unchanged.
Proof.
  intros s path execute.
  destruct (compiled_prompts_unchanged_next_time id path (fun _ => Some execute)
              s "cursor" execute ["a.md"] ∅)
    as (results & s' & changed & unchanged & d' & Hrun & Hnext & Hall);
    try reflexivity.
  exists results, s', changed, unchanged, d'.
  split; [exact Hrun|]. split; [exact Hnext|].
  apply (Hall "a.md" [] {| success := VBool true; outputPath := VStr "a.md" |});
    [by left|reflexivity..].
Defined.
(** Two prompts, the second of which cannot be read. *)
Lemma compileWithUtility_reports_every_prompt_witness :
  let s := {| files := disk_with_file "/home/user/.rex/prompts/a.md" [];
              cacheDir := "/project/.rex/cache"; cache_dir_exists := false;
              ensure_dir_fault := Some (Error "EACCES: permission denied");
              write_hashes_fault := None;
              write_detection_fault := None; remove_fault := None;
              console_log := []; console_error := [] |} in
  let path name := "/home/user/.rex/prompts/" ++ name in
  let execute (fileName : string) (content : list Z) :=
    Return {| success := VBool true; outputPath := VStr fileName |} in
  ∃ results s',
    compileWithUtility string id path (fun _ => Some execute) "cursor"
      ["a.md"; "b.md"] true s = Some (Return (results, s'))
    ∧ List.map reported_prompt results = ["a.md"; "b.md"]
    ∧ List.map reported_error results = [false; true].
Proof.
  intros s path execute.
  destruct (compileWithUtility_reports_every_prompt id path
              (fun _ => Some execute) s "cursor" execute ["a.md"; "b.md"] true)
    as (results & s' & Hrun & Hnames & Herrors);
    [reflexivity|intros _; by exists ∅|].
  exists results, s'. split; [exact Hrun|]. split; [exact Hnames|].
  rewrite Herrors. vm_compute. reflexivity.
Defined.

Lemma compileWithUtility_without_cache_witness :
  let s := {| files := disk_with_file "/home/user/.rex/prompts/a.md" [];
              cacheDir := "/project/.rex/cache"; cache_dir_exists := false;
              ensure_dir_fault := None; write_hashes_fault := None;
              write_detection_fault := None; remove_fault := None;
              console_log := []; console_error := [] |} in
  let path name := "/home/user/.rex/prompts/" ++ name in
  let execute (fileName : string) (content : list Z) :=
    Return {| success := VBool true; outputPath := VStr fileName |} in
  ∃ results s',
    compileWithUtility string id path (fun _ => Some execute) "cursor"
      ["a.md"] false s = Some (Return (results, s'))
    ∧ files s' = files s.
Proof.
  intros s path execute.
  destruct (compileWithUtility_without_cache id path (fun _ => Some execute)
              s "cursor" execute ["a.md"] eq_refl)
    as (results & s' & Hrun & Hfiles & _).
  exists results, s'. split; [exact Hrun|exact Hfiles].
Defined.
End CompilationFacts.

(** ** The options of a deployment *)

Module DeploymentFacts.
Import JS Errors Eff ConfigurationManager ConfigurationEdits Paths Shapes.
Import DeploymentManager.
Import JSFacts ConfigurationFacts MergeFacts SaveFacts.

Lemma cli_or_config_eq (c merged : obj) (key path : string) (d : value)
    (st : state) :
  _mergedConfig (this st) = Some merged →
  cli_or_config (VObj c) key path d st
  = Return (option_value c merged key path d, st).
Proof.
  intros Hm. unfold cli_or_config, option_value, get.
  cbv [mbind M_bind lift read_member read_this mret M_ret].
  destruct (truthy (get_prop (VObj c) key)); [done|]. by rewrite Hm.
Qed.

(** The options of the command line are merged at the top level: they do
    not reach the keys under [deploy] unless they hold [deploy]
    themselves. *)
Lemma deploy_path_ignores_options (G P : value) (c : obj) (path : string)
    (rest : list string) (d : value) :
  c !! "deploy" = None → split_dot path = "deploy" :: rest →
  _getNestedValue (VObj (_mergeConfigurations G P (VObj c))) path d
  = _getNestedValue (VObj (_deepMerge G P)) path d.
Proof.
  intros Hc Hsplit. unfold _getNestedValue. rewrite Hsplit.
  assert (E : _mergeConfigurations G P (VObj c) !! "deploy"
              = _deepMerge G P !! "deploy").
  { unfold _mergeConfigurations.
    rewrite deepMerge_objects_lookup, sanitize_lookup. cbn [own_enumerable].
    by rewrite Hc. }
  cbn [get_keys truthy typeof_object andb]. unfold has_in, get_prop.
  cbn [own_property]. by rewrite E.
Qed.

Lemma option_value_ignores_options (G P : value) (c : obj) (key path : string)
    (rest : list string) (d : value) :
  c !! "deploy" = None → split_dot path = "deploy" :: rest →
  option_value c (_mergeConfigurations G P (VObj c)) key path d
  = option_value c (_deepMerge G P) key path d.
Proof.
  intros Hc Hsplit. unfold option_value.
  by rewrite (deploy_path_ignores_options G P c path rest d).
Qed.

Section Deploy.
Context {R : Type}.
Variable deploy : options → world → result R.

(** X23. For fragments and options whose keys are all ordinary,
    [deployWithConfig] resolves each option by the hierarchy of its
    comment, with truthiness as the test: the value of the command line
    when it is truthy (an empty list of tags is), otherwise the value of
    the merged global and project configuration under [deploy], otherwise
    the default. A falsy command-line value never overrides the
    configuration. *)
Theorem deployWithConfig_hierarchy (c : obj) (w : world) :
  let config :=
    _deepMerge (fragment_of (global_config_json w))
               (fragment_of (project_config_json w)) in
  let resolved key path d := option_value c config key path d in
  ordinary (fragment_of (global_config_json w)) = true →
  ordinary (fragment_of (project_config_json w)) = true →
  ordinary (VObj c) = true →
  c !! "deploy" = None →
  truthy (resolved "utility" "deploy.defaultUtility" VUndefined) = true →
  ∃ w',
    deployWithConfig R deploy (VObj c) w
    = Some (deploy
              {| promptNames := resolved "promptNames" "deploy.prompts" (VArr []);
                 utility := resolved "utility" "deploy.defaultUtility" VUndefined;
                 output := resolved "output" "deploy.defaultOutput" VUndefined;
                 tags := resolved "tags" "deploy.defaultTags" (VArr []);
                 category :=
                   resolved "category" "deploy.defaultCategory" VUndefined;
                 excludeTags :=
                   resolved "excludeTags" "deploy.defaultExcludeTags" (VArr []);
                 dryRun := resolved "dryRun" "deploy.dryRun" (VBool false);
                 force := resolved "force" "deploy.force" (VBool false) |}
              w').
Proof.
  intros config resolved _ _ _ Hc Hutility. unfold deployWithConfig.
  cbn [is_undefined].
  destruct (load_own_method (VObj c) {| this := constructor; env := w |})
    as (st & Hload & Hthis).
  rewrite Hload. cbn [env is_undefined] in Hthis.
  set (merged := _mergeConfigurations (fragment_of (global_config_json w))
                   (fragment_of (project_config_json w)) (VObj c)) in *.
  assert (Hm : _mergedConfig (this st) = Some merged) by by rewrite Hthis.
  assert (Hsame : ∀ key path rest d, split_dot path = "deploy" :: rest →
            option_value c merged key path d = resolved key path d).
  { intros key path rest d Hs. by eapply option_value_ignores_options. }
  unfold _resolveDeploymentOptions. unfold mbind, M_bind.
  rewrite !(cli_or_config_eq c merged _ _ _ st Hm).
  rewrite (Hsame "utility" "deploy.defaultUtility" ["defaultUtility"])
    by reflexivity.
  cbv beta iota. unfold mret at 1, M_ret at 1. cbv beta iota.
  rewrite Hutility. cbn [negb].
  rewrite !(cli_or_config_eq c merged _ _ _ st Hm).
  unfold mret, M_ret.
  rewrite (Hsame "promptNames" "deploy.prompts" ["prompts"]) by reflexivity.
  rewrite (Hsame "output" "deploy.defaultOutput" ["defaultOutput"]) by reflexivity.
  rewrite (Hsame "tags" "deploy.defaultTags" ["defaultTags"]) by reflexivity.
  rewrite (Hsame "category" "deploy.defaultCategory" ["defaultCategory"])
    by reflexivity.
  rewrite (Hsame "excludeTags" "deploy.defaultExcludeTags" ["defaultExcludeTags"])
    by reflexivity.
  rewrite (Hsame "dryRun" "deploy.dryRun" ["dryRun"]) by reflexivity.
  rewrite (Hsame "force" "deploy.force" ["force"]) by reflexivity.
  by eexists.
Qed.
End Deploy.

(** [--force] left out cannot switch off [deploy.force] of the project,
    and an empty list of tags on the command line hides the tags of the
    configuration. *)
Lemma deployWithConfig_hierarchy_witness :
  let project := VObj {[ "deploy" :=
                   VObj {[ "defaultUtility" := VStr "cursor";
                           "defaultTags" := VArr [VStr "frontend"];
                           "force" := VBool true ]} ]} in
  let c : obj := {[ "force" := VBool false; "tags" := VArr [] ]} in
  deployWithConfig options (fun o w => Return o) (VObj c)
    (world_holding Absent (Holds project))
  = Some (Return {| promptNames := VArr []; utility := VStr "cursor";
                    output := VUndefined; tags := VArr [];
                    category := VUndefined; excludeTags := VArr [];
                    dryRun := VBool false; force := VBool true |}).
Proof.
  intros project c.
  destruct (deployWithConfig_hierarchy (fun o w => Return o) c
              (world_holding Absent (Holds project)))
    as (w' & Hrun); [vm_compute; reflexivity..|].
  rewrite Hrun. vm_compute. reflexivity.
Defined.
End DeploymentFacts.

(** ** The expectations of the test-suite, replayed on the embedding *)

Module Tests.
Import JS Errors Eff ConfigurationManager CacheManager Paths Verdicts Fixtures.

Example merges_cli_project_and_global :
  ∃ st, makeConfigManager
        = Return ({[ "option1" := VStr "cli-value1";
                     "option2" := VStr "cli-value2";
                     "option3" := VStr "global-value3";
                     "option4" := VStr "project-value4" ]}, st).
Proof. eexists. vm_compute. reflexivity. Qed.

Example deploy_layers :
  let g : obj := {[ "deploy" := VObj {[ "defaultTags" := VArr [VStr "global-tag"];
                                        "defaultCategory" := VStr "global-category" ]} ]} in
  let p : obj := {[ "deploy" := VObj {[ "defaultTags" := VArr [VStr "project-tag"];
                                        "defaultUtility" := VStr "github-copilot" ]} ]} in
  let o : obj := {[ "deploy" := VObj {[ "defaultCategory" := VStr "cli-category" ]} ]} in
  get_after_load g p o "deploy.defaultTags" = Return (VArr [VStr "project-tag"])
  ∧ get_after_load g p o "deploy.defaultCategory" = Return (VStr "cli-category")
  ∧ get_after_load g p o "deploy.defaultUtility" = Return (VStr "github-copilot").
Proof. repeat split; vm_compute; reflexivity. Qed.

Example set_before_any_load :
  then_get (set "key" (VStr "value") (fresh (world_holding Absent Absent)))
           "key" VUndefined
  = Return (VStr "value").
Proof. vm_compute. reflexivity. Qed.

Example nested_set_and_fallback :
  ∃ st st',
    makeConfigManager = Return (mockCliOptions ∪ mockProjectConfig ∪ mockGlobalConfig, st)
    ∧ set "deep.nested.option" (VStr "deep-value") st = Return (tt, st')
    ∧ get "deep.nested.option" VUndefined st' = Return (VStr "deep-value", st')
    ∧ get "deep.other" (VStr "fallback") st' = Return (VStr "fallback", st').
Proof. eexists _, _. repeat split; vm_compute; reflexivity. Qed.

Example read_error_warns :
  let st := fresh (world_holding (Unreadable (Error "Parse error"))
                                 (Unreadable (Error "Parse error"))) in
  ∃ st', loadConfiguration own_merge_method (VObj ∅) st = Return (∅, st')
         ∧ ConfigurationManager.console_warn (env st')
           = ["Warning: Could not load global config: Parse error";
              "Warning: Could not load project config: Parse error"].
Proof. eexists. split; vm_compute; reflexivity. Qed.

Example merge_failure_message :
  loadConfiguration (fun _ _ _ => Throw (Error "Critical merge error")) (VObj ∅)
    (fresh (world_holding (Holds (VObj mockGlobalConfig))
                          (Holds (VObj mockProjectConfig))))
  = Throw {| name := "FileSystemError";
             message := "Failed to Failed to load configuration: Critical merge error 'undefined': Unknown error" |}.
Proof. vm_compute. reflexivity. Qed.

Example save_failure_message :
  let w := world_holding Absent Absent in
  saveProjectConfig own_merge_method {[ "key" := VStr "value" ]}
    (fresh (MkWorld Absent Absent (global_config_path w) (project_config_path w)
              (Some (Error "Filesystem error")) []))
  = Throw {| name := "FileSystemError";
             message := "Failed to save project config '/project/.rex/config.json': Filesystem error" |}.
Proof. vm_compute. reflexivity. Qed.

Example sha256_of_test_content :
  digest_of (disk_with_file "/test/file.md" (list_byte_of_string "test content"))
            "/test/file.md"
  = Some "6ae8a75555209fd6c44157c0aed8016e763ff435a19cf186f76863140143ff72".
Proof. vm_compute. reflexivity. Qed.

Example sha256_of_same_content :
  digest_of (disk_with_file "/test/file.md" (list_byte_of_string "same content"))
            "/test/file.md"
  = Some "a636bd7cd42060a4d07fa1bfbcc010eb7794c2ba721e1e3e4c20335a15b66eaf".
Proof. vm_compute. reflexivity. Qed.

Example missing_file_hash_is_null :
  ∃ d', calculateFileHash "/test/missing.md"
          (MkDisk (Resolves VNull) (Resolves VNull)
                  (fun _ => ReadFails (Error "File not found")) [])
        = Return (None, d')
        ∧ CacheManager.console_warn d'
          = ["計算檔案雜湊失敗 /test/missing.md: File not found"].
Proof. eexists. split; vm_compute; reflexivity. Qed.

Example stale_hash_means_changed :
  verdict (disk_with_file "/test/file.md" (list_byte_of_string "new content"))
          (VObj {[ "/test/file.md" := VStr "old-hash" ]}) "/test/file.md" = true.
Proof. vm_compute. reflexivity. Qed.

Example unknown_file_means_changed :
  verdict (disk_with_file "/test/new-file.md" (list_byte_of_string "content"))
          (VObj ∅) "/test/new-file.md" = true.
Proof. vm_compute. reflexivity. Qed.

Example cache_load_failure_warns :
  ∃ d', loadCache (MkDisk (Rejects (Error "File not found"))
                          (Rejects (Error "File not found"))
                          (fun _ => ReadFails (Error "ENOENT")) [])
        = Return ((VObj ∅, VObj ∅), d')
        ∧ CacheManager.console_warn d' = ["警告：無法載入快取: File not found"].
Proof. eexists. split; vm_compute; reflexivity. Qed.

Example utf8_ill_formed :
  Utf8.decode [Byte.xe2; Byte.x82; Byte.x41] = [0xFFFD; 0x41]%Z
  ∧ Utf8.decode [Byte.xed; Byte.xa0; Byte.x80] = [0xFFFD; 0xFFFD; 0xFFFD]%Z
  ∧ Utf8.decode [Byte.xe2; Byte.x82; Byte.xac] = [0x20AC]%Z
  ∧ Utf8.encode [0x20AC; 0x1F600]%Z
    = [0xE2; 0x82; 0xAC; 0xF0; 0x9F; 0x98; 0x80]%Z.
Proof. repeat split; vm_compute; reflexivity. Qed.

End Tests.
